(** * VRPTW: problem models, solution validator, cost evaluator, route extractor

  A shallow embedding of [Base_Code/ortools_solver.py] and
  [Base_Code/vrp_problem.py].

  - [Py]            : the fragment of the Python runtime the code relies on
                      (exceptions, list indexing, [str.replace]) and a
                      state-and-exception monad for methods that mutate
                      [self] or write to the log.
  - [OrtoolsSolver] : the pydantic [Problem] model and the [Solution] class
                      of [ortools_solver.py]. The routing library is an
                      external collaborator; the queries the code makes to
                      it are the fields of the record [Engine].
  - [VrpProblem]    : the file-loading [Problem] of [vrp_problem.py] with
                      its travel-time table. The value of a float is
                      taken as the real number it approximates; where the
                      float arithmetic raises [OverflowError] is
                      modelled. *)

From Stdlib Require Import ZArith String Reals Lra.
From stdpp Require Import base list gmap strings.

Local Open Scope Z_scope.

(* ===================================================================== *)
(** ** Python runtime                                                     *)
(* ===================================================================== *)

Module Py.

(** The exceptions the modelled code can raise; [DOcplexException] is the
    error of the modelling library of vrp_problem.py. *)
Inductive exn : Set :=
  IndexError | ValueError | OverflowError | DOcplexException.

(** Outcome of running a piece of code: a value, an exception, or a
    [while] loop that used up its fuel. *)
Inductive res (A : Type) : Type :=
| Ret (a : A)
| Raise (e : exn)
| OutOfFuel.
Arguments Ret {A} a.
Arguments Raise {A} e.
Arguments OutOfFuel {A}.

#[export] Instance res_ret : MRet res := fun A a => Ret a.
#[export] Instance res_bind : MBind res := fun A B k m =>
  match m with
  | Ret a => k a
  | Raise e => Raise e
  | OutOfFuel => OutOfFuel
  end.

(** [l[i]]: negative indices count from the end, anything outside
    [-len(l) <= i < len(l)] raises [IndexError]. *)
Definition getitem {A} (l : list A) (i : Z) : res A :=
  let n := Z.of_nat (length l) in
  let k := if i <? 0 then i + n else i in
  if (k <? 0) || (n <=? k) then Raise IndexError
  else match l !! Z.to_nat k with
       | Some x => Ret x
       | None => Raise IndexError
       end.

(** [s.replace(old, new)]: every non-overlapping occurrence of [old],
    scanning from the left. The fuel bounds the scan by the length of
    [s]. An empty [old] is not needed by the code and is left alone. *)
Fixpoint replace_from (fuel : nat) (old new s : string) : string :=
  match fuel with
  | O => s
  | S fuel' =>
      match s with
      | EmptyString => EmptyString
      | String c s' =>
          if String.prefix old s
          then new +:+ replace_from fuel' old new
                         (String.substring (String.length old)
                            (String.length s - String.length old) s)
          else String c (replace_from fuel' old new s')
      end
  end.

Definition replace (s old new : string) : string :=
  match old with
  | EmptyString => s
  | _ => replace_from (String.length s) old new s
  end.

(** State-and-exception monad: a method body is a function from the
    state before to an outcome and the state after. A raised exception
    keeps the mutations done before it. *)
Definition M (S A : Type) : Type := S -> res A * S.

Section Monad.
Context {S : Type}.

#[export] Instance M_ret : MRet (M S) := fun A a s => (Ret a, s).
#[export] Instance M_bind : MBind (M S) := fun A B k m s =>
  match m s with
  | (Ret a, s') => k a s'
  | (Raise e, s') => (Raise e, s')
  | (OutOfFuel, s') => (OutOfFuel, s')
  end.

Definition get : M S S := fun s => (Ret s, s).
Definition gets {A} (f : S -> A) : M S A := fun s => (Ret (f s), s).
Definition modify (f : S -> S) : M S unit := fun s => (Ret tt, f s).
Definition lift {A} (r : res A) : M S A := fun s => (r, s).
Definition out_of_fuel {A} : M S A := fun s => (OutOfFuel, s).

(** [for x in l: body], where the body may [return] from the enclosing
    function: [Some v] is such a return, [None] falls through to the
    next iteration. *)
Fixpoint for_each {A R} (l : list A) (body : A -> M S (option R))
  : M S (option R) :=
  match l with
  | [] => mret None
  | x :: l' =>
      r ← body x;
      match r with
      | Some v => mret (Some v)
      | None => for_each l' body
      end
  end.

(** [for x in l: acc = body(acc, x)] without early exit. *)
Fixpoint for_fold {A B} (l : list A) (body : B -> A -> M S B) (acc : B)
  : M S B :=
  match l with
  | [] => mret acc
  | x :: l' => acc' ← body acc x; for_fold l' body acc'
  end.
End Monad.

End Py.

Import Py.

(* ===================================================================== *)
(** ** ortools_solver.py                                                  *)
(* ===================================================================== *)

Module OrtoolsSolver.

(** *** Data model (pydantic classes) *)

Record Customer : Set := {
  id : Z;
  x : Z;
  y : Z;
  demand : Z;
  ready_time : Z;
  due_date : Z;
  service_time : Z }.

Record Vehicle : Set := {
  vehicle_id : Z;
  capacity : Z }.

Record Problem : Set := {
  vehicles : list Vehicle;
  customers : list Customer;
  problem_id : string;
  depot : Z }.

(** [Problem(vehicles=..., customers=..., id=..., depot=...)]. The class
    declares field types and no validator, so for well-typed arguments
    construction is the record itself. *)
Definition Problem_init (vs : list Vehicle) (cs : list Customer)
    (name : string) (d : Z) : res Problem :=
  Ret {| vehicles := vs; customers := cs; problem_id := name; depot := d |}.

(** [Problem(vehicles=..., customers=..., id=...)] with the default depot. *)
Definition Problem_init_default (vs : list Vehicle) (cs : list Customer)
    (name : string) : res Problem :=
  Problem_init vs cs name 0.

(** *** The routing engine, as the code queries it

    [model], [manager] and [fsolution] are objects of the routing library.
    A variable index is an integer; the code never inspects the objects
    beyond these calls. *)
Record Engine : Type := {
  model_vehicles : nat;      (* model.vehicles() *)
  Start : nat -> Z;          (* model.Start(vehicle_id) *)
  IsEnd : Z -> bool;         (* model.IsEnd(index) *)
  NextValue : Z -> Z;        (* fsolution.Value(model.NextVar(index)) *)
  IndexToNode : Z -> Z;      (* manager.IndexToNode(index) *)
  CumulMin : Z -> Z;         (* fsolution.Min(time_dimension.CumulVar(index)) *)
  ObjectiveValue : Z }.      (* fsolution.ObjectiveValue() *)

(** *** Log records and the persisted result *)

Inductive level : Set := INFO | WARNING.

(** One constructor per [logging] call site; the arguments are the values
    interpolated into the message. *)
Inductive message : Set :=
| InstanceHeader (name : string)
| CapacityCheckStart (vehicle : nat)
| CapacityOK (vehicle : nat)
| CapacityNotOK (vehicle : nat)
| TimeWindowCheckStart (vehicle : nat)
| TimeWindowMet (client : Z)
| TimeWindowNotMet (client : Z)
| TimeWindowsOK (vehicle : nat)
| CostOfSolution (cost : Z)
| BlankLine.

Definition log_record : Set := level * message.

Record RouteEntry : Set := {
  entry_vehicle : nat;       (* 'vehicle' *)
  entry_route : list Z }.    (* 'route' *)

Record Result : Set := {
  result_routes : list RouteEntry;   (* 'routes' *)
  result_cost : Z }.                 (* 'cost' *)

(** *** Program state

    [self.routes] is a reference to a list object in the heap: the list
    grows in place and [get_routes] hands out the reference itself. The
    per-vehicle route lists are not mutated after they are built and are
    kept as values. *)
Definition loc : Set := nat.

Record Solution : Type := {
  problem : Problem;
  engine : Engine;
  routes : loc;
  total_driving_time : Z;
  total_driving_service_time : Z }.

Record World : Type := {
  self : Solution;
  heap : gmap loc (list (list Z));
  log : list log_record;                  (* records emitted, oldest first *)
  files : gmap string (option Result) }.  (* None: opened, nothing dumped *)

Definition set_self (f : Solution -> Solution) (w : World) : World :=
  {| self := f (self w); heap := heap w; log := log w; files := files w |}.
Definition set_heap (f : gmap loc (list (list Z)) -> gmap loc (list (list Z)))
    (w : World) : World :=
  {| self := self w; heap := f (heap w); log := log w; files := files w |}.
Definition set_log (f : list log_record -> list log_record) (w : World)
    : World :=
  {| self := self w; heap := heap w; log := f (log w); files := files w |}.
Definition set_files
    (f : gmap string (option Result) -> gmap string (option Result))
    (w : World) : World :=
  {| self := self w; heap := heap w; log := log w; files := f (files w) |}.

Definition with_total_driving_time (t : Z) (s : Solution) : Solution :=
  {| problem := problem s; engine := engine s; routes := routes s;
     total_driving_time := t;
     total_driving_service_time := total_driving_service_time s |}.
Definition with_total_driving_service_time (t : Z) (s : Solution)
    : Solution :=
  {| problem := problem s; engine := engine s; routes := routes s;
     total_driving_time := total_driving_time s;
     total_driving_service_time := t |}.

Definition logging (lv : level) (m : message) : M World unit :=
  modify (set_log (fun l => l ++ [(lv, m)])).
Definition logging_info := logging INFO.
Definition logging_warning := logging WARNING.

(** Attribute reads on [self]. *)
Definition self_problem : M World Problem := gets (fun w => problem (self w)).
Definition self_engine : M World Engine := gets (fun w => engine (self w)).
Definition self_routes : M World loc := gets (fun w => routes (self w)).

(** [self.problem.customers[node]] *)
Definition customer_at (node : Z) : M World Customer :=
  p ← self_problem; lift (getitem (customers p) node).

(** [Solution.__init__]: a fresh empty list for [self.routes], both
    totals at zero. The configuration of the log file is outside the
    model; [log] is the sequence of records handed to [logging]. *)
Definition Solution_init (p : Problem) (e : Engine)
    (h : gmap loc (list (list Z))) (l : list log_record)
    (fs : gmap string (option Result)) : World :=
  let r := fresh (dom h) in
  {| self := {| problem := p; engine := e; routes := r;
                total_driving_time := 0;
                total_driving_service_time := 0 |};
     heap := <[r := []]> h;
     log := l;
     files := fs |}.

(** *** Solution.get_routes *)

(** The [while not self.model.IsEnd(index)] loop; [route] is the list
    built so far. *)
Fixpoint get_routes_walk (fuel : nat) (e : Engine) (index : Z)
    (route : list Z) : M World (list Z) :=
  match fuel with
  | O => out_of_fuel
  | S fuel' =>
      if IsEnd e index then mret route
      else
        let index := NextValue e index in
        get_routes_walk fuel' e index (route ++ [IndexToNode e index])
  end.

(** [self.routes.append(route)]: in-place update of the list object. *)
Definition routes_append (route : list Z) : M World unit :=
  r ← self_routes;
  modify (set_heap (fun h => <[r := default [] (h !! r) ++ [route]]> h)).

(** Body of [for route_nbr in range(self.model.vehicles())]. *)
Definition get_routes_body (fuel : nat) (e : Engine) (_ : unit)
    (route_nbr : nat) : M World unit :=
  let index := Start e route_nbr in
  route ← get_routes_walk fuel e index [IndexToNode e index];
  routes_append route.

Definition get_routes (fuel : nat) : M World loc :=
  e ← self_engine;
  for_fold (seq 0 (model_vehicles e)) (get_routes_body fuel e) tt;;
  self_routes.

(** *** Solution.evaluate_cost *)

(** The inner [while] loop; returns the index it stopped at together with
    the two running totals. *)
Fixpoint evaluate_cost_walk (fuel : nat) (e : Engine) (index : Z)
    (driving_time service_time : Z) : M World (Z * Z * Z) :=
  match fuel with
  | O => out_of_fuel
  | S fuel' =>
      if IsEnd e index then mret (index, driving_time, service_time)
      else
        let time_var := index in
        let index := NextValue e index in
        let driving_time := driving_time + CumulMin e time_var in
        c ← customer_at (IndexToNode e index);
        evaluate_cost_walk fuel' e index driving_time
          (service_time + OrtoolsSolver.service_time c)
  end.

(** Body of [for vehicle_id in range(len(self.problem.vehicles))], on the
    two running totals. *)
Definition evaluate_cost_body (fuel : nat) (e : Engine) (totals : Z * Z)
    (vehicle_id : nat) : M World (Z * Z) :=
  let '(driving_time, service_time) := totals in
  '(index, driving_time, service_time) ←
    evaluate_cost_walk fuel e (Start e vehicle_id) driving_time service_time;
  mret (driving_time + CumulMin e index, service_time).

Definition evaluate_cost (fuel : nat) : M World Z :=
  e ← self_engine;
  p ← self_problem;
  '(driving_time, service_time) ←
    for_fold (seq 0 (length (vehicles p))) (evaluate_cost_body fuel e) (0, 0);
  modify (set_self
            (with_total_driving_service_time (driving_time + service_time)));;
  gets (fun w => total_driving_service_time (self w)).

(** *** Solution.print_solution

    The text written to the console is not modelled; the reads that can
    raise and the update of [self.total_driving_time] are. *)

Fixpoint print_solution_walk (fuel : nat) (e : Engine) (index : Z)
    (route_load : Z) : M World (Z * Z) :=
  match fuel with
  | O => out_of_fuel
  | S fuel' =>
      if IsEnd e index then mret (index, route_load)
      else
        c ← customer_at (IndexToNode e index);
        print_solution_walk fuel' e (NextValue e index)
          (route_load + demand c)
  end.

(** Body of [for vehicle_id in range(len(self.problem.vehicles))]. *)
Definition print_solution_body (fuel : nat) (e : Engine) (_ : unit)
    (vehicle_id : nat) : M World unit :=
  '(index, _) ← print_solution_walk fuel e (Start e vehicle_id) 0;
  modify (set_self (fun s =>
    with_total_driving_time (total_driving_time s + CumulMin e index) s)).

Definition print_solution (fuel : nat) : M World unit :=
  e ← self_engine;
  p ← self_problem;
  for_fold (seq 0 (length (vehicles p))) (print_solution_body fuel e) tt;;
  _ ← evaluate_cost fuel;
  mret tt.

(** *** Solution.feasible *)

(** Capacity check, inner [while]: accumulated demand of the route. *)
Fixpoint capacity_walk (fuel : nat) (e : Engine) (index : Z)
    (capacity_of_route : Z) : M World Z :=
  match fuel with
  | O => out_of_fuel
  | S fuel' =>
      if IsEnd e index then mret capacity_of_route
      else
        c ← customer_at (IndexToNode e index);
        capacity_walk fuel' e (NextValue e index)
          (capacity_of_route + demand c)
  end.

(** Time-window check, inner [while]. [Some false] is the [return False]
    inside the loop; [None] means the loop ran to the end node. The two
    reads of [customers[node]] in the chained comparison are the same
    lookup and are done once here. *)
Fixpoint time_window_walk (fuel : nat) (e : Engine) (depot_node : Z)
    (index : Z) : M World (option bool) :=
  match fuel with
  | O => out_of_fuel
  | S fuel' =>
      if IsEnd e index then mret None
      else if IndexToNode e index =? depot_node then
        time_window_walk fuel' e depot_node (NextValue e index)
      else
        let time_window_arrive := CumulMin e index in
        c ← customer_at (IndexToNode e index);
        if (ready_time c <=? time_window_arrive)
           && (time_window_arrive <=? due_date c)
        then
          logging_info (TimeWindowMet (IndexToNode e index));;
          time_window_walk fuel' e depot_node (NextValue e index)
        else
          logging_warning (TimeWindowNotMet (IndexToNode e (index - 1)));;
          mret (Some false)
  end.

(** Body of the first [for vehicle_id in range(self.model.vehicles())]. *)
Definition capacity_check_body (fuel : nat) (e : Engine) (vehicle_id : nat)
    : M World (option bool) :=
  let index := Start e vehicle_id in
  logging_info (CapacityCheckStart vehicle_id);;
  capacity_of_route ← capacity_walk fuel e index 0;
  p ← self_problem;
  v0 ← lift (getitem (vehicles p) 0);
  if capacity_of_route <=? capacity v0
  then logging_info (CapacityOK vehicle_id);; mret None
  else logging_warning (CapacityNotOK vehicle_id);; mret (Some false).

Definition capacity_checks (fuel : nat) : M World (option bool) :=
  e ← self_engine;
  for_each (seq 0 (model_vehicles e)) (capacity_check_body fuel e).

(** Body of the second loop,
    [for vehicle_id in range(len(self.problem.vehicles))]. *)
Definition time_window_check_body (fuel : nat) (e : Engine) (p : Problem)
    (vehicle_id : nat) : M World (option bool) :=
  let index := Start e vehicle_id in
  logging_info (TimeWindowCheckStart vehicle_id);;
  r ← time_window_walk fuel e (depot p) index;
  match r with
  | Some b => mret (Some b)
  | None => logging_info (TimeWindowsOK vehicle_id);; mret None
  end.

Definition time_window_checks (fuel : nat) : M World (option bool) :=
  e ← self_engine;
  p ← self_problem;
  for_each (seq 0 (length (vehicles p))) (time_window_check_body fuel e p).

Definition feasible (fuel : nat) : M World bool :=
  p ← self_problem;
  logging_info (InstanceHeader (problem_id p));;
  r ← capacity_checks fuel;
  match r with
  | Some b => mret b
  | None =>
      r ← time_window_checks fuel;
      match r with
      | Some b => mret b
      | None =>
          cost ← evaluate_cost fuel;
          logging_info (CostOfSolution cost);;
          logging_info BlankLine;;
          mret true
      end
  end.

(** *** Solution.save_to_file *)

(** [os.path.join('..', 'Solutions', 'sols', name)] on a POSIX system. *)
Definition solution_path (name : string) : string :=
  if String.prefix "/" name then name
  else ("../Solutions/sols/" +:+ name)%string.

Definition save_to_file (fuel : nat) : M World unit :=
  p ← self_problem;
  let path := solution_path (replace (problem_id p) ".txt" ".json") in
  modify (set_files (fun fs => <[path := None]> fs));;
  r ← self_routes;
  h ← gets heap;
  let entries :=
    imap (fun vehicle_id customers =>
            {| entry_vehicle := vehicle_id; entry_route := customers |})
         (default [] (h !! r)) in
  cost ← evaluate_cost fuel;
  modify (set_files (fun fs =>
    <[path := Some {| result_routes := entries; result_cost := cost |}]> fs)).

End OrtoolsSolver.

(* ===================================================================== *)
(** ** vrp_problem.py                                                     *)
(* ===================================================================== *)

Module VrpProblem.

(** [self.coordinates] is the dict with the two keys "x" and "y". *)
Record Customer : Set := {
  id : Z;
  coordinates_x : Z;
  coordinates_y : Z;
  demand : Z;
  ready_time : Z;
  due_date : Z;
  service_time : Z }.

(** [Customer.distance], when it returns: the float is taken as the real
    number it approximates, without the rounding of [math.pow], of the sum
    and of [math.sqrt], and without the overflow of the sum to [inf]. *)
Definition distance (self other_customer : Customer) : R :=
  sqrt (IZR (coordinates_x other_customer - coordinates_x self) ^ 2
        + IZR (coordinates_y other_customer - coordinates_y self) ^ 2).

(** A field of a line after [line.strip().split()]: text that [int]
    accepts, with its value, or any other text. A line of the data set is
    the list of its fields; a blank line is the empty list. *)
Inductive token : Set := Int (z : Z) | Word (s : string).

Definition int (t : token) : res Z :=
  match t with
  | Int z => Ret z
  | Word _ => Raise ValueError
  end.

Record Problem : Type := {
  customers : list Customer;
  vehicles : option Z;        (* None until row 4 has been read *)
  capacity : option Z;
  depot : Customer;
  travel_time : list (list R) }.  (* travel_time[i][j], keys in order *)

(** What the reading loop has assigned so far. *)
Record Loaded : Set := {
  loaded_customers : list Customer;
  loaded_vehicles : option Z;
  loaded_capacity : option Z }.

(** [self.vehicles, self.capacity = [int(x) for x in line.strip().split()]]:
    unpacking anything but two values is a [ValueError]. *)
Definition read_fleet (data : list token) : res (Z * Z) :=
  values ← mapM int data;
  match values with
  | [v; c] => Ret (v, c)
  | _ => Raise ValueError
  end.

(** [Customer(int(data[0]), ..., int(data[6]))] for a line of seven
    fields. *)
Definition read_customer (data : list token) : res (option Customer) :=
  match data with
  | [d0; d1; d2; d3; d4; d5; d6] =>
      a0 ← int d0; a1 ← int d1; a2 ← int d2; a3 ← int d3;
      a4 ← int d4; a5 ← int d5; a6 ← int d6;
      Ret (Some {| id := a0; coordinates_x := a1; coordinates_y := a2;
                   demand := a3; ready_time := a4; due_date := a5;
                   service_time := a6 |})
  | _ => Ret None
  end.

(** One iteration of [for row_counter, line in enumerate(reader)]. *)
Definition read_row (skiprows : Z) (row_counter : nat) (data : list token)
    (st : Loaded) : res Loaded :=
  st ← (if (row_counter =? 4)%nat
        then '(v, c) ← read_fleet data;
             Ret {| loaded_customers := loaded_customers st;
                    loaded_vehicles := Some v;
                    loaded_capacity := Some c |}
        else Ret st);
  if Z.of_nat row_counter <=? skiprows then Ret st
  else
    c ← read_customer data;
    match c with
    | Some c =>
        Ret {| loaded_customers := loaded_customers st ++ [c];
               loaded_vehicles := loaded_vehicles st;
               loaded_capacity := loaded_capacity st |}
    | None => Ret st
    end.

Fixpoint read_rows (skiprows : Z) (row_counter : nat)
    (lines : list (list token)) (st : Loaded) : res Loaded :=
  match lines with
  | [] => Ret st
  | data :: lines' =>
      st ← read_row skiprows row_counter data st;
      read_rows skiprows (S row_counter) lines' st
  end.

(** The comprehension
    [{i: {j: customers[i].distance(customers[j]) + customers[i].service_time
             if i != j else 0 for j in range(n)} for i in range(n)}]. *)
Definition travel_time_table (cs : list Customer) : list (list R) :=
  imap (fun i ci =>
          imap (fun j cj =>
                  if (i =? j)%nat then 0%R
                  else (distance ci cj + IZR (service_time ci))%R)
               cs)
       cs.

(** Where the arithmetic of the comprehension raises. [math.pow(d, 2)]
    on an int [d] raises [OverflowError] when the square of the float
    nearest to [d] is beyond the floats, which is when
    [|d| >= 2^512 - 2^458]; a float plus an int [z] converts [z] and raises
    [OverflowError] when [|z| >= 2^1024 - 2^970]. The sum of the two powers
    and the square root never raise. *)
Definition pow_limit : Z := 2 ^ 512 - 2 ^ 458.
Definition float_limit : Z := 2 ^ 1024 - 2 ^ 970.

Definition pow_overflows (d : Z) : bool := pow_limit <=? Z.abs d.
Definition float_overflows (z : Z) : bool := float_limit <=? Z.abs z.

Definition distance_overflows (self other_customer : Customer) : bool :=
  pow_overflows (coordinates_x other_customer - coordinates_x self)
  || pow_overflows (coordinates_y other_customer - coordinates_y self).

(** Whether some entry of the comprehension raises; the entries with
    [i == j] are the constant 0 and compute nothing. *)
Definition travel_time_overflows (cs : list Customer) : bool :=
  existsb (fun raises : bool => raises)
    (mjoin (imap (fun i ci =>
                    imap (fun j cj =>
                            if (i =? j)%nat then false
                            else distance_overflows ci cj
                                 || float_overflows (service_time ci))
                         cs)
                 cs)).

(** [Problem.__init__(dataset_name, skiprows)] on the lines of the data
    set file. The only exception of the travel-time comprehension is
    [OverflowError], whichever entry raises it first. *)
Definition Problem_init (lines : list (list token)) (skiprows : Z)
    : res Problem :=
  st ← read_rows skiprows 0
          lines
          {| loaded_customers := []; loaded_vehicles := None;
             loaded_capacity := None |};
  d ← getitem (loaded_customers st) 0;
  let cs := loaded_customers st ++ [d] in
  if travel_time_overflows cs then Raise OverflowError
  else
    Ret {| customers := cs;
           vehicles := loaded_vehicles st;
           capacity := loaded_capacity st;
           depot := d;
           travel_time := travel_time_table cs |}.

Definition no_customers (self : Problem) : nat := length (customers self).

(** [self.travel_time[i][j]] *)
Definition travelTime (self : Problem) (i j : nat) : option R :=
  row ← travel_time self !! i; row !! j.

End VrpProblem.

(* ===================================================================== *)
(** ** Vocabulary for stating properties of the Solution class            *)
(* ===================================================================== *)

Module SolutionSpec.
Import OrtoolsSolver.

(** *** What a method may read and write

    [reads_only m]: the outcome of [m] is a function of [self.problem]
    and [self.model]/[self.manager]/[self.fsolution], and [m] writes
    nothing. *)
Definition reads_only {A} (m : M World A) : Prop :=
  forall pr e, exists r, forall w,
    problem (self w) = pr -> engine (self w) = e -> m w = (r, w).

(** The writes of the validator and of the cost evaluator: records
    appended to the log, and [self.total_driving_service_time]
    overwritten. *)
Record effect : Set := {
  emitted : list log_record;
  cost_written : option Z }.

Definition apply_effect (eff : effect) (w : World) : World :=
  set_log (fun l => l ++ emitted eff)
    (match cost_written eff with
     | Some c => set_self (with_total_driving_service_time c) w
     | None => w
     end).

Definition no_effect : effect := {| emitted := []; cost_written := None |}.

Definition then_effect (e1 e2 : effect) : effect :=
  {| emitted := emitted e1 ++ emitted e2;
     cost_written := match cost_written e2 with
                     | Some c => Some c
                     | None => cost_written e1
                     end |}.

(** [logs_and_caches m]: outcome and writes of [m] are a function of the
    problem and the engine, and the writes are of the two kinds above. *)
Definition logs_and_caches {A} (m : M World A) : Prop :=
  forall pr e, exists r eff, forall w,
    problem (self w) = pr -> engine (self w) = e ->
    m w = (r, apply_effect eff w).

(** *** Routes of the engine

    [walk fuel e index]: the indices met by following [NextValue] from
    [index], as the pair of the indices before the end and the end index
    itself; [None] if no end index is met within [fuel] steps. *)
Definition route : Set := list Z * Z.

Fixpoint walk (fuel : nat) (e : Engine) (index : Z) : option route :=
  match fuel with
  | O => None
  | S fuel' =>
      if IsEnd e index then Some ([], index)
      else '(l, z) ← walk fuel' e (NextValue e index); Some (index :: l, z)
  end.

(** All indices of a route, the end index last. *)
Definition indices (r : route) : list Z := r.1 ++ [r.2].

(** The routes of the vehicles [0 .. n-1]. *)
Definition routes_upto (fuel : nat) (e : Engine) (n : nat)
    : option (list route) :=
  mapM (fun v => walk fuel e (Start e v)) (seq 0 n).

(** The node sequence of a route. *)
Definition route_nodes (e : Engine) (r : route) : list Z :=
  IndexToNode e <$> indices r.

Definition Zsum (l : list Z) : Z := foldr Z.add 0 l.

(** A node number the manager can return: [0 <= node < len(customers)]. *)
Definition valid_node (pr : Problem) (node : Z) : Prop :=
  0 <= node < Z.of_nat (length (customers pr)).

Definition demand_at (pr : Problem) (node : Z) : Z :=
  match getitem (customers pr) node with
  | Ret c => demand c
  | _ => 0
  end.

Definition service_at (pr : Problem) (node : Z) : Z :=
  match getitem (customers pr) node with
  | Ret c => service_time c
  | _ => 0
  end.

(** Demand accumulated along a route: every index before the end. *)
Definition route_demand (pr : Problem) (e : Engine) (r : route) : Z :=
  Zsum ((fun i => demand_at pr (IndexToNode e i)) <$> r.1).

(** Cumulative time at the end index of a route. *)
Definition terminal_cumul (e : Engine) (r : route) : Z := CumulMin e r.2.

(** Cumulative times summed over every index of a route. *)
Definition cumul_total (e : Engine) (r : route) : Z :=
  Zsum (CumulMin e <$> indices r).

(** Service times summed over every index of a route after the first. *)
Definition service_total (pr : Problem) (e : Engine) (r : route) : Z :=
  Zsum ((fun i => service_at pr (IndexToNode e i)) <$> tail (indices r)).

(** The arrival time at index [i] lies in the window of its customer. *)
Definition in_window (pr : Problem) (e : Engine) (i : Z) : bool :=
  match getitem (customers pr) (IndexToNode e i) with
  | Ret c => (ready_time c <=? CumulMin e i) && (CumulMin e i <=? due_date c)
  | _ => false
  end.

(** What the time-window loop asks of an index: nothing of a depot
    node, the window of any other node. *)
Definition window_ok (pr : Problem) (e : Engine) (i : Z) : bool :=
  (IndexToNode e i =? depot pr) || in_window pr e i.

(** The capacity the validator compares every route with. *)
Definition first_capacity (pr : Problem) : Z :=
  match vehicles pr with
  | v :: _ => capacity v
  | [] => 0
  end.

(** The two conditions the validator tests, on the routes [ps]. *)
Definition capacity_ok (pr : Problem) (e : Engine) (ps : list route) : bool :=
  forallb (fun r => route_demand pr e r <=? first_capacity pr) ps.

Definition windows_ok (pr : Problem) (e : Engine) (ps : list route) : bool :=
  forallb (fun r => forallb (window_ok pr e) r.1) ps.

(** A trace that ends with a warning: nothing was checked after the
    violation was found. *)
Definition ends_with_warning (d : list log_record) : Prop :=
  exists d0 msg, d = d0 ++ [(WARNING, msg)].

(** What the routing library guarantees for the model that
    [vehicle_routing_solver] builds from a problem: one route per
    vehicle of the problem, every route leaves a start index and reaches
    an end index, indices map to node numbers of the problem, and both
    ends of every route map to the depot node. [ps] are the routes. *)
Record engine_contract (fuel : nat) (pr : Problem) (e : Engine)
    (ps : list route) : Prop := {
  contract_vehicles : model_vehicles e = length (vehicles pr);
  contract_routes : routes_upto fuel e (model_vehicles e) = Some ps;
  contract_start : Forall (fun r => r.1 <> []) ps;
  contract_nodes :
    Forall (fun r => Forall (fun i => valid_node pr (IndexToNode e i))
                       (indices r)) ps;
  contract_depot :
    Forall (fun r => head (route_nodes e r) = Some (depot pr)
                     /\ IndexToNode e r.2 = depot pr) ps }.

(** The path of the result file. *)
Definition result_path (pr : Problem) : string :=
  solution_path (replace (problem_id pr) ".txt" ".json").

(** The result record built from the list held in [self.routes]. *)
Definition result_of (rs : list (list Z)) (cost : Z) : Result :=
  {| result_routes :=
       imap (fun v r => {| entry_vehicle := v; entry_route := r |}) rs;
     result_cost := cost |}.

(** Index [i] lies on one of the routes [ps]. *)
Definition visits (ps : list route) (i : Z) : Prop :=
  exists r, r ∈ ps /\ i ∈ indices r.

(** [k] calls of [get_routes] in a row. *)
Fixpoint call_get_routes (fuel k : nat) : M World unit :=
  match k with
  | O => mret tt
  | S k' => get_routes fuel;; call_get_routes fuel k'
  end.

End SolutionSpec.

(* ===================================================================== *)
(** ** Test scenarios                                                      *)
(* ===================================================================== *)

Module Scenario.
Import OrtoolsSolver.

Definition mkCustomer (i dem ready due service : Z) : Customer :=
  {| id := i; x := 0; y := 0; demand := dem; ready_time := ready;
     due_date := due; service_time := service |}.

(** One depot with window [0, 1000], two customers with demand 10 and
    service time 5, windows [10, 50] and [w2_ready, w2_due]; vehicles with
    the given capacities. *)
Definition two_customers (caps : list Z) (w2_ready w2_due : Z) : Problem :=
  {| vehicles := imap (fun i c => {| vehicle_id := Z.of_nat i; capacity := c |}) caps;
     customers := [ mkCustomer 0 0 0 1000 0;
                    mkCustomer 1 10 10 50 5;
                    mkCustomer 2 10 w2_ready w2_due 5 ];
     problem_id := "C101.txt";
     depot := 0 |}.

(** One vehicle driving 0 -> 1 -> 2 -> 0 with arrivals 0, 20, 70, 80.
    Indices 0..2 are the nodes themselves, index 3 is the end of the
    vehicle (node 0). *)
Definition one_route : Engine :=
  {| model_vehicles := 1;
     Start := fun _ => 0;
     IsEnd := fun i => i =? 3;
     NextValue := fun i => i + 1;
     IndexToNode := fun i => if i =? 3 then 0 else i;
     CumulMin := fun i =>
       if i =? 1 then 20 else if i =? 2 then 70 else if i =? 3 then 80 else 0;
     ObjectiveValue := 80 |}.


(** Two vehicles, the first serves both customers, the second goes from
    its start straight to its end. *)
Definition idle_second_vehicle : Engine :=
  {| model_vehicles := 2;
     Start := fun v => if (v =? 0)%nat then 0 else 3;
     IsEnd := fun i => 4 <=? i;
     NextValue := fun i =>
       if i =? 0 then 1 else if i =? 1 then 2 else if i =? 2 then 4 else 5;
     IndexToNode := fun i => if i =? 1 then 1 else if i =? 2 then 2 else 0;
     CumulMin := fun i =>
       if i =? 1 then 20 else if i =? 2 then 70 else if i =? 4 then 80 else 0;
     ObjectiveValue := 80 |}.

Definition fresh_world (p : Problem) (e : Engine) : World :=
  Solution_init p e ∅ [] ∅.
End Scenario.

(* ===================================================================== *)
(** ** Vocabulary and test data for the file-loading Problem               *)
(* ===================================================================== *)

Module ProblemSpec.
Import VrpProblem.

(** The state of the reading loop before the first line. *)
Definition nothing_loaded : Loaded :=
  {| loaded_customers := []; loaded_vehicles := None;
     loaded_capacity := None |}.

(** The customer records the loop parses from the lines. *)
Definition parsed (lines : list (list token)) (skiprows : Z) : res Loaded :=
  read_rows skiprows 0 lines nothing_loaded.

(** A data set file in the layout of the benchmark instances: name, fleet
    header, the fleet on row 4, column header, one row per customer. *)
Definition data_set (fleet : list token) (rows : list (list token))
    : list (list token) :=
  [ [Word "C101"];
    [];
    [Word "VEHICLE"];
    [Word "NUMBER"; Word "CAPACITY"];
    fleet;
    [];
    [Word "CUSTOMER"];
    [Word "CUST"; Word "NO."; Word "XCOORD."; Word "YCOORD."; Word "DEMAND";
     Word "READY"; Word "TIME"; Word "DUE"; Word "DATE"; Word "SERVICE";
     Word "TIME"];
    [] ] ++ rows.

Definition row (i x y dem ready due service : Z) : list token :=
  [Int i; Int x; Int y; Int dem; Int ready; Int due; Int service].

(** Depot at (40, 50), customers at (43, 54) and (40, 62). *)
Definition small_instance : list (list token) :=
  data_set [Int 25; Int 200]
    [ row 0 40 50 0 0 1236 0;
      row 1 43 54 10 10 50 5;
      row 2 40 62 10 60 100 5 ].

(** Capacity zero, a depot with service time -5 and a window that closes
    before it opens. *)
Definition malformed_instance : list (list token) :=
  data_set [Int 25; Int 0] [ row 0 40 50 0 100 50 (-5) ].

(** No customer row at all. *)
Definition empty_instance : list (list token) :=
  data_set [Int 25; Int 200] [].

End ProblemSpec.

(* ===================================================================== *)
(** ** ortools_solver.py: data set conversion and the solver's report      *)
(* ===================================================================== *)

Module SolverRun.
Import OrtoolsSolver.

(** *** solomon_to_json

    A line of the file is the list of its fields after [line.split()],
    as for the other loader; [VrpProblem.int] is [int] on a field. *)

(** The dictionary that is dumped to the [.json] file. *)
Record Dataset : Set := {
  data_vehicles : list Vehicle;      (* 'vehicles' *)
  data_customers : list Customer }.  (* 'customers' *)

(** [int(parts[k])] *)
Definition int_part (parts : list VrpProblem.token) (k : Z) : res Z :=
  p ← getitem parts k; VrpProblem.int p.

(** The [customer] dictionary of one line; the entries are evaluated in
    the order they are written. *)
Definition customer_of_parts (parts : list VrpProblem.token) : res Customer :=
  a0 ← int_part parts 0; a1 ← int_part parts 1; a2 ← int_part parts 2;
  a3 ← int_part parts 3; a4 ← int_part parts 4; a5 ← int_part parts 5;
  a6 ← int_part parts 6;
  Ret {| id := a0; x := a1; y := a2; demand := a3; ready_time := a4;
         due_date := a5; service_time := a6 |}.

(** [vehicle_count, vehicle_capacity = lines[4].split()] *)
Definition split_fleet (fields : list VrpProblem.token)
    : res (VrpProblem.token * VrpProblem.token) :=
  match fields with
  | [vehicle_count; vehicle_capacity] => Ret (vehicle_count, vehicle_capacity)
  | _ => Raise ValueError
  end.

(** Body of [for i in range(int(vehicle_count))]. *)
Definition vehicle_of (vehicle_capacity : VrpProblem.token) (i : nat)
    : res Vehicle :=
  c ← VrpProblem.int vehicle_capacity;
  Ret {| vehicle_id := Z.of_nat i; capacity := c |}.

Definition solomon_to_json (lines : list (list VrpProblem.token))
    : res Dataset :=
  fleet ← getitem lines 4;
  '(vehicle_count, vehicle_capacity) ← split_fleet fleet;
  cs ← mapM customer_of_parts (drop 9 lines);
  n ← VrpProblem.int vehicle_count;
  vs ← mapM (vehicle_of vehicle_capacity) (seq 0 (Z.to_nat n));
  Ret {| data_vehicles := vs; data_customers := cs |}.

(** The Problem that [scenario2] builds from the converted data set;
    [name] is the last component of the data set path. *)
Definition dataset_problem (lines : list (list VrpProblem.token))
    (name : string) : res Problem :=
  data ← solomon_to_json lines;
  Problem_init_default (data_vehicles data) (data_customers data) name.

(** *** vehicle_routing_solver, after the search *)

(** The four calls on the new Solution; the verdict of [feasible] and the
    list returned by [get_routes] are dropped. *)
Definition report (fuel : nat) : M World unit :=
  _ ← feasible fuel;
  print_solution fuel;;
  _ ← get_routes fuel;
  save_to_file fuel.

(** [k] calls of [print_solution] in a row. *)
Fixpoint call_print_solution (fuel k : nat) : M World unit :=
  match k with
  | O => mret tt
  | S k' => print_solution fuel;; call_print_solution fuel k'
  end.

End SolverRun.

(* ===================================================================== *)
(** ** Vocabulary and test data for the report and the conversion          *)
(* ===================================================================== *)

Module RunSpec.
Import OrtoolsSolver SolutionSpec SolverRun.

(** The cost that [evaluate_cost] computes on the routes [ps]. *)
Definition cost_of (pr : Problem) (e : Engine) (ps : list route) : Z :=
  Zsum (cumul_total e <$> ps) + Zsum (service_total pr e <$> ps).

(** The sum of the cumulative times at the ends of the routes. *)
Definition terminal_sum (e : Engine) (ps : list route) : Z :=
  Zsum (terminal_cumul e <$> ps).

(** The first vehicle whose route carries more than the capacity the
    validator compares with, and the first index, in vehicle order and
    visit order, that fails the time-window test. *)
Definition overloaded (pr : Problem) (e : Engine) (r : route) : bool :=
  negb (route_demand pr e r <=? first_capacity pr).

Definition first_overloaded (pr : Problem) (e : Engine) (ps : list route)
    : option nat :=
  fst <$> list_find (fun r => overloaded pr e r = true) ps.

Definition first_late (pr : Problem) (e : Engine) (ps : list route)
    : option Z :=
  snd <$> list_find (fun i => window_ok pr e i = false)
            (mjoin (fst <$> ps)).

(** A record of the time-window stage. *)
Definition time_window_record (m : message) : Prop :=
  match m with
  | TimeWindowCheckStart _ | TimeWindowMet _ | TimeWindowNotMet _
  | TimeWindowsOK _ => True
  | _ => False
  end.

(** A trace of INFO records whose messages all satisfy [P]. *)
Definition info_only (P : message -> Prop) (d : list log_record) : Prop :=
  Forall (fun rec => rec.1 = INFO /\ P rec.2) d.

(** [logs_only m]: whatever its outcome, [m] changes nothing but the log,
    to which it appends. *)
Definition logs_only {A} (m : M World A) : Prop :=
  forall w, exists d, snd (m w) = set_log (fun l => l ++ d) w.

(** All vehicles of the problem have capacity [c]. *)
Definition uniform_fleet (pr : Problem) (c : Z) : Prop :=
  Forall (fun v => capacity v = c) (vehicles pr).

(** A customer record as the other loader holds it. *)
Definition as_loaded (c : Customer) : VrpProblem.Customer :=
  {| VrpProblem.id := id c;
     VrpProblem.coordinates_x := x c;
     VrpProblem.coordinates_y := y c;
     VrpProblem.demand := demand c;
     VrpProblem.ready_time := ready_time c;
     VrpProblem.due_date := due_date c;
     VrpProblem.service_time := service_time c |}.

(** The line of a customer in a data set file. *)
Definition row_of (c : Customer) : list VrpProblem.token :=
  ProblemSpec.row (id c) (x c) (y c) (demand c) (ready_time c) (due_date c)
    (service_time c).

(** The line that [Problem.__init__] turns into the record [c]. *)
Definition loaded_row (c : VrpProblem.Customer) : list VrpProblem.token :=
  ProblemSpec.row (VrpProblem.id c) (VrpProblem.coordinates_x c)
    (VrpProblem.coordinates_y c) (VrpProblem.demand c)
    (VrpProblem.ready_time c) (VrpProblem.due_date c)
    (VrpProblem.service_time c).

(** Coordinates and a service time with which the travel-time arithmetic
    of [Problem.__init__] stays within the floats: the difference of two
    such coordinates is below [pow_limit]. *)
Definition coordinate_bound : Z := 2 ^ 510.

Definition fits_float (c : VrpProblem.Customer) : Prop :=
  Z.abs (VrpProblem.coordinates_x c) < coordinate_bound
  /\ Z.abs (VrpProblem.coordinates_y c) < coordinate_bound
  /\ Z.abs (VrpProblem.service_time c) < VrpProblem.float_limit.

(** A customer row on line 1 of a file of two lines. *)
Definition headless_file : list (list VrpProblem.token) :=
  [ [VrpProblem.Word "C101"]; ProblemSpec.row 0 40 50 0 0 1236 0 ].

(** One vehicle whose only customer index maps to node 7, which the
    three-customer problems do not have. *)
Definition stray_node : Engine :=
  {| model_vehicles := 1;
     Start := fun _ => 0;
     IsEnd := fun i => i =? 2;
     NextValue := fun i => i + 1;
     IndexToNode := fun i => if i =? 1 then 7 else 0;
     CumulMin := fun i => if i =? 1 then 20 else if i =? 2 then 40 else 0;
     ObjectiveValue := 40 |}.

(** One vehicle that goes from its start straight to its end. *)
Definition idle_fleet : Engine :=
  {| model_vehicles := 1;
     Start := fun _ => 0;
     IsEnd := fun i => i =? 3;
     NextValue := fun _ => 3;
     IndexToNode := fun i => if i =? 3 then 0 else i;
     CumulMin := fun _ => 0;
     ObjectiveValue := 0 |}.

End RunSpec.

(* ===================================================================== *)
(** ** vrp_problem.py: the model built by solve_vrptw_cplex                 *)
(* ===================================================================== *)

Module CplexModel.
Import Py SolutionSpec.

(** A value for every variable of the model: [xvars[(i,j,v)]] and
    [service_time[(i,v)]]. *)
Record Assignment : Set := {
  xvars : nat -> nat -> nat -> Z;
  service_time : nat -> nat -> Z }.

(** [problem.customers[i].demand]; [i] is below [no_customers] wherever
    the model uses it. *)
Definition demand_of (problem : VrpProblem.Problem) (i : nat) : Z :=
  from_option VrpProblem.demand 0 (VrpProblem.customers problem !! i).

Section Constraints.
Variable problem : VrpProblem.Problem.
Variable vehicles : Z.   (* problem.vehicles *)
Variable capacity : Z.   (* problem.capacity *)
Variable a : Assignment.

(** [range(problem.no_customers())], [range(problem.vehicles)] and
    [C = range(1, problem.no_customers() - 1)] *)
Definition nodes : list nat := seq 0 (VrpProblem.no_customers problem).
Definition fleet : list nat := seq 0 (Z.to_nat vehicles).
Definition C : list nat := seq 1 (VrpProblem.no_customers problem - 2).

(** The domains given to [binary_var] and [integer_var]. *)
Definition binary : Prop :=
  forall i j v, i ∈ nodes -> j ∈ nodes -> v ∈ fleet ->
    xvars a i j v = 0 \/ xvars a i j v = 1.

Definition within_window : Prop :=
  forall i v c, VrpProblem.customers problem !! i = Some c -> v ∈ fleet ->
    VrpProblem.ready_time c <= service_time a i v <= VrpProblem.due_date c.

(** 1. In each arc only a route should be applied *)
Definition one_arc_out : Prop :=
  forall i, i ∈ C ->
    Zsum (j ← nodes; v ← fleet; [xvars a i j v]) = 1.

(** 2. No customer can loop into itself *)
Definition no_loop : Prop :=
  forall i, i ∈ C -> Zsum (v ← fleet; [xvars a i i v]) = 0.

(** Depot and termination node constraints *)
Definition nothing_into_depot : Prop :=
  Zsum (i ← nodes; v ← fleet; [xvars a i 0%nat v]) = 0.

Definition nothing_out_of_end : Prop :=
  Zsum (j ← nodes; v ← fleet;
        [xvars a (VrpProblem.no_customers problem - 1)%nat j v]) = 0.

(** 3. Capacity constraint *)
Definition within_capacity : Prop :=
  forall v, v ∈ fleet ->
    Zsum (i ← nodes; j ← nodes; [xvars a i j v * demand_of problem i])
    <= capacity.

(** 4. All vehicles must start from depot *)
Definition starts_at_depot : Prop :=
  forall v, v ∈ fleet -> Zsum (j ← nodes; [xvars a 0%nat j v]) = 1.

(** 5. Incoming and Outcoming vertices *)
Definition flow_kept : Prop :=
  forall v cid, v ∈ fleet -> cid ∈ C ->
    Zsum (i ← nodes; [xvars a i cid v]) - Zsum (j ← nodes; [xvars a cid j v])
    = 0.

(** 6. Every vehicle should visit the arrival node *)
Definition ends_at_arrival : Prop :=
  forall v, v ∈ fleet ->
    Zsum (i ← nodes;
          [xvars a i (VrpProblem.no_customers problem - 1)%nat v]) = 1.

(** 7. Time window constraint *)
Definition time_kept : Prop :=
  forall i j v, i ∈ nodes -> j ∈ nodes -> v ∈ fleet ->
    match VrpProblem.travelTime problem i j with
    | Some t =>
        (IZR (xvars a i j v)
         * (IZR (service_time a i v) + t - IZR (service_time a j v)) <= 0)%R
    | None => False
    end.

(** All that is added to the model. *)
Record constraints : Prop := {
  sat_binary : binary;
  sat_within_window : within_window;
  sat_one_arc_out : one_arc_out;
  sat_no_loop : no_loop;
  sat_nothing_into_depot : nothing_into_depot;
  sat_nothing_out_of_end : nothing_out_of_end;
  sat_within_capacity : within_capacity;
  sat_starts_at_depot : starts_at_depot;
  sat_flow_kept : flow_kept;
  sat_ends_at_arrival : ends_at_arrival;
  sat_time_kept : time_kept }.

End Constraints.

(** [list(product(range(n), range(n), range(vehicles)))] *)
Definition product (n vehicles : nat) : list (nat * nat * nat) :=
  i ← seq 0 n; j ← seq 0 n; v ← seq 0 vehicles; [(i, j, v)].

(** The dictionary [solution] as the loop leaves it, before the [return]:
    [solved] tells whether [model.solve] returned a solution, [is_one i j v]
    whether [model.solution.get_value(xvars[(i,j,v)]) == 1]; [record_arc]
    is the body of the loop. *)
Definition record_arc (is_one : nat -> nat -> nat -> bool)
    (solution : gmap (nat * nat) nat) (arc : nat * nat * nat)
    : gmap (nat * nat) nat :=
  let '(i, j, v) := arc in
  if is_one i j v then <[(i, j) := v]> solution else solution.

Definition extract_solution (solved : bool) (n vehicles : nat)
    (is_one : nat -> nat -> nat -> bool) : gmap (nat * nat) nat :=
  if solved
  then foldl (record_arc is_one) ∅ (product n vehicles)
  else ∅.

(** [return solution, model.objective_value]: reading the objective value
    of a model that was not solved raises the library's exception, so the
    empty dictionary of that case is never returned. The objective value
    is passed on as it is. *)
Definition solve_vrptw_cplex_return {Obj : Type} (solved : bool)
    (n vehicles : nat) (is_one : nat -> nat -> nat -> bool)
    (objective_value : Obj) : res (gmap (nat * nat) nat * Obj) :=
  let solution := extract_solution solved n vehicles is_one in
  if solved then Ret (solution, objective_value)
  else Raise DOcplexException.

(** The dictionary returned for a solution with the values of [a]. *)
Definition solution_of (n vehicles : nat) (a : Assignment)
    : gmap (nat * nat) nat :=
  extract_solution true n vehicles
    (fun i j v => bool_decide (xvars a i j v = 1)).

(** The last vehicle below [vehicles] that [f] holds of, and an entry
    that is overwritten by it. *)
Fixpoint last_vehicle (f : nat -> bool) (vehicles : nat) : option nat :=
  match vehicles with
  | O => None
  | S v => if f v then Some v else last_vehicle f v
  end.

Definition overwritten (new old : option nat) : option nat :=
  match new with
  | Some v => Some v
  | None => old
  end.

(** Depot, one customer and the end copy of the depot, and the route of
    one vehicle through them. *)
Definition one_customer : list (list VrpProblem.token) :=
  ProblemSpec.data_set [VrpProblem.Int 1; VrpProblem.Int 200]
    [ ProblemSpec.row 0 40 50 0 0 1236 0;
      ProblemSpec.row 1 43 54 10 10 50 5 ].

Definition one_customer_problem : VrpProblem.Problem :=
  let depot := {| VrpProblem.id := 0; VrpProblem.coordinates_x := 40;
                  VrpProblem.coordinates_y := 50; VrpProblem.demand := 0;
                  VrpProblem.ready_time := 0; VrpProblem.due_date := 1236;
                  VrpProblem.service_time := 0 |} in
  let customer := {| VrpProblem.id := 1; VrpProblem.coordinates_x := 43;
                     VrpProblem.coordinates_y := 54; VrpProblem.demand := 10;
                     VrpProblem.ready_time := 10; VrpProblem.due_date := 50;
                     VrpProblem.service_time := 5 |} in
  {| VrpProblem.customers := [depot; customer; depot];
     VrpProblem.vehicles := Some 1;
     VrpProblem.capacity := Some 200;
     VrpProblem.depot := depot;
     VrpProblem.travel_time :=
       VrpProblem.travel_time_table [depot; customer; depot] |}.

Definition there_and_back : Assignment :=
  {| xvars := fun i j v =>
       match i, j, v with
       | 0%nat, 1%nat, 0%nat => 1
       | 1%nat, 2%nat, 0%nat => 1
       | _, _, _ => 0
       end;
     service_time := fun i v =>
       match i with
       | 0%nat => 0
       | 1%nat => 10
       | _ => 20
       end |}.

End CplexModel.

(* ===================================================================== *)
(** ** Properties of the runtime fragment                                  *)
(* ===================================================================== *)

Module PyProps.

Example getitem_first : getitem [10; 20; 30] 0 = Ret 10.
Proof. reflexivity. Qed.
Example getitem_negative : getitem [10; 20; 30] (-1) = Ret 30.
Proof. reflexivity. Qed.
Example getitem_out_of_range : getitem [10; 20; 30] 3 = Raise IndexError.
Proof. reflexivity. Qed.
Example getitem_below_range : getitem [10; 20; 30] (-4) = Raise IndexError.
Proof. reflexivity. Qed.
Example replace_suffix : replace "C101.txt" ".txt" ".json" = "C101.json"%string.
Proof. reflexivity. Qed.

Lemma getitem_0 {A} (a : A) (l : list A) : getitem (a :: l) 0 = Ret a.
Proof.
  unfold getitem. simpl length.
  destruct (Z.leb_spec (Z.of_nat (S (length l))) 0); [lia|done].
Qed.

Lemma bind_Ret {A B} (m : res A) (k : A -> res B) (b : B) :
  m ≫= k = Ret b -> exists a, m = Ret a /\ k a = Ret b.
Proof. destruct m as [a|x|]; [|done..]. intros H. by exists a. Qed.

End PyProps.

(* ===================================================================== *)
(** ** Properties of the Solution class                                    *)
(* ===================================================================== *)

Module SolutionProps.
Import OrtoolsSolver SolutionSpec PyProps.

(** *** Running monadic code *)

Lemma run_bind {S A B} (m : M S A) (k : A -> M S B) (s : S) :
  (m ≫= k) s =
  match m s with
  | (Ret a, s') => k a s'
  | (Raise e, s') => (Raise e, s')
  | (OutOfFuel, s') => (OutOfFuel, s')
  end.
Proof. reflexivity. Qed.

Lemma run_ret {S A} (a : A) (s : S) : (mret a : M S A) s = (Ret a, s).
Proof. reflexivity. Qed.

Lemma apply_no_effect w : apply_effect no_effect w = w.
Proof.
  destruct w. unfold apply_effect, set_log. simpl. by rewrite app_nil_r.
Qed.

Lemma apply_then_effect e1 e2 w :
  apply_effect e2 (apply_effect e1 w) = apply_effect (then_effect e1 e2) w.
Proof.
  destruct w as [s h l fs], e1 as [d1 [c1|]], e2 as [d2 [c2|]];
    unfold apply_effect, set_log, set_self; simpl;
    by rewrite app_assoc.
Qed.

Lemma apply_effect_problem eff w :
  problem (self (apply_effect eff w)) = problem (self w).
Proof. by destruct eff as [d [c|]]. Qed.

Lemma apply_effect_engine eff w :
  engine (self (apply_effect eff w)) = engine (self w).
Proof. by destruct eff as [d [c|]]. Qed.

Lemma reads_only_ret {A} (a : A) : reads_only (mret a).
Proof. intros pr e. by exists (Ret a). Qed.

Lemma reads_only_lift {A} (r : res A) : reads_only (lift r).
Proof. intros pr e. by exists r. Qed.

Lemma reads_only_out_of_fuel {A} : reads_only (@out_of_fuel World A).
Proof. intros pr e. by exists OutOfFuel. Qed.

Lemma reads_only_self_problem : reads_only self_problem.
Proof. intros pr e. exists (Ret pr). by intros w <- _. Qed.

Lemma reads_only_self_engine : reads_only self_engine.
Proof. intros pr e. exists (Ret e). by intros w _ <-. Qed.

Lemma reads_only_bind {A B} (m : M World A) (k : A -> M World B) :
  reads_only m -> (forall a, reads_only (k a)) -> reads_only (m ≫= k).
Proof.
  intros Hm Hk pr e. destruct (Hm pr e) as [[a|x|] Hr].
  - destruct (Hk a pr e) as [r' Hr']. exists r'. intros w Hp He.
    rewrite run_bind, (Hr w Hp He). by apply Hr'.
  - exists (Raise x). intros w Hp He. by rewrite run_bind, (Hr w Hp He).
  - exists OutOfFuel. intros w Hp He. by rewrite run_bind, (Hr w Hp He).
Qed.

Lemma reads_only_customer_at node : reads_only (customer_at node).
Proof.
  apply reads_only_bind; [apply reads_only_self_problem|].
  intros p. apply reads_only_lift.
Qed.

Lemma reads_only_for_fold {A B} (l : list A) (body : B -> A -> M World B) :
  (forall acc a, reads_only (body acc a)) ->
  forall acc, reads_only (for_fold l body acc).
Proof.
  intros Hbody. induction l as [|a l IH]; intros acc; simpl.
  - apply reads_only_ret.
  - apply reads_only_bind; [apply Hbody | apply IH].
Qed.

Lemma logs_and_caches_reads_only {A} (m : M World A) :
  reads_only m -> logs_and_caches m.
Proof.
  intros Hm pr e. destruct (Hm pr e) as [r Hr]. exists r, no_effect.
  intros w Hp He. by rewrite apply_no_effect, (Hr w Hp He).
Qed.

Lemma logs_and_caches_bind {A B} (m : M World A) (k : A -> M World B) :
  logs_and_caches m -> (forall a, logs_and_caches (k a)) ->
  logs_and_caches (m ≫= k).
Proof.
  intros Hm Hk pr e. destruct (Hm pr e) as ([a|x|] & eff & Hr).
  - destruct (Hk a pr e) as (r' & eff' & Hr').
    exists r', (then_effect eff eff'). intros w Hp He.
    rewrite run_bind, (Hr w Hp He), <- apply_then_effect.
    apply Hr'; by rewrite ?apply_effect_problem, ?apply_effect_engine.
  - exists (Raise x), eff. intros w Hp He.
    by rewrite run_bind, (Hr w Hp He).
  - exists OutOfFuel, eff. intros w Hp He.
    by rewrite run_bind, (Hr w Hp He).
Qed.

Lemma logs_and_caches_logging lv msg : logs_and_caches (logging lv msg).
Proof.
  intros pr e. exists (Ret tt), {| emitted := [(lv, msg)]; cost_written := None |}.
  by intros w _ _.
Qed.

Lemma logs_and_caches_cost_write c :
  logs_and_caches (modify (set_self (with_total_driving_service_time c))).
Proof.
  intros pr e. exists (Ret tt), {| emitted := []; cost_written := Some c |}.
  intros [s h l fs] _ _. unfold apply_effect, set_log, modify. simpl.
  by rewrite app_nil_r.
Qed.

Lemma logs_and_caches_for_each {A R} (l : list A)
    (body : A -> M World (option R)) :
  (forall a, logs_and_caches (body a)) -> logs_and_caches (for_each l body).
Proof.
  intros Hbody. induction l as [|a l IH]; simpl.
  - apply logs_and_caches_reads_only, reads_only_ret.
  - apply logs_and_caches_bind; [apply Hbody|].
    intros [v|]; [apply logs_and_caches_reads_only, reads_only_ret | apply IH].
Qed.

(** *** Reads and writes of the methods *)

Create HintDb effects.
#[local] Hint Resolve reads_only_ret reads_only_lift reads_only_out_of_fuel
  reads_only_self_problem reads_only_self_engine reads_only_customer_at
  logs_and_caches_logging logs_and_caches_cost_write : effects.

Ltac effects_step :=
  first
    [ solve [eauto with effects]
    | apply reads_only_bind; [|intros ?]
    | apply logs_and_caches_bind; [|intros ?]
    | apply reads_only_for_fold; intros ? ?
    | apply logs_and_caches_for_each; intros ?
    | match goal with |- context [let '(_, _) := ?p in _] =>
        destruct p end
    | match goal with |- context [match ?o with Some _ => _ | None => _ end] =>
        destruct o end
    | match goal with |- context [if ?b then _ else _] => destruct b end
    | solve [apply logs_and_caches_reads_only; eauto with effects] ].

Lemma capacity_walk_reads_only fuel e index acc :
  reads_only (capacity_walk fuel e index acc).
Proof.
  revert index acc. induction fuel as [|fuel IH]; intros index acc; simpl;
    repeat effects_step.
Qed.

Lemma evaluate_cost_walk_reads_only fuel e index d s :
  reads_only (evaluate_cost_walk fuel e index d s).
Proof.
  revert index d s. induction fuel as [|fuel IH]; intros index d s; simpl;
    repeat effects_step.
Qed.

Lemma time_window_walk_logs fuel e dp index :
  logs_and_caches (time_window_walk fuel e dp index).
Proof.
  revert index. induction fuel as [|fuel IH]; intros index; simpl;
    repeat effects_step.
Qed.

#[local] Hint Resolve capacity_walk_reads_only evaluate_cost_walk_reads_only
  time_window_walk_logs : effects.

Lemma evaluate_cost_body_reads_only fuel e totals v :
  reads_only (evaluate_cost_body fuel e totals v).
Proof. unfold evaluate_cost_body. repeat effects_step. Qed.

Lemma evaluate_cost_totals_reads_only fuel e n :
  reads_only (for_fold (seq 0 n) (evaluate_cost_body fuel e) (0, 0)).
Proof. apply reads_only_for_fold. apply evaluate_cost_body_reads_only. Qed.

Lemma evaluate_cost_unfold fuel w :
  evaluate_cost fuel w =
  match for_fold (seq 0 (length (vehicles (problem (self w)))))
          (evaluate_cost_body fuel (engine (self w))) (0, 0) w with
  | (Ret (d, s), w') =>
      (Ret (d + s), set_self (with_total_driving_service_time (d + s)) w')
  | (Raise x, w') => (Raise x, w')
  | (OutOfFuel, w') => (OutOfFuel, w')
  end.
Proof.
  unfold evaluate_cost, self_engine, self_problem, gets.
  rewrite !run_bind.
  by destruct (for_fold _ _ _ w) as [[[d s]|x|] w'].
Qed.

(** [evaluate_cost] either returns a cost, having stored it in
    [self.total_driving_service_time] and changed nothing else, or fails
    and changes nothing; which of the two, and the cost, depend on the
    problem and the engine only. *)
Lemma evaluate_cost_shape fuel pr e :
  exists r, forall w,
    problem (self w) = pr -> engine (self w) = e ->
    evaluate_cost fuel w =
      (r, match r with
          | Ret c => set_self (with_total_driving_service_time c) w
          | _ => w
          end).
Proof.
  destruct (evaluate_cost_totals_reads_only fuel e
              (length (vehicles pr)) pr e) as [r Hr].
  exists (match r with
          | Ret (d, s) => Ret (d + s)
          | Raise x => Raise x
          | OutOfFuel => OutOfFuel
          end).
  intros w Hp He. rewrite evaluate_cost_unfold, Hp, He, (Hr w Hp He).
  by destruct r as [[d s]|x|].
Qed.

Lemma evaluate_cost_logs_and_caches fuel :
  logs_and_caches (evaluate_cost fuel).
Proof.
  intros pr e. destruct (evaluate_cost_shape fuel pr e) as [r Hr].
  exists r.
  exists (match r with
          | Ret c => {| emitted := []; cost_written := Some c |}
          | _ => no_effect
          end).
  intros w Hp He. rewrite (Hr w Hp He). f_equal.
  destruct r; rewrite ?apply_no_effect; [|done..].
  destruct w. unfold apply_effect, set_log. simpl. by rewrite app_nil_r.
Qed.

#[local] Hint Resolve evaluate_cost_logs_and_caches : effects.

Lemma capacity_checks_logs fuel : logs_and_caches (capacity_checks fuel).
Proof.
  unfold capacity_checks, capacity_check_body, logging_info, logging_warning.
  repeat effects_step.
Qed.

Lemma time_window_checks_logs fuel :
  logs_and_caches (time_window_checks fuel).
Proof.
  unfold time_window_checks, time_window_check_body, logging_info.
  repeat effects_step.
Qed.

#[local] Hint Resolve capacity_checks_logs time_window_checks_logs : effects.

Lemma feasible_logs_and_caches fuel : logs_and_caches (feasible fuel).
Proof. unfold feasible, logging_info. repeat effects_step. Qed.

(** *** Routes *)

Lemma walk_step fuel e index r :
  walk (S fuel) e index = Some r ->
  (IsEnd e index = true /\ r = ([], index))
  \/ (IsEnd e index = false /\
      exists l z, walk fuel e (NextValue e index) = Some (l, z)
                  /\ r = (index :: l, z)).
Proof.
  simpl. destruct (IsEnd e index); [left; by simplify_eq|right].
  split; [done|].
  destruct (walk fuel e (NextValue e index)) as [[l z]|]; [|done].
  exists l, z. by simplify_eq/=.
Qed.

Lemma walk_head fuel e index r :
  walk fuel e index = Some r -> head (indices r) = Some index.
Proof.
  destruct fuel as [|fuel]; [done|]. intros H.
  apply walk_step in H as [[_ ->]|(_ & l & z & _ & ->)]; done.
Qed.

Lemma walk_end fuel e index r :
  walk fuel e index = Some r -> IsEnd e r.2 = true.
Proof.
  revert index r. induction fuel as [|fuel IH]; intros index r H; [done|].
  apply walk_step in H as [[? ->]|(_ & l & z & H & ->)]; [done|].
  by apply IH in H.
Qed.

(** More fuel does not change a route that was found. *)
Lemma walk_mono fuel fuel' e index r :
  walk fuel e index = Some r -> (fuel <= fuel')%nat ->
  walk fuel' e index = Some r.
Proof.
  revert fuel' index r.
  induction fuel as [|fuel IH]; intros fuel' index r H Hle; [done|].
  destruct fuel' as [|fuel']; [lia|].
  apply walk_step in H as [[Hend ->]|(Hend & l & z & H & ->)]; simpl;
    rewrite Hend; [done|].
  rewrite (IH fuel' _ _ H); [done|lia].
Qed.

Lemma routes_upto_mono fuel fuel' e n ps :
  routes_upto fuel e n = Some ps -> (fuel <= fuel')%nat ->
  routes_upto fuel' e n = Some ps.
Proof.
  unfold routes_upto. rewrite !mapM_Some. intros H Hle.
  eapply Forall2_impl; [exact H|]. intros v r Hr. simpl in *.
  by apply (walk_mono fuel).
Qed.

(** The contract does not depend on the fuel once it is enough. *)
Lemma engine_contract_mono fuel fuel' pr e ps :
  engine_contract fuel pr e ps -> (fuel <= fuel')%nat ->
  engine_contract fuel' pr e ps.
Proof.
  intros [Hn Hps Hstart Hnodes Hdepot] Hle. constructor; try done.
  by apply (routes_upto_mono fuel).
Qed.

Lemma routes_upto_length fuel e n ps :
  routes_upto fuel e n = Some ps -> length ps = n.
Proof.
  unfold routes_upto. rewrite mapM_Some. intros H.
  apply Forall2_length in H. by rewrite length_seq in H.
Qed.

Lemma Zsum_app l1 l2 : Zsum (l1 ++ l2) = Zsum l1 + Zsum l2.
Proof. induction l1 as [|a l1 IH]; simpl; lia. Qed.

Lemma getitem_valid (pr : Problem) node :
  valid_node pr node -> exists c, getitem (customers pr) node = Ret c.
Proof.
  unfold valid_node, getitem. intros [H0 Hn].
  destruct (Z.ltb_spec node 0); [lia|].
  destruct (Z.ltb_spec node 0); [lia|].
  destruct (Z.leb_spec (Z.of_nat (length (customers pr))) node); [lia|].
  simpl. destruct (customers pr !! Z.to_nat node) as [c|] eqn:E; [by exists c|].
  apply lookup_ge_None in E. lia.
Qed.

(** *** The inner loops on a route *)

Lemma get_routes_walk_run fuel e index r acc w :
  walk fuel e index = Some r ->
  get_routes_walk fuel e index acc w
  = (Ret (acc ++ (IndexToNode e <$> tail (indices r))), w).
Proof.
  revert index r acc. induction fuel as [|fuel IH]; intros index r acc H; [done|].
  apply walk_step in H as [[Hend ->]|(Hend & l & z & H & ->)]; simpl;
    rewrite Hend.
  - by rewrite app_nil_r.
  - rewrite (IH _ _ _ H). pose proof (walk_head _ _ _ _ H) as Hh.
    unfold indices in *. simpl in *.
    destruct (l ++ [z]) as [|j t]; simplify_eq/=.
    by rewrite <- app_assoc.
Qed.

Lemma customer_at_run (pr : Problem) node w :
  problem (self w) = pr ->
  customer_at node w = (getitem (customers pr) node, w).
Proof. by intros <-. Qed.

Lemma capacity_walk_run fuel e index r acc w :
  walk fuel e index = Some r ->
  Forall (fun i => valid_node (problem (self w)) (IndexToNode e i)) r.1 ->
  capacity_walk fuel e index acc w
  = (Ret (acc + route_demand (problem (self w)) e r), w).
Proof.
  revert index r acc. induction fuel as [|fuel IH]; intros index r acc H Hv; [done|].
  apply walk_step in H as [[Hend ->]|(Hend & l & z & H & ->)]; simpl;
    rewrite Hend.
  - unfold route_demand. simpl. by rewrite Z.add_0_r.
  - simpl in Hv. apply Forall_cons in Hv as [Hi Hv].
    rewrite run_bind, (customer_at_run (problem (self w))) by done.
    destruct (getitem_valid _ _ Hi) as [c Hc]. rewrite Hc.
    rewrite (IH _ _ _ H Hv). unfold route_demand. simpl.
    unfold demand_at. rewrite Hc. do 2 f_equal. apply eq_sym, Z.add_assoc.
Qed.

Lemma evaluate_cost_walk_run fuel e index r d s w :
  walk fuel e index = Some r ->
  Forall (fun i => valid_node (problem (self w)) (IndexToNode e i))
    (tail (indices r)) ->
  evaluate_cost_walk fuel e index d s w
  = (Ret (r.2, d + Zsum (CumulMin e <$> r.1),
          s + service_total (problem (self w)) e r), w).
Proof.
  revert index r d s. induction fuel as [|fuel IH]; intros index r d s H Hv; [done|].
  apply walk_step in H as [[Hend ->]|(Hend & l & z & H & ->)]; simpl;
    rewrite Hend.
  - unfold service_total. simpl. by rewrite !Z.add_0_r.
  - pose proof (walk_head _ _ _ _ H) as Hh.
    unfold service_total, indices in *. simpl in *.
    destruct (l ++ [z]) as [|j t] eqn:E; simplify_eq/=.
    apply Forall_cons in Hv as [Hi Hv].
    rewrite run_bind, (customer_at_run (problem (self w))) by done.
    unfold service_at at 1.
    destruct (getitem_valid _ _ Hi) as [c ->].
    rewrite (IH _ _ _ _ H); simpl; rewrite E; simpl.
    + by rewrite !Z.add_assoc.
    + done.
Qed.

(** *** The cost evaluator on the routes of the engine *)

Lemma cumul_total_split e (r : route) :
  cumul_total e r = Zsum (CumulMin e <$> r.1) + CumulMin e r.2.
Proof.
  unfold cumul_total, indices. rewrite fmap_app, Zsum_app. simpl. lia.
Qed.

Lemma cumul_total_sum e (ps : list route) :
  Zsum (cumul_total e <$> ps)
  = Zsum (terminal_cumul e <$> ps)
    + Zsum ((fun r => Zsum (CumulMin e <$> r.1)) <$> ps).
Proof.
  induction ps as [|r ps IH]; [done|].
  rewrite !fmap_cons. simpl. rewrite IH, cumul_total_split.
  unfold terminal_cumul. lia.
Qed.

Lemma evaluate_cost_fold_run fuel e vs ps d s w :
  Forall2 (fun v r => walk fuel e (Start e v) = Some r) vs ps ->
  Forall (fun r => Forall (fun i => valid_node (problem (self w))
                                      (IndexToNode e i))
                     (tail (indices r))) ps ->
  for_fold vs (evaluate_cost_body fuel e) (d, s) w
  = (Ret (d + Zsum (cumul_total e <$> ps),
          s + Zsum (service_total (problem (self w)) e <$> ps)), w).
Proof.
  intros Hw. revert d s.
  induction Hw as [|v r vs ps Hr Hw IH]; intros d s Hv; simpl.
  - by rewrite !Z.add_0_r.
  - apply Forall_cons in Hv as [Hv1 Hv].
    rewrite run_bind. unfold evaluate_cost_body at 1.
    rewrite run_bind, (evaluate_cost_walk_run _ _ _ _ _ _ _ Hr Hv1).
    rewrite run_ret, (IH _ _ Hv), cumul_total_split.
    by rewrite !Z.add_assoc.
Qed.

Lemma evaluate_cost_run fuel w ps :
  routes_upto fuel (engine (self w))
    (length (vehicles (problem (self w)))) = Some ps ->
  Forall (fun r => Forall (fun i => valid_node (problem (self w))
                                      (IndexToNode (engine (self w)) i))
                     (tail (indices r))) ps ->
  let c := Zsum (cumul_total (engine (self w)) <$> ps)
           + Zsum (service_total (problem (self w)) (engine (self w)) <$> ps) in
  evaluate_cost fuel w
  = (Ret c, set_self (with_total_driving_service_time c) w).
Proof.
  intros Hps Hv c. apply mapM_Some in Hps.
  by rewrite evaluate_cost_unfold, (evaluate_cost_fold_run _ _ _ _ _ _ _ Hps Hv).
Qed.

(** *** The validator on the routes of the engine *)

Lemma set_log_set_log d1 d2 w :
  set_log (fun l => l ++ d2) (set_log (fun l => l ++ d1) w)
  = set_log (fun l => l ++ (d1 ++ d2)) w.
Proof. destruct w. unfold set_log. simpl. by rewrite app_assoc. Qed.

Lemma logging_run lv msg w :
  logging lv msg w = (Ret tt, set_log (fun l => l ++ [(lv, msg)]) w).
Proof. reflexivity. Qed.

Lemma ends_with_warning_app d1 d2 :
  ends_with_warning d2 -> ends_with_warning (d1 ++ d2).
Proof.
  intros (d0 & msg & ->). exists (d1 ++ d0), msg. by rewrite app_assoc.
Qed.

Lemma time_window_walk_run fuel e index r w :
  walk fuel e index = Some r ->
  Forall (fun i => valid_node (problem (self w)) (IndexToNode e i)) r.1 ->
  exists d,
    time_window_walk fuel e (depot (problem (self w))) index w
    = (Ret (if forallb (window_ok (problem (self w)) e) r.1
            then None else Some false),
       set_log (fun l => l ++ d) w)
    /\ (forallb (window_ok (problem (self w)) e) r.1 = false ->
        ends_with_warning d).
Proof.
  revert index r w.
  induction fuel as [|fuel IH]; intros index r w H Hv; [done|].
  apply walk_step in H as [[Hend ->]|(Hend & l & z & H & ->)]; simpl;
    rewrite Hend.
  - exists []. split; [|done]. destruct w. unfold set_log. simpl.
    by rewrite app_nil_r.
  - simpl in Hv. apply Forall_cons in Hv as [Hi Hv].
    unfold window_ok at 1 3.
    destruct (IndexToNode e index =? depot (problem (self w))); simpl.
    { destruct (IH _ _ w H Hv) as (d & Hrun & Hwarn). exists d.
      by rewrite Hrun. }
    rewrite run_bind, (customer_at_run (problem (self w))) by done.
    unfold in_window.
    destruct (getitem_valid _ _ Hi) as [c ->].
    destruct ((ready_time c <=? CumulMin e index)
              && (CumulMin e index <=? due_date c)); simpl.
    + unfold logging_info. rewrite run_bind, logging_run.
      destruct (IH _ _ (set_log (fun l => l ++
                  [(INFO, TimeWindowMet (IndexToNode e index))]) w) H Hv)
        as (d & Hrun & Hwarn).
      exists ((INFO, TimeWindowMet (IndexToNode e index)) :: d).
      split.
      * simpl in Hrun. rewrite Hrun. by rewrite set_log_set_log.
      * intros Hf. by apply (ends_with_warning_app [_]), Hwarn.
    + unfold logging_warning. rewrite run_bind, logging_run, run_ret.
      eexists. split; [reflexivity|]. intros _.
      by exists [], (TimeWindowNotMet (IndexToNode e (index - 1))).
Qed.

Lemma set_log_nil w : set_log (fun l => l ++ []) w = w.
Proof. destruct w. unfold set_log. simpl. by rewrite app_nil_r. Qed.

Lemma capacity_checks_fold_run fuel e vs ps w :
  Forall2 (fun v r => walk fuel e (Start e v) = Some r) vs ps ->
  Forall (fun r => Forall (fun i => valid_node (problem (self w))
                                      (IndexToNode e i)) r.1) ps ->
  (vs <> [] -> vehicles (problem (self w)) <> []) ->
  exists d,
    for_each vs (capacity_check_body fuel e) w
    = (Ret (if capacity_ok (problem (self w)) e ps then None else Some false),
       set_log (fun l => l ++ d) w)
    /\ (capacity_ok (problem (self w)) e ps = false -> ends_with_warning d).
Proof.
  intros Hw. revert w.
  induction Hw as [|v r vs ps Hr Hw IH]; intros w Hv Hne; simpl.
  - exists []. by rewrite set_log_nil.
  - apply Forall_cons in Hv as [Hv1 Hv].
    destruct (vehicles (problem (self w))) as [|v0 vehs] eqn:Hvehs;
      [by destruct Hne|].
    rewrite run_bind. unfold capacity_check_body at 1, logging_info.
    rewrite run_bind, logging_run, run_bind.
    rewrite (capacity_walk_run _ _ _ r) by done.
    simpl problem. rewrite run_bind. unfold self_problem at 1, gets, lift.
    rewrite run_bind. simpl problem. rewrite Hvehs, getitem_0.
    assert (first_capacity (problem (self w)) = capacity v0) as Hfc
      by (unfold first_capacity; by rewrite Hvehs).
    rewrite !Hfc, Z.add_0_l.
    destruct (route_demand (problem (self w)) e r <=? capacity v0); simpl.
    + match goal with |- context [for_each vs _ ?w'] =>
        destruct (IH w') as (d & Hrun & Hwarn); [done|intros _; simpl; by rewrite Hvehs|]
      end.
      simpl in Hrun. rewrite Hrun, !set_log_set_log.
      eexists. split; [reflexivity|]. intros Hf.
      apply ends_with_warning_app, ends_with_warning_app, Hwarn, Hf.
    + rewrite run_ret, set_log_set_log. eexists. split; [reflexivity|]. intros _.
      by exists [(INFO, CapacityCheckStart v)], (CapacityNotOK v).
Qed.

Lemma time_window_checks_fold_run fuel e vs ps w :
  Forall2 (fun v r => walk fuel e (Start e v) = Some r) vs ps ->
  Forall (fun r => Forall (fun i => valid_node (problem (self w))
                                      (IndexToNode e i)) r.1) ps ->
  exists d,
    for_each vs (time_window_check_body fuel e (problem (self w))) w
    = (Ret (if windows_ok (problem (self w)) e ps then None else Some false),
       set_log (fun l => l ++ d) w)
    /\ (windows_ok (problem (self w)) e ps = false -> ends_with_warning d).
Proof.
  intros Hw. revert w.
  induction Hw as [|v r vs ps Hr Hw IH]; intros w Hv; simpl.
  - exists []. by rewrite set_log_nil.
  - apply Forall_cons in Hv as [Hv1 Hv].
    rewrite run_bind. unfold time_window_check_body at 1, logging_info.
    rewrite run_bind, logging_run, run_bind.
    match goal with |- context [time_window_walk _ _ _ _ ?w'] =>
      destruct (time_window_walk_run fuel e (Start e v) r w' Hr Hv1)
        as (d1 & Hrun1 & Hwarn1)
    end.
    simpl in Hrun1, Hwarn1. rewrite Hrun1, set_log_set_log.
    destruct (forallb (window_ok (problem (self w)) e) r.1); simpl.
    + rewrite set_log_set_log.
      match goal with |- context [for_each vs _ ?w'] =>
        destruct (IH w' Hv) as (d & Hrun & Hwarn)
      end.
      eexists. split.
      * etrans; [exact Hrun|]. simpl. by rewrite set_log_set_log.
      * intros Hf. apply ends_with_warning_app, Hwarn, Hf.
    + rewrite run_ret. eexists. split; [reflexivity|]. intros _.
      by apply (ends_with_warning_app [_]), Hwarn1.
Qed.

Lemma Forall_tail_of {A} (P : A -> Prop) (l : list A) :
  Forall P l -> Forall P (tail l).
Proof. destruct 1; [constructor|done]. Qed.

Lemma Forall_indices_inner (P : Z -> Prop) (r : route) :
  Forall P (indices r) -> Forall P r.1.
Proof. unfold indices. rewrite Forall_app. by intros [? _]. Qed.

(** Under the engine contract the validator returns, and its verdict is
    the conjunction of the two tests; a negative verdict is the last thing
    it logs. *)
Lemma feasible_run fuel w ps :
  engine_contract fuel (problem (self w)) (engine (self w)) ps ->
  exists d w',
    feasible fuel w
    = (Ret (capacity_ok (problem (self w)) (engine (self w)) ps
            && windows_ok (problem (self w)) (engine (self w)) ps), w')
    /\ log w' = log w ++ d
    /\ (capacity_ok (problem (self w)) (engine (self w)) ps
        && windows_ok (problem (self w)) (engine (self w)) ps = false ->
        ends_with_warning d).
Proof.
  intros [Hn Hps Hstart Hnodes Hdepot].
  pose proof Hps as Hps'. apply mapM_Some in Hps'.
  assert (Hinner : Forall (fun r => Forall (fun i =>
            valid_node (problem (self w)) (IndexToNode (engine (self w)) i))
            r.1) ps).
  { eapply Forall_impl; [exact Hnodes|]. intros r. apply Forall_indices_inner. }
  unfold feasible, logging_info.
  rewrite run_bind. unfold self_problem at 1, gets.
  rewrite run_bind, logging_run, run_bind.
  unfold capacity_checks. rewrite run_bind. unfold self_engine at 1, gets.
  simpl engine.
  match goal with |- context [for_each _ _ ?w'] =>
    destruct (capacity_checks_fold_run fuel (engine (self w)) _ ps w' Hps' Hinner)
      as (d1 & Hrun1 & Hwarn1)
  end.
  { simpl. rewrite Hn. destruct (vehicles (problem (self w))); done. }
  simpl in Hrun1, Hwarn1. rewrite Hrun1, set_log_set_log.
  destruct (capacity_ok (problem (self w)) (engine (self w)) ps); simpl.
  2:{ eexists _, _. split; [reflexivity|]. split; [reflexivity|].
      intros _. by apply (ends_with_warning_app [_]), Hwarn1. }
  rewrite run_bind. unfold time_window_checks.
  rewrite run_bind. unfold self_engine at 1, gets. simpl engine.
  rewrite run_bind. unfold self_problem at 1, gets. simpl problem.
  rewrite <- Hn.
  match goal with |- context [for_each _ _ ?w'] =>
    destruct (time_window_checks_fold_run fuel (engine (self w)) _ ps w'
                Hps' Hinner) as (d2 & Hrun2 & Hwarn2)
  end.
  simpl in Hrun2, Hwarn2. rewrite Hrun2, set_log_set_log.
  destruct (windows_ok (problem (self w)) (engine (self w)) ps); simpl.
  2:{ eexists _, _. split; [reflexivity|]. split; [reflexivity|].
      intros _. by apply (ends_with_warning_app (_ :: _)), Hwarn2. }
  rewrite run_bind.
  match goal with |- context [evaluate_cost fuel ?w'] =>
    rewrite (evaluate_cost_run fuel w' ps)
  end.
  - rewrite run_bind, logging_run, run_bind, logging_run, run_ret.
    eexists _, _. split; [reflexivity|].
    split; [simpl; rewrite <- !app_assoc; reflexivity|done].
  - simpl. by rewrite <- Hn.
  - simpl. eapply Forall_impl; [exact Hnodes|]. intros r. apply Forall_tail_of.
Qed.

(** *** The route extractor on the routes of the engine *)

Lemma route_nodes_start fuel e index r :
  walk fuel e index = Some r ->
  route_nodes e r = IndexToNode e index :: (IndexToNode e <$> tail (indices r)).
Proof.
  intros H. apply walk_head in H. unfold route_nodes.
  by destruct (indices r); simplify_eq/=.
Qed.

Lemma set_heap_set_heap f g w :
  set_heap g (set_heap f w) = set_heap (fun h => g (f h)) w.
Proof. by destruct w. Qed.

Lemma get_routes_body_run fuel e v r old w :
  walk fuel e (Start e v) = Some r ->
  heap w !! routes (self w) = Some old ->
  get_routes_body fuel e tt v w
  = (Ret tt,
     set_heap (fun h => <[routes (self w) := old ++ [route_nodes e r]]> h) w).
Proof.
  intros Hr Hold. unfold get_routes_body.
  rewrite run_bind, (get_routes_walk_run _ _ _ _ _ _ Hr).
  unfold routes_append, self_routes, gets, modify. rewrite run_bind.
  rewrite (route_nodes_start _ _ _ _ Hr).
  destruct w as [s h l fs]. unfold set_heap. simpl in *. by rewrite Hold.
Qed.

Lemma get_routes_fold_run fuel e vs ps old w :
  Forall2 (fun v r => walk fuel e (Start e v) = Some r) vs ps ->
  heap w !! routes (self w) = Some old ->
  for_fold vs (get_routes_body fuel e) tt w
  = (Ret tt,
     set_heap (fun h => <[routes (self w) := old ++ (route_nodes e <$> ps)]> h)
       w).
Proof.
  intros Hw. revert old w.
  induction Hw as [|v r vs ps Hr Hw IH]; intros old w Hold; simpl.
  - rewrite run_ret, app_nil_r. destruct w as [s h l fs].
    unfold set_heap. simpl in *. by rewrite insert_id.
  - rewrite run_bind, (get_routes_body_run _ _ _ _ _ _ Hr Hold).
    rewrite (IH (old ++ [route_nodes e r])).
    + rewrite set_heap_set_heap. simpl.
      destruct w as [s h l fs]. unfold set_heap. simpl.
      by rewrite insert_insert_eq, <- app_assoc.
    + simpl. by rewrite lookup_insert_eq.
Qed.

Lemma get_routes_run fuel w ps old :
  routes_upto fuel (engine (self w)) (model_vehicles (engine (self w)))
  = Some ps ->
  heap w !! routes (self w) = Some old ->
  get_routes fuel w
  = (Ret (routes (self w)),
     set_heap (fun h => <[routes (self w) :=
                            old ++ (route_nodes (engine (self w)) <$> ps)]> h)
       w).
Proof.
  intros Hps Hold. apply mapM_Some in Hps. unfold get_routes.
  rewrite run_bind. unfold self_engine at 1, gets.
  by rewrite run_bind, (get_routes_fold_run _ _ _ _ _ _ Hps Hold).
Qed.

Lemma call_get_routes_run fuel k w ps old :
  routes_upto fuel (engine (self w)) (model_vehicles (engine (self w)))
  = Some ps ->
  heap w !! routes (self w) = Some old ->
  call_get_routes fuel k w
  = (Ret tt,
     set_heap (fun h => <[routes (self w) :=
         old ++ mjoin (replicate k (route_nodes (engine (self w)) <$> ps))]> h)
       w).
Proof.
  intros Hps. revert old w Hps.
  induction k as [|k IH]; intros old w Hps Hold; simpl.
  - rewrite run_ret, app_nil_r. destruct w as [s h l fs].
    unfold set_heap. simpl in *. by rewrite insert_id.
  - rewrite run_bind, (get_routes_run _ _ _ _ Hps Hold).
    rewrite (IH (old ++ (route_nodes (engine (self w)) <$> ps))).
    + rewrite set_heap_set_heap. simpl.
      destruct w as [s h l fs]. unfold set_heap. simpl.
      by rewrite insert_insert_eq, <- app_assoc.
    + done.
    + simpl. by rewrite lookup_insert_eq.
Qed.

Lemma save_to_file_run fuel w rs c :
  heap w !! routes (self w) = Some rs ->
  (forall w', problem (self w') = problem (self w) ->
              engine (self w') = engine (self w) ->
              fst (evaluate_cost fuel w') = Ret c) ->
  exists w',
    save_to_file fuel w = (Ret tt, w')
    /\ files w' !! result_path (problem (self w)) = Some (Some (result_of rs c))
    /\ heap w' = heap w.
Proof.
  intros Hrs Hc. unfold save_to_file.
  rewrite run_bind. unfold self_problem at 1, gets.
  rewrite run_bind. unfold modify at 1.
  rewrite run_bind. unfold self_routes at 1, gets.
  rewrite run_bind. simpl heap. simpl routes. rewrite Hrs. simpl default.
  rewrite run_bind.
  match goal with |- context [evaluate_cost fuel ?w1] =>
    destruct (evaluate_cost_shape fuel (problem (self w)) (engine (self w)))
      as [r Hr];
    pose proof (Hc w1 eq_refl eq_refl) as Hc1;
    rewrite (Hr w1 eq_refl eq_refl) in Hc1 |- *
  end.
  simpl in Hc1. subst r. unfold modify.
  eexists. split; [reflexivity|]. simpl. split; [|done].
  by rewrite lookup_insert_eq.
Qed.

(* ===================================================================== *)
(** *** Cost evaluator                                                    *)
(* ===================================================================== *)

(** C1, as stated, fails: on the route 0 -> 1 -> 2 -> 0 with arrivals
    0, 20, 70, 80 the cumulative time at the terminal node is 80, and
    [evaluate_cost] returns 180 = (0 + 20 + 70 + 80) + (5 + 5 + 0). *)
Lemma evaluate_cost_is_not_terminal_sum :
  let w := Scenario.fresh_world (Scenario.two_customers [20] 60 100)
             Scenario.one_route in
  let ps := [([0; 1; 2], 3)] in
  routes_upto 10 Scenario.one_route 1 = Some ps
  /\ fst (evaluate_cost 10 w) = Ret 180
  /\ Zsum (terminal_cumul Scenario.one_route <$> ps) = 80
  /\ fst (evaluate_cost 10 w)
     <> Ret (Zsum (terminal_cumul Scenario.one_route <$> ps)).
Proof.
  repeat split; try (vm_compute; reflexivity).
  vm_compute. intros [=].
Qed.

(** C1, amended: when every vehicle's route reaches its end and the nodes
    after each start are customers of the problem, [evaluate_cost] returns
    the sum over the vehicles of the cumulative time at the terminal node,
    plus the cumulative times at every earlier index of the route, plus the
    service time of every node after the start. *)
Theorem evaluate_cost_sums_every_stop fuel w ps :
  routes_upto fuel (engine (self w))
    (length (vehicles (problem (self w)))) = Some ps ->
  Forall (fun r => Forall (fun i => valid_node (problem (self w))
                                      (IndexToNode (engine (self w)) i))
                     (tail (indices r))) ps ->
  fst (evaluate_cost fuel w)
  = Ret (Zsum (terminal_cumul (engine (self w)) <$> ps)
         + Zsum ((fun r => Zsum (CumulMin (engine (self w)) <$> r.1)) <$> ps)
         + Zsum (service_total (problem (self w)) (engine (self w)) <$> ps)).
Proof.
  intros Hps Hv.
  by rewrite (evaluate_cost_run _ _ _ Hps Hv), cumul_total_sum.
Qed.

Lemma evaluate_cost_sums_every_stop_witness :
  let w := Scenario.fresh_world (Scenario.two_customers [20] 60 100)
             Scenario.one_route in
  fst (evaluate_cost 10 w) = Ret (80 + 90 + 10).
Proof.
  apply (evaluate_cost_sums_every_stop 10
           (Scenario.fresh_world (Scenario.two_customers [20] 60 100)
              Scenario.one_route)
           [([0; 1; 2], 3)]).
  - reflexivity.
  - repeat constructor; vm_compute; congruence.
Defined.

(** The sum of the terminal cumulative times is what [print_solution]
    adds to [self.total_driving_time], on every call. *)
Lemma print_solution_walk_run fuel e index r acc w :
  walk fuel e index = Some r ->
  Forall (fun i => valid_node (problem (self w)) (IndexToNode e i)) r.1 ->
  print_solution_walk fuel e index acc w
  = (Ret (r.2, acc + route_demand (problem (self w)) e r), w).
Proof.
  revert index r acc. induction fuel as [|fuel IH]; intros index r acc H Hv; [done|].
  apply walk_step in H as [[Hend ->]|(Hend & l & z & H & ->)]; simpl;
    rewrite Hend.
  - unfold route_demand. simpl. by rewrite Z.add_0_r.
  - simpl in Hv. apply Forall_cons in Hv as [Hi Hv].
    rewrite run_bind, (customer_at_run (problem (self w))) by done.
    destruct (getitem_valid _ _ Hi) as [c Hc]. rewrite Hc.
    rewrite (IH _ _ _ H Hv). unfold route_demand. simpl.
    unfold demand_at. rewrite Hc. do 3 f_equal. apply eq_sym, Z.add_assoc.
Qed.

Lemma print_solution_fold_run fuel e vs ps w :
  Forall2 (fun v r => walk fuel e (Start e v) = Some r) vs ps ->
  Forall (fun r => Forall (fun i => valid_node (problem (self w))
                                      (IndexToNode e i)) r.1) ps ->
  for_fold vs (print_solution_body fuel e) tt w
  = (Ret tt,
     set_self (fun s => with_total_driving_time
                          (total_driving_time s
                           + Zsum (terminal_cumul e <$> ps)) s) w).
Proof.
  intros Hw. revert w.
  induction Hw as [|v r vs ps Hr Hw IH]; intros w Hv; simpl.
  - rewrite run_ret. destruct w as [[] ? ? ?].
    unfold set_self, with_total_driving_time. simpl. by rewrite Z.add_0_r.
  - apply Forall_cons in Hv as [Hv1 Hv].
    rewrite run_bind. unfold print_solution_body at 1.
    rewrite run_bind, (print_solution_walk_run _ _ _ _ _ _ Hr Hv1).
    unfold modify at 1. rewrite IH by done.
    destruct w as [[] ? ? ?]. unfold set_self, with_total_driving_time,
      terminal_cumul. simpl. by rewrite Z.add_assoc.
Qed.

Lemma print_solution_total_driving_time fuel w ps :
  routes_upto fuel (engine (self w))
    (length (vehicles (problem (self w)))) = Some ps ->
  Forall (fun r => Forall (fun i => valid_node (problem (self w))
                                      (IndexToNode (engine (self w)) i))
                     (indices r)) ps ->
  exists w',
    print_solution fuel w = (Ret tt, w')
    /\ total_driving_time (self w')
       = total_driving_time (self w)
         + Zsum (terminal_cumul (engine (self w)) <$> ps).
Proof.
  intros Hps Hv. pose proof Hps as Hps'. apply mapM_Some in Hps'.
  unfold print_solution.
  rewrite run_bind. unfold self_engine at 1, gets.
  rewrite run_bind. unfold self_problem at 1, gets.
  rewrite run_bind, (print_solution_fold_run _ _ _ ps).
  - rewrite run_bind.
    match goal with |- context [evaluate_cost fuel ?w1] =>
      rewrite (evaluate_cost_run fuel w1 ps)
    end.
    + rewrite run_ret. eexists. split; [reflexivity|]. done.
    + done.
    + simpl. eapply Forall_impl; [exact Hv|]. intros r. apply Forall_tail_of.
  - done.
  - eapply Forall_impl; [exact Hv|]. intros r. apply Forall_indices_inner.
Qed.

(* ===================================================================== *)
(** *** Validator: time windows                                           *)
(* ===================================================================== *)

Lemma windows_ok_true pr e ps :
  windows_ok pr e ps = true <->
  (forall r i, r ∈ ps -> i ∈ r.1 -> window_ok pr e i = true).
Proof.
  unfold windows_ok. rewrite forallb_forall. split.
  - intros H r i Hr Hi. apply list_elem_of_In in Hr, Hi.
    specialize (H r Hr). rewrite forallb_forall in H. by apply H.
  - intros H r Hr. rewrite forallb_forall. intros i Hi.
    apply (H r i); by apply list_elem_of_In.
Qed.

Lemma window_ok_non_depot pr e i :
  IndexToNode e i <> depot pr -> window_ok pr e i = in_window pr e i.
Proof.
  intros Hne. unfold window_ok.
  by destruct (Z.eqb_spec (IndexToNode e i) (depot pr)).
Qed.

(** An index of a route whose node is not the depot lies before the end
    index, since the end maps to the depot. *)
Lemma visits_non_depot fuel pr e ps i :
  engine_contract fuel pr e ps -> visits ps i ->
  IndexToNode e i <> depot pr -> exists r, r ∈ ps /\ i ∈ r.1.
Proof.
  intros [_ _ _ _ Hdepot] (r & Hr & Hi) Hne. exists r. split; [done|].
  unfold indices in Hi. apply elem_of_app in Hi as [Hi|Hi]; [done|].
  apply list_elem_of_singleton in Hi as ->.
  rewrite Forall_forall in Hdepot. by destruct (Hdepot r Hr) as [_ ?].
Qed.

(** C3: under the engine contract, (1) a verdict of True means every index
    the routes visit whose node is not the depot has its arrival time in
    the window of its customer; (2) if some such index is outside its
    window the validator returns False, and the warning is the last record
    it logs; (3) depot nodes are exempt: when the capacity test passes and
    all non-depot indices are in their windows the verdict is True,
    whatever the times at depot nodes. *)
Theorem feasible_checks_time_windows fuel w ps :
  engine_contract fuel (problem (self w)) (engine (self w)) ps ->
  let pr := problem (self w) in
  let e := engine (self w) in
  (fst (feasible fuel w) = Ret true ->
   forall i, visits ps i -> IndexToNode e i <> depot pr ->
             in_window pr e i = true)
  /\ ((exists i, visits ps i /\ IndexToNode e i <> depot pr
                 /\ in_window pr e i = false) ->
      fst (feasible fuel w) = Ret false
      /\ exists d, log (snd (feasible fuel w)) = log w ++ d
                   /\ ends_with_warning d)
  /\ (capacity_ok pr e ps = true ->
      (forall i, visits ps i -> IndexToNode e i <> depot pr ->
                 in_window pr e i = true) ->
      fst (feasible fuel w) = Ret true).
Proof.
  intros Hc pr e.
  destruct (feasible_run fuel w ps Hc) as (d & w' & Hrun & Hlog & Hwarn).
  fold pr e in Hrun, Hwarn. rewrite Hrun. simpl. split; [|split].
  - intros [= Hok] i Hi Hne.
    apply andb_true_iff in Hok as [_ Hok].
    destruct (visits_non_depot _ _ _ _ _ Hc Hi Hne) as (r & Hr & Hir).
    rewrite <- (window_ok_non_depot pr e i Hne).
    by apply (proj1 (windows_ok_true pr e ps) Hok r i).
  - intros (i & Hi & Hne & Hout).
    destruct (visits_non_depot _ _ _ _ _ Hc Hi Hne) as (r & Hr & Hir).
    assert (windows_ok pr e ps = false) as Hw.
    { destruct (windows_ok pr e ps) eqn:Hok; [|done].
      pose proof (proj1 (windows_ok_true pr e ps) Hok r i Hr Hir) as Hi'.
      rewrite (window_ok_non_depot pr e i Hne) in Hi'. congruence. }
    rewrite Hw, andb_false_r in *. split; [done|].
    exists d. split; [done|]. by apply Hwarn.
  - intros Hcap Hall. rewrite Hcap. simpl. f_equal.
    apply windows_ok_true. intros r i Hr Hi.
    destruct (Z.eq_dec (IndexToNode e i) (depot pr)) as [Heq|Hne].
    + unfold window_ok. apply orb_true_iff. left. by apply Z.eqb_eq.
    + rewrite (window_ok_non_depot pr e i Hne). apply Hall; [|done].
      exists r. split; [done|]. unfold indices.
      apply elem_of_app. by left.
Qed.

Lemma feasible_checks_time_windows_witness :
  let pr := Scenario.two_customers [20] 10 50 in
  let e := Scenario.one_route in
  let w := Scenario.fresh_world pr e in
  let ps := [([0; 1; 2], 3)] in
  engine_contract 10 pr e ps
  /\ (visits ps 2 /\ IndexToNode e 2 <> depot pr /\ in_window pr e 2 = false)
  /\ fst (feasible 10 w) = Ret false.
Proof.
  intros pr e w ps.
  assert (engine_contract 10 pr e ps) as Hc.
  { constructor; try reflexivity; repeat constructor; vm_compute; congruence. }
  assert (visits ps 2 /\ IndexToNode e 2 <> depot pr
          /\ in_window pr e 2 = false) as Hv.
  { split; [|split; [vm_compute; congruence|reflexivity]].
    exists ([0; 1; 2], 3). split; [apply list_elem_of_here|].
    do 2 apply list_elem_of_further. apply list_elem_of_here. }
  split; [exact Hc|]. split; [exact Hv|].
  apply (feasible_checks_time_windows 10 w ps Hc). by exists 2.
Defined.

(* ===================================================================== *)
(** *** Repeated evaluation and validation                                *)
(* ===================================================================== *)

Lemma apply_effect_log eff w :
  log (apply_effect eff w) = log w ++ emitted eff.
Proof. by destruct eff as [d [c|]]. Qed.

Lemma evaluate_cost_problem fuel w :
  problem (self (snd (evaluate_cost fuel w))) = problem (self w).
Proof.
  destruct (evaluate_cost_shape fuel (problem (self w)) (engine (self w)))
    as [r Hr].
  rewrite (Hr w eq_refl eq_refl). by destruct r.
Qed.

Lemma evaluate_cost_engine fuel w :
  engine (self (snd (evaluate_cost fuel w))) = engine (self w).
Proof.
  destruct (evaluate_cost_shape fuel (problem (self w)) (engine (self w)))
    as [r Hr].
  rewrite (Hr w eq_refl eq_refl). by destruct r.
Qed.

(** The outcome of [evaluate_cost] is the same in any two states of the
    same problem and engine. *)
Lemma evaluate_cost_same_inputs fuel w w' :
  problem (self w') = problem (self w) -> engine (self w') = engine (self w) ->
  fst (evaluate_cost fuel w') = fst (evaluate_cost fuel w).
Proof.
  intros Hp He.
  destruct (evaluate_cost_shape fuel (problem (self w)) (engine (self w)))
    as [r Hr].
  by rewrite (Hr w eq_refl eq_refl), (Hr w' Hp He).
Qed.

(** C6, as stated, fails: [evaluate_cost] assigns
    [self.total_driving_service_time], so the Solution object after the
    first call differs from the one before it. *)
Lemma evaluate_cost_writes_to_self :
  let w := Scenario.fresh_world (Scenario.two_customers [20] 60 100)
             Scenario.one_route in
  total_driving_service_time (self w) = 0
  /\ total_driving_service_time (self (snd (evaluate_cost 10 w))) = 180
  /\ self (snd (evaluate_cost 10 w)) <> self w.
Proof.
  repeat split; try (vm_compute; reflexivity).
  intros H. apply (f_equal total_driving_service_time) in H.
  vm_compute in H. discriminate H.
Qed.

(** C6, amended: the outcome of [evaluate_cost] depends on the problem and
    the engine data alone, so any number of calls, also from within or
    after a run of the validator, give the same outcome; the only thing a
    call writes
    is [self.total_driving_service_time], which receives the returned
    cost, so a second call leaves the state of the first as it is; the
    problem, the engine data, the routes, [self.total_driving_time], the
    log and the files are never changed. *)
Theorem evaluate_cost_repeatable fuel w :
  let w1 := snd (evaluate_cost fuel w) in
  (forall w',
     problem (self w') = problem (self w) ->
     engine (self w') = engine (self w) ->
     fst (evaluate_cost fuel w') = fst (evaluate_cost fuel w))
  /\ (forall k,
     fst (evaluate_cost fuel
            (Nat.iter k (fun w => snd (evaluate_cost fuel w)) w))
     = fst (evaluate_cost fuel w))
  /\ fst (evaluate_cost fuel (snd (feasible fuel w)))
     = fst (evaluate_cost fuel w)
  /\ snd (evaluate_cost fuel w1) = w1
  /\ (forall c, fst (evaluate_cost fuel w) = Ret c ->
                total_driving_service_time (self w1) = c)
  /\ problem (self w1) = problem (self w)
  /\ engine (self w1) = engine (self w)
  /\ routes (self w1) = routes (self w)
  /\ total_driving_time (self w1) = total_driving_time (self w)
  /\ heap w1 = heap w /\ log w1 = log w /\ files w1 = files w.
Proof.
  intros w1. split; [|split; [|split]].
  - intros w'. apply evaluate_cost_same_inputs.
  - intros k. apply evaluate_cost_same_inputs.
    + induction k as [|k IH]; [done|]. simpl. by rewrite evaluate_cost_problem.
    + induction k as [|k IH]; [done|]. simpl. by rewrite evaluate_cost_engine.
  - destruct (feasible_logs_and_caches fuel (problem (self w))
                (engine (self w))) as (r & eff & Hr).
    rewrite (Hr w eq_refl eq_refl). simpl.
    apply evaluate_cost_same_inputs;
      [apply apply_effect_problem|apply apply_effect_engine].
  - subst w1.
    destruct (evaluate_cost_shape fuel (problem (self w)) (engine (self w)))
      as [r Hr].
    rewrite (Hr w eq_refl eq_refl). simpl.
    destruct r as [c|x|]; simpl;
      rewrite ?(Hr (set_self (with_total_driving_service_time c) w)
                  eq_refl eq_refl), ?(Hr w eq_refl eq_refl); simpl;
      repeat split; try done.
    by intros ? [= ->].
Qed.

(** C8: the verdict of the validator and the records it logs, the reported
    violation among them, are the same for any two runs on the same
    problem and engine data, whatever the rest of the state. *)
Theorem feasible_deterministic fuel w w' :
  problem (self w') = problem (self w) ->
  engine (self w') = engine (self w) ->
  fst (feasible fuel w') = fst (feasible fuel w)
  /\ exists d, log (snd (feasible fuel w)) = log w ++ d
               /\ log (snd (feasible fuel w')) = log w' ++ d.
Proof.
  intros Hp He.
  destruct (feasible_logs_and_caches fuel (problem (self w))
              (engine (self w))) as (r & eff & Hr).
  rewrite (Hr w eq_refl eq_refl), (Hr w' Hp He). cbn [fst snd].
  split; [done|]. exists (emitted eff). by rewrite !apply_effect_log.
Qed.

Lemma feasible_deterministic_witness :
  let w := Scenario.fresh_world (Scenario.two_customers [20] 10 50)
             Scenario.one_route in
  let w' := snd (feasible 10 w) in
  fst (feasible 10 w') = fst (feasible 10 w)
  /\ exists d, log (snd (feasible 10 w)) = log w ++ d
               /\ log (snd (feasible 10 w')) = log w' ++ d.
Proof.
  apply (feasible_deterministic 10
           (Scenario.fresh_world (Scenario.two_customers [20] 10 50)
              Scenario.one_route)
           (snd (feasible 10
                   (Scenario.fresh_world (Scenario.two_customers [20] 10 50)
                      Scenario.one_route))));
    vm_compute; reflexivity.
Defined.

(* ===================================================================== *)
(** *** Route extractor and persisted result                              *)
(* ===================================================================== *)

Lemma Solution_init_routes pr e h l fs :
  heap (Solution_init pr e h l fs) !! routes (self (Solution_init pr e h l fs))
  = Some [].
Proof. unfold Solution_init. simpl. by rewrite lookup_insert_eq. Qed.

Lemma route_nodes_anchored e (r : route) d :
  r.1 <> [] -> head (route_nodes e r) = Some d -> IndexToNode e r.2 = d ->
  last (route_nodes e r) = Some d
  /\ (2 <= length (route_nodes e r))%nat
  /\ (length r.1 = 1%nat -> route_nodes e r = [d; d]).
Proof.
  destruct r as [inner z]. unfold route_nodes, indices. simpl.
  intros Hne Hhead Hend. rewrite fmap_app. simpl. rewrite last_snoc, Hend.
  split; [done|]. rewrite length_app, length_fmap. simpl.
  destruct inner as [|i [|j inner]]; [done| |]; simpl in *.
  - injection Hhead as ->. split; [lia|done].
  - split; [lia|]. intros [=].
Qed.

(** C7, as stated, fails: the second vehicle serves no customer and its
    route is written as [0; 0], neither the depot index alone nor the
    empty sequence. *)
Lemma idle_vehicle_route_is_depot_twice :
  let pr := Scenario.two_customers [20; 20] 60 100 in
  let e := Scenario.idle_second_vehicle in
  let w' := snd ((get_routes 10 ≫= fun _ => save_to_file 10)
                   (Scenario.fresh_world pr e)) in
  engine_contract 10 pr e [([0; 1; 2], 4); ([3], 5)]
  /\ files w' !! "../Solutions/sols/C101.json"%string
     = Some (Some {| result_routes :=
                       [ {| entry_vehicle := 0; entry_route := [0; 1; 2; 0] |};
                         {| entry_vehicle := 1; entry_route := [0; 0] |} ];
                     result_cost := 180 |})
  /\ [0; 0] <> [depot pr] /\ [0; 0] <> ([] : list Z).
Proof.
  repeat split; try (vm_compute; reflexivity); try discriminate.
  - repeat constructor; discriminate.
  - repeat constructor; vm_compute; congruence.
  - repeat constructor.
Qed.

(** C7, amended: under the engine contract, extracting the routes of a
    newly constructed Solution and saving them writes one entry per
    vehicle, numbered by position, and the evaluated cost; every route has
    at least two elements and starts and ends with the depot index; the
    route of a vehicle that serves no customer is the depot index twice. *)
Theorem saved_routes_are_depot_anchored fuel pr e ps h l fs :
  engine_contract fuel pr e ps ->
  let w := Solution_init pr e h l fs in
  exists w' cost,
    (get_routes fuel ≫= fun _ => save_to_file fuel) w = (Ret tt, w')
    /\ files w' !! result_path pr
       = Some (Some (result_of (route_nodes e <$> ps) cost))
    /\ fst (evaluate_cost fuel w) = Ret cost
    /\ length ps = length (vehicles pr)
    /\ (forall v r, ps !! v = Some r ->
          result_routes (result_of (route_nodes e <$> ps) cost) !! v
          = Some {| entry_vehicle := v; entry_route := route_nodes e r |})
    /\ Forall (fun r =>
         head (route_nodes e r) = Some (depot pr)
         /\ last (route_nodes e r) = Some (depot pr)
         /\ (2 <= length (route_nodes e r))%nat
         /\ (length r.1 = 1%nat -> route_nodes e r = [depot pr; depot pr])) ps.
Proof.
  intros [Hn Hps Hstart Hnodes Hdepot] w.
  assert (Hcost : forall w', problem (self w') = pr -> engine (self w') = e ->
            fst (evaluate_cost fuel w')
            = Ret (Zsum (cumul_total e <$> ps)
                   + Zsum (service_total pr e <$> ps))).
  { intros w' Hp He. rewrite (evaluate_cost_run fuel w' ps); rewrite ?Hp, ?He.
    - done.
    - by rewrite <- Hn.
    - eapply Forall_impl; [exact Hnodes|]. intros r. apply Forall_tail_of. }
  rewrite run_bind.
  rewrite (get_routes_run fuel w ps []);
    [|done|apply Solution_init_routes]. simpl app.
  match goal with |- context [save_to_file fuel ?w1] =>
    destruct (save_to_file_run fuel w1 (route_nodes e <$> ps)
                (Zsum (cumul_total e <$> ps)
                 + Zsum (service_total pr e <$> ps)))
      as (w' & Hrun & Hfile & _)
  end.
  { simpl. by rewrite lookup_insert_eq. }
  { intros w' Hp He. by apply Hcost. }
  rewrite Hrun. eexists _, _. split; [reflexivity|]. split; [exact Hfile|].
  split; [by apply Hcost|].
  split; [by rewrite (routes_upto_length _ _ _ _ Hps)|]. split.
  - intros v r Hv. unfold result_of. simpl.
    by rewrite list_lookup_imap, list_lookup_fmap, Hv.
  - rewrite Forall_forall in Hstart, Hdepot. apply Forall_forall. intros r Hr.
    destruct (Hdepot r Hr) as [Hhead Hend]. split; [done|].
    by apply route_nodes_anchored; [apply Hstart| |].
Qed.

Lemma saved_routes_are_depot_anchored_witness :
  let pr := Scenario.two_customers [20; 20] 60 100 in
  let e := Scenario.idle_second_vehicle in
  let ps := [([0; 1; 2], 4); ([3], 5)] in
  let w := Solution_init pr e ∅ [] ∅ in
  exists w' cost,
    (get_routes 10 ≫= fun _ => save_to_file 10) w = (Ret tt, w')
    /\ files w' !! result_path pr
       = Some (Some (result_of (route_nodes e <$> ps) cost))
    /\ fst (evaluate_cost 10 w) = Ret cost
    /\ length ps = length (vehicles pr)
    /\ (forall v r, ps !! v = Some r ->
          result_routes (result_of (route_nodes e <$> ps) cost) !! v
          = Some {| entry_vehicle := v; entry_route := route_nodes e r |})
    /\ Forall (fun r =>
         head (route_nodes e r) = Some (depot pr)
         /\ last (route_nodes e r) = Some (depot pr)
         /\ (2 <= length (route_nodes e r))%nat
         /\ (length r.1 = 1%nat -> route_nodes e r = [depot pr; depot pr])) ps.
Proof.
  apply (saved_routes_are_depot_anchored 10
           (Scenario.two_customers [20; 20] 60 100)
           Scenario.idle_second_vehicle [([0; 1; 2], 4); ([3], 5)] ∅ [] ∅).
  constructor; try reflexivity; repeat constructor;
    try discriminate; vm_compute; congruence.
Defined.

Lemma length_join_replicate {A} (k : nat) (rs : list A) :
  length (mjoin (replicate k rs)) = (k * length rs)%nat.
Proof.
  induction k as [|k IH]; [done|]. simpl. rewrite length_app, IH. lia.
Qed.

(** C9, as stated, fails in its last part: the second call returns the
    very list object the first call returned, so the two results are one
    list with one content, here the route of the single vehicle twice. *)
Lemma second_get_routes_returns_the_same_list :
  let w := Scenario.fresh_world (Scenario.two_customers [20] 60 100)
             Scenario.one_route in
  let first_call := get_routes 10 w in
  let second_call := get_routes 10 (snd first_call) in
  let final := snd second_call in
  exists first second,
    fst first_call = Ret first /\ fst second_call = Ret second
    /\ first = second
    /\ heap final !! first = heap final !! second
    /\ heap final !! first = Some [[0; 1; 2; 0]; [0; 1; 2; 0]].
Proof. exists 0%nat, 0%nat. repeat split; vm_compute; reflexivity. Qed.

(** C9, amended: [get_routes] is not idempotent. On a newly constructed
    Solution whose [n] vehicle routes reach their ends, every call appends
    the [n] routes to the one list object held in [self.routes] and
    returns that object: after [k] calls it holds the [n] routes [k] times
    over, [k * n] entries. The first call leaves [n] entries in it, the
    second call returns the same object, by then with [n] more. *)
Theorem get_routes_accumulates fuel pr e ps h l fs k :
  routes_upto fuel e (model_vehicles e) = Some ps ->
  let w := Solution_init pr e h l fs in
  let rs := route_nodes e <$> ps in
  let lst := routes (self w) in
  (exists wk,
     call_get_routes fuel k w = (Ret tt, wk)
     /\ routes (self wk) = lst
     /\ heap wk !! lst = Some (mjoin (replicate k rs))
     /\ length (mjoin (replicate k rs)) = (k * model_vehicles e)%nat)
  /\ (exists w1 w2,
        get_routes fuel w = (Ret lst, w1)
        /\ get_routes fuel w1 = (Ret lst, w2)
        /\ heap w1 !! lst = Some rs
        /\ heap w2 !! lst = Some (rs ++ rs)
        /\ length (rs ++ rs) = (length rs + model_vehicles e)%nat).
Proof.
  intros Hps w rs lst.
  assert (length rs = model_vehicles e) as Hlen.
  { unfold rs. by rewrite length_fmap, (routes_upto_length _ _ _ _ Hps). }
  split.
  - rewrite (call_get_routes_run fuel k w ps []);
      [|done|apply Solution_init_routes].
    eexists. split; [reflexivity|]. simpl. split; [done|].
    split; [by rewrite lookup_insert_eq|].
    fold rs. by rewrite length_join_replicate, Hlen.
  - rewrite (get_routes_run fuel w ps []);
      [|done|apply Solution_init_routes].
    eexists _, _. split; [reflexivity|].
    rewrite (get_routes_run fuel _ ps rs);
      [|done|simpl; by rewrite lookup_insert_eq].
    split; [reflexivity|]. simpl.
    rewrite insert_insert_eq, !lookup_insert_eq. fold rs.
    repeat split. rewrite length_app. lia.
Qed.

Lemma get_routes_accumulates_witness :
  let pr := Scenario.two_customers [20] 60 100 in
  let e := Scenario.one_route in
  let w := Solution_init pr e ∅ [] ∅ in
  exists wk,
    call_get_routes 10 3 w = (Ret tt, wk)
    /\ heap wk !! routes (self w)
       = Some [[0; 1; 2; 0]; [0; 1; 2; 0]; [0; 1; 2; 0]].
Proof.
  destruct (get_routes_accumulates 10
              (Scenario.two_customers [20] 60 100) Scenario.one_route
              [([0; 1; 2], 3)] ∅ [] ∅ 3 eq_refl)
    as [(wk & Hrun & _ & Hheap & _) _].
  exists wk. split; [exact Hrun|exact Hheap].
Defined.

End SolutionProps.

(* ===================================================================== *)
(** ** Properties of the Problem models                                    *)
(* ===================================================================== *)

Module ProblemProps.
Import VrpProblem ProblemSpec PyProps.

(** *** The loaded Problem *)

Lemma Problem_init_Ret lines skiprows p :
  Problem_init lines skiprows = Ret p ->
  exists st d,
    parsed lines skiprows = Ret st
    /\ head (loaded_customers st) = Some d
    /\ p = {| customers := loaded_customers st ++ [d];
              vehicles := loaded_vehicles st;
              capacity := loaded_capacity st;
              depot := d;
              travel_time := travel_time_table (loaded_customers st ++ [d]) |}.
Proof.
  unfold Problem_init. intros H.
  apply bind_Ret in H as (st & Hst & H).
  apply bind_Ret in H as (d & Hd & H). simpl in H.
  destruct (travel_time_overflows _); [done|].
  exists st, d. split; [done|]. split; [|by injection H as <-].
  destruct (loaded_customers st) as [|c cs]; [done|].
  rewrite getitem_0 in Hd. by injection Hd as ->.
Qed.

Lemma travel_time_table_length cs :
  length (travel_time_table cs) = length cs.
Proof. unfold travel_time_table. by rewrite length_imap. Qed.

Lemma travel_time_table_rows cs :
  Forall (fun row => length row = length cs) (travel_time_table cs).
Proof.
  apply Forall_forall. intros row Hrow.
  apply list_elem_of_lookup in Hrow as [i Hi].
  unfold travel_time_table in Hi. rewrite list_lookup_imap in Hi.
  destruct (cs !! i) as [ci|]; simplify_eq/=. by rewrite length_imap.
Qed.

Lemma travel_time_table_lookup cs i j ci cj :
  cs !! i = Some ci -> cs !! j = Some cj ->
  (row ← travel_time_table cs !! i; row !! j)
  = Some (if (i =? j)%nat then 0%R
          else (distance ci cj + IZR (service_time ci))%R).
Proof.
  intros Hi Hj. unfold travel_time_table.
  rewrite list_lookup_imap, Hi. simpl.
  by rewrite list_lookup_imap, Hj.
Qed.

(** C10: a successfully constructed Problem holds the parsed customer
    records followed by a second occurrence of the first of them, the
    depot: the depot is at index 0 and at the last index, [no_customers]
    is the number of parsed records plus one, and the travel-time table is
    square of that size. *)
Theorem Problem_init_appends_depot lines skiprows p :
  Problem_init lines skiprows = Ret p ->
  exists st,
    parsed lines skiprows = Ret st
    /\ customers p = loaded_customers st ++ [depot p]
    /\ customers p !! 0%nat = Some (depot p)
    /\ customers p !! (no_customers p - 1)%nat = Some (depot p)
    /\ no_customers p = S (length (loaded_customers st))
    /\ length (travel_time p) = no_customers p
    /\ Forall (fun row => length row = no_customers p) (travel_time p).
Proof.
  intros H. apply Problem_init_Ret in H as (st & d & Hst & Hd & ->).
  exists st. unfold no_customers. simpl. rewrite length_app. simpl.
  split; [done|]. split; [done|]. split; [|split; [|split; [|split]]].
  - by destruct (loaded_customers st); simplify_eq/=.
  - replace (length (loaded_customers st) + 1 - 1)%nat
      with (length (loaded_customers st) + 0)%nat by lia.
    by rewrite lookup_app_r, Nat.add_0_r, Nat.sub_diag by lia.
  - lia.
  - by rewrite travel_time_table_length, length_app.
  - rewrite <- (length_app _ [d]). apply travel_time_table_rows.
Qed.

Lemma Problem_init_appends_depot_witness :
  exists p,
    Problem_init small_instance 0 = Ret p
    /\ exists st,
         parsed small_instance 0 = Ret st
         /\ customers p = loaded_customers st ++ [depot p]
         /\ customers p !! 0%nat = Some (depot p)
         /\ customers p !! (no_customers p - 1)%nat = Some (depot p)
         /\ no_customers p = S (length (loaded_customers st))
         /\ length (travel_time p) = no_customers p
         /\ Forall (fun row => length row = no_customers p) (travel_time p).
Proof.
  eexists. split; [reflexivity|].
  apply (Problem_init_appends_depot small_instance 0). reflexivity.
Defined.

Example small_instance_no_customers :
  (p ← Problem_init small_instance 0; Ret (no_customers p)) = Ret 4%nat.
Proof. reflexivity. Qed.

(** *** Travel times *)

Lemma distance_nonneg c1 c2 : (0 <= distance c1 c2)%R.
Proof. apply sqrt_pos. Qed.

Lemma distance_self c : distance c c = 0%R.
Proof.
  unfold distance. rewrite !Z.sub_diag. simpl.
  replace (0 * (0 * 1) + 0 * (0 * 1))%R with 0%R by lra. apply sqrt_0.
Qed.




(** *** Construction and validation *)


Example empty_instance_IndexError :
  Problem_init empty_instance 0 = Raise IndexError.
Proof. reflexivity. Qed.

End ProblemProps.

(* ===================================================================== *)
(** ** Properties of the solver's report                                   *)
(* ===================================================================== *)

Module ReportProps.
Import OrtoolsSolver SolutionSpec SolverRun RunSpec PyProps SolutionProps.

(** *** Exact final states of the methods *)

Lemma apply_effect_heap eff w : heap (apply_effect eff w) = heap w.
Proof. by destruct eff as [d [c|]]. Qed.

Lemma apply_effect_files eff w : files (apply_effect eff w) = files w.
Proof. by destruct eff as [d [c|]]. Qed.

Lemma apply_effect_routes eff w :
  routes (self (apply_effect eff w)) = routes (self w).
Proof. by destruct eff as [d [c|]]. Qed.

Lemma apply_effect_total_driving_time eff w :
  total_driving_time (self (apply_effect eff w)) = total_driving_time (self w).
Proof. by destruct eff as [d [c|]]. Qed.

Lemma contract_all_nodes fuel pr e ps :
  engine_contract fuel pr e ps ->
  routes_upto fuel e (length (vehicles pr)) = Some ps
  /\ Forall (fun r => Forall (fun i => valid_node pr (IndexToNode e i))
                        (indices r)) ps.
Proof. intros [Hn Hps _ Hnodes _]. by rewrite <- Hn. Qed.

Lemma Forall_nodes_tail (pr : Problem) e (ps : list route) :
  Forall (fun r => Forall (fun i => valid_node pr (IndexToNode e i))
                     (indices r)) ps ->
  Forall (fun r => Forall (fun i => valid_node pr (IndexToNode e i))
                     (tail (indices r))) ps.
Proof.
  intros H. eapply Forall_impl; [exact H|]. intros r. apply Forall_tail_of.
Qed.

Lemma Forall_nodes_inner (pr : Problem) e (ps : list route) :
  Forall (fun r => Forall (fun i => valid_node pr (IndexToNode e i))
                     (indices r)) ps ->
  Forall (fun r => Forall (fun i => valid_node pr (IndexToNode e i)) r.1) ps.
Proof.
  intros H. eapply Forall_impl; [exact H|]. intros r.
  apply Forall_indices_inner.
Qed.

Lemma evaluate_cost_exact fuel w ps :
  routes_upto fuel (engine (self w))
    (length (vehicles (problem (self w)))) = Some ps ->
  Forall (fun r => Forall (fun i => valid_node (problem (self w))
                                      (IndexToNode (engine (self w)) i))
                     (indices r)) ps ->
  evaluate_cost fuel w
  = (Ret (cost_of (problem (self w)) (engine (self w)) ps),
     set_self (with_total_driving_service_time
                 (cost_of (problem (self w)) (engine (self w)) ps)) w).
Proof.
  intros Hps Hv. apply (evaluate_cost_run fuel w ps Hps).
  by apply Forall_nodes_tail.
Qed.

Lemma print_solution_exact fuel w ps :
  routes_upto fuel (engine (self w))
    (length (vehicles (problem (self w)))) = Some ps ->
  Forall (fun r => Forall (fun i => valid_node (problem (self w))
                                      (IndexToNode (engine (self w)) i))
                     (indices r)) ps ->
  print_solution fuel w
  = (Ret tt,
     set_self (with_total_driving_service_time
                 (cost_of (problem (self w)) (engine (self w)) ps))
       (set_self (fun s => with_total_driving_time
                             (total_driving_time s
                              + terminal_sum (engine (self w)) ps) s) w)).
Proof.
  intros Hps Hv. pose proof Hps as Hps'. apply mapM_Some in Hps'.
  unfold print_solution.
  rewrite run_bind. unfold self_engine at 1, gets.
  rewrite run_bind. unfold self_problem at 1, gets.
  rewrite run_bind, (print_solution_fold_run _ _ _ ps);
    [|done|by apply Forall_nodes_inner].
  rewrite run_bind.
  match goal with |- context [evaluate_cost fuel ?w1] =>
    rewrite (evaluate_cost_exact fuel w1 ps); [|done..]
  end.
  by rewrite run_ret.
Qed.

Lemma save_to_file_exact fuel w rs c :
  heap w !! routes (self w) = Some rs ->
  (forall w', problem (self w') = problem (self w) ->
              engine (self w') = engine (self w) ->
              fst (evaluate_cost fuel w') = Ret c) ->
  save_to_file fuel w
  = (Ret tt,
     set_files (fun fs => <[result_path (problem (self w))
                              := Some (result_of rs c)]> fs)
       (set_self (with_total_driving_service_time c)
          (set_files (fun fs => <[result_path (problem (self w)) := None]> fs)
             w))).
Proof.
  intros Hrs Hc. unfold save_to_file.
  rewrite run_bind. unfold self_problem at 1, gets.
  rewrite run_bind. unfold modify at 1.
  rewrite run_bind. unfold self_routes at 1, gets.
  rewrite run_bind. simpl heap. simpl routes. rewrite Hrs. simpl default.
  rewrite run_bind.
  match goal with |- context [evaluate_cost fuel ?w1] =>
    destruct (evaluate_cost_shape fuel (problem (self w)) (engine (self w)))
      as [r Hr];
    pose proof (Hc w1 eq_refl eq_refl) as Hc1;
    rewrite (Hr w1 eq_refl eq_refl) in Hc1 |- *
  end.
  simpl in Hc1. by subst r.
Qed.

Lemma feasible_exact fuel w ps :
  engine_contract fuel (problem (self w)) (engine (self w)) ps ->
  exists eff,
    feasible fuel w
    = (Ret (capacity_ok (problem (self w)) (engine (self w)) ps
            && windows_ok (problem (self w)) (engine (self w)) ps),
       apply_effect eff w)
    /\ (capacity_ok (problem (self w)) (engine (self w)) ps
        && windows_ok (problem (self w)) (engine (self w)) ps = false ->
        ends_with_warning (emitted eff)).
Proof.
  intros Hc.
  destruct (feasible_run fuel w ps Hc) as (d & w' & Hrun & Hlog & Hwarn).
  destruct (feasible_logs_and_caches fuel (problem (self w))
              (engine (self w))) as (r & eff & Heff).
  specialize (Heff w eq_refl eq_refl). rewrite Hrun in Heff.
  injection Heff as <- ->. exists eff. split; [done|].
  rewrite apply_effect_log in Hlog. apply app_inv_head in Hlog as <-.
  exact Hwarn.
Qed.

(** *** The report of a solution *)

(** X1. The result file is written whatever the validator said: under the
    engine contract the report of a new Solution ends normally, the file
    holds one entry per vehicle with its route and the evaluated cost, the
    log holds what the validator wrote, a rejection being its last record,
    and the Solution holds the sum of the terminal times and the cost. *)
Theorem report_saves_whatever_the_verdict fuel pr e ps h l fs :
  engine_contract fuel pr e ps ->
  let w := Solution_init pr e h l fs in
  exists w' d,
    report fuel w = (Ret tt, w')
    /\ fst (feasible fuel w) = Ret (capacity_ok pr e ps && windows_ok pr e ps)
    /\ files w' !! result_path pr
       = Some (Some (result_of (route_nodes e <$> ps) (cost_of pr e ps)))
    /\ log w' = l ++ d
    /\ (capacity_ok pr e ps && windows_ok pr e ps = false ->
        ends_with_warning d)
    /\ total_driving_time (self w') = terminal_sum e ps
    /\ total_driving_service_time (self w') = cost_of pr e ps.
Proof.
  intros Hc w.
  destruct (feasible_exact fuel w ps Hc) as (eff & Hrun & Hwarn).
  destruct (contract_all_nodes _ _ _ _ Hc) as [Hps Hv].
  destruct Hc as [Hn Hps' _ _ _].
  unfold report. rewrite run_bind, Hrun. clear Hrun.
  pose proof (apply_effect_problem eff w) as Hp1.
  pose proof (apply_effect_engine eff w) as He1.
  pose proof (apply_effect_heap eff w) as Hh1.
  pose proof (apply_effect_routes eff w) as Hr1.
  pose proof (apply_effect_files eff w) as Hf1.
  pose proof (apply_effect_log eff w) as Hl1.
  pose proof (apply_effect_total_driving_time eff w) as Ht1.
  pose proof (Solution_init_routes pr e h l fs) as Hfresh. fold w in Hfresh.
  set (w1 := apply_effect eff w) in *. clearbody w1.
  change (problem (self w)) with pr in *. change (engine (self w)) with e in *.
  rewrite run_bind, (print_solution_exact fuel w1 ps);
    [|by rewrite Hp1, He1..].
  rewrite Hp1, He1.
  rewrite run_bind, (get_routes_run fuel _ ps []);
    [|simpl; by rewrite He1|simpl; by rewrite Hh1, Hr1].
  rewrite (save_to_file_exact fuel _ (route_nodes e <$> ps) (cost_of pr e ps)).
  - eexists _, (emitted eff). split; [reflexivity|]. simpl.
    rewrite Hp1, Hl1, Ht1, lookup_insert_eq. repeat split; try done.
  - simpl. by rewrite He1, lookup_insert_eq.
  - intros w' Hp He. simpl in Hp, He. rewrite Hp1 in Hp. rewrite He1 in He.
    rewrite (evaluate_cost_exact fuel w' ps); rewrite ?Hp, ?He; done.
Qed.

Lemma report_saves_whatever_the_verdict_witness :
  let pr := Scenario.two_customers [15] 60 100 in
  let e := Scenario.one_route in
  let w := Solution_init pr e ∅ [] ∅ in
  fst (feasible 10 w) = Ret false
  /\ exists w',
       report 10 w = (Ret tt, w')
       /\ files w' !! "../Solutions/sols/C101.json"%string
          = Some (Some {| result_routes :=
                            [ {| entry_vehicle := 0;
                                 entry_route := [0; 1; 2; 0] |} ];
                          result_cost := 180 |}).
Proof.
  intros pr e w.
  destruct (report_saves_whatever_the_verdict 10 pr e [([0; 1; 2], 3)] ∅ [] ∅)
    as (w' & d & Hrun & Hverdict & Hfile & _).
  { constructor; try reflexivity; repeat constructor; vm_compute; congruence. }
  split; [exact Hverdict|]. exists w'. split; [exact Hrun|exact Hfile].
Defined.

(** *** Repeated printing *)

(** X2. [print_solution] is not repeatable: every call adds the sum of the
    terminal cumulative times to [self.total_driving_time], so after [k]
    calls the field holds [k] times that sum on top of what it held, while
    the evaluated cost stays what a single evaluation gives. *)
Theorem print_solution_accumulates fuel w ps k :
  routes_upto fuel (engine (self w))
    (length (vehicles (problem (self w)))) = Some ps ->
  Forall (fun r => Forall (fun i => valid_node (problem (self w))
                                      (IndexToNode (engine (self w)) i))
                     (indices r)) ps ->
  exists w',
    call_print_solution fuel k w = (Ret tt, w')
    /\ total_driving_time (self w')
       = total_driving_time (self w)
         + Z.of_nat k * terminal_sum (engine (self w)) ps
    /\ fst (evaluate_cost fuel w')
       = Ret (cost_of (problem (self w)) (engine (self w)) ps).
Proof.
  revert w. induction k as [|k IH]; intros w Hps Hv.
  - exists w. split; [done|]. split; [simpl; lia|].
    by rewrite (evaluate_cost_exact fuel w ps).
  - simpl call_print_solution.
    rewrite run_bind, (print_solution_exact fuel w ps) by done.
    match goal with |- context [call_print_solution fuel k ?w1] =>
      destruct (IH w1) as (w' & Hrun & Ht & Hcost); [done..|]
    end.
    exists w'. split; [done|]. simpl in Ht, Hcost. split; [|done].
    rewrite Ht. lia.
Qed.

Lemma print_solution_accumulates_witness :
  let w := Scenario.fresh_world (Scenario.two_customers [20] 60 100)
             Scenario.one_route in
  exists w',
    call_print_solution 10 3 w = (Ret tt, w')
    /\ total_driving_time (self w') = 240
    /\ fst (evaluate_cost 10 w') = Ret 180.
Proof.
  apply (print_solution_accumulates 10
           (Scenario.fresh_world (Scenario.two_customers [20] 60 100)
              Scenario.one_route)
           [([0; 1; 2], 3)] 3).
  - reflexivity.
  - repeat constructor; vm_compute; congruence.
Defined.

(** *** Cost against total time *)

Lemma Zsum_nonneg (l : list Z) : Forall (fun z => 0 <= z) l -> 0 <= Zsum l.
Proof. induction 1; simpl; lia. Qed.

Lemma getitem_elem_of {A} (l : list A) i a : getitem l i = Ret a -> a ∈ l.
Proof.
  unfold getitem.
  destruct ((_ <? 0) || (_ <=? _)); [done|].
  destruct (l !! _) as [b|] eqn:E; [|done]. intros [= <-].
  by apply list_elem_of_lookup_2 in E.
Qed.

Lemma service_at_nonneg (pr : Problem) node :
  Forall (fun c => 0 <= service_time c) (customers pr) ->
  0 <= service_at pr node.
Proof.
  intros H. unfold service_at.
  destruct (getitem (customers pr) node) as [c| |] eqn:E; [|done..].
  apply getitem_elem_of in E. rewrite Forall_forall in H. by apply H.
Qed.

(** X3. When no service time is negative and no cumulative time before the
    end of a route is, the evaluated cost is at least the total time of
    the routes that [print_solution] reports. *)
Theorem cost_at_least_total_time fuel w ps :
  routes_upto fuel (engine (self w))
    (length (vehicles (problem (self w)))) = Some ps ->
  Forall (fun r => Forall (fun i => valid_node (problem (self w))
                                      (IndexToNode (engine (self w)) i))
                     (indices r)) ps ->
  Forall (fun c => 0 <= service_time c) (customers (problem (self w))) ->
  Forall (fun r => Forall (fun i => 0 <= CumulMin (engine (self w)) i) r.1) ps ->
  exists c,
    fst (evaluate_cost fuel w) = Ret c
    /\ terminal_sum (engine (self w)) ps <= c.
Proof.
  intros Hps Hv Hs Hc. rewrite (evaluate_cost_exact fuel w ps) by done.
  eexists. split; [reflexivity|]. unfold cost_of, terminal_sum.
  rewrite cumul_total_sum.
  assert (0 <= Zsum ((fun r => Zsum (CumulMin (engine (self w)) <$> r.1))
                       <$> ps)).
  { apply Zsum_nonneg. rewrite Forall_fmap. eapply Forall_impl; [exact Hc|].
    intros r Hr. simpl. apply Zsum_nonneg. by rewrite Forall_fmap. }
  assert (0 <= Zsum (service_total (problem (self w)) (engine (self w))
                       <$> ps)).
  { apply Zsum_nonneg. rewrite Forall_fmap. apply Forall_forall. intros r _.
    simpl. unfold service_total. apply Zsum_nonneg. rewrite Forall_fmap.
    apply Forall_forall. intros i _. simpl. by apply service_at_nonneg. }
  lia.
Qed.

Lemma cost_at_least_total_time_witness :
  let w := Scenario.fresh_world (Scenario.two_customers [20] 60 100)
             Scenario.one_route in
  exists c, fst (evaluate_cost 10 w) = Ret c /\ 80 <= c.
Proof.
  apply (cost_at_least_total_time 10
           (Scenario.fresh_world (Scenario.two_customers [20] 60 100)
              Scenario.one_route)
           [([0; 1; 2], 3)]).
  - reflexivity.
  - repeat constructor; vm_compute; congruence.
  - repeat constructor; vm_compute; congruence.
  - repeat constructor; vm_compute; congruence.
Defined.

(** *** Saving after repeated extraction *)

Lemma lookup_join_replicate {A} (rs : list A) k j v a :
  (j < k)%nat -> rs !! v = Some a ->
  mjoin (replicate k rs) !! (j * length rs + v)%nat = Some a.
Proof.
  revert j. induction k as [|k IH]; intros j Hj Hv; [lia|]. simpl.
  destruct j as [|j].
  - simpl. by rewrite lookup_app_l by (by apply lookup_lt_Some in Hv).
  - rewrite lookup_app_r by (simpl; lia).
    replace (S j * length rs + v - length rs)%nat
      with (j * length rs + v)%nat by (simpl; lia).
    apply IH; [lia|done].
Qed.

(** X4. [save_to_file] numbers the entries by their position in
    [self.routes], not by vehicle: after [k] calls of [get_routes] on a
    new Solution with [n] routes the file holds [k * n] entries, and the
    [j]-th copy of the route of vehicle [v] is filed under vehicle
    [j * n + v]. *)
Theorem save_after_repeated_get_routes fuel pr e ps h l fs k :
  engine_contract fuel pr e ps ->
  let w := Solution_init pr e h l fs in
  let n := length (vehicles pr) in
  exists w' saved,
    (call_get_routes fuel k ≫= fun _ => save_to_file fuel) w = (Ret tt, w')
    /\ files w' !! result_path pr = Some (Some saved)
    /\ result_cost saved = cost_of pr e ps
    /\ length (result_routes saved) = (k * n)%nat
    /\ (forall j v r, (j < k)%nat -> ps !! v = Some r ->
          result_routes saved !! (j * n + v)%nat
          = Some {| entry_vehicle := (j * n + v)%nat;
                    entry_route := route_nodes e r |}).
Proof.
  intros Hc w n.
  destruct (contract_all_nodes _ _ _ _ Hc) as [Hps Hv].
  destruct Hc as [Hn Hps' _ _ _].
  assert (length (route_nodes e <$> ps) = n) as Hlen.
  { rewrite length_fmap, (routes_upto_length _ _ _ _ Hps'). exact Hn. }
  rewrite run_bind, (call_get_routes_run fuel k w ps []);
    [|done|apply Solution_init_routes].
  rewrite (save_to_file_exact fuel _
             (mjoin (replicate k (route_nodes e <$> ps))) (cost_of pr e ps)).
  - eexists _, _. split; [reflexivity|]. simpl.
    rewrite lookup_insert_eq. split; [reflexivity|]. simpl.
    split; [done|]. split.
    + by rewrite length_imap, length_join_replicate, Hlen.
    + intros j v r Hj Hr. rewrite list_lookup_imap.
      rewrite <- Hlen at 1.
      rewrite (lookup_join_replicate _ k j v (route_nodes e r));
        [done|done|by rewrite list_lookup_fmap, Hr].
  - simpl. by rewrite lookup_insert_eq.
  - intros w' Hp He. simpl in Hp, He.
    rewrite (evaluate_cost_exact fuel w' ps); rewrite ?Hp, ?He; done.
Qed.

Lemma save_after_repeated_get_routes_witness :
  let pr := Scenario.two_customers [20; 20] 60 100 in
  let e := Scenario.idle_second_vehicle in
  let w := Solution_init pr e ∅ [] ∅ in
  exists w' saved,
    (call_get_routes 10 2 ≫= fun _ => save_to_file 10) w = (Ret tt, w')
    /\ files w' !! result_path pr = Some (Some saved)
    /\ length (result_routes saved) = 4%nat
    /\ result_routes saved !! 3%nat
       = Some {| entry_vehicle := 3; entry_route := [0; 0] |}.
Proof.
  intros pr e w.
  destruct (save_after_repeated_get_routes 10 pr e [([0; 1; 2], 4); ([3], 5)]
              ∅ [] ∅ 2)
    as (w' & saved & Hrun & Hfile & _ & Hlen & Hentry).
  { constructor; try reflexivity; repeat constructor;
      try discriminate; vm_compute; congruence. }
  exists w', saved. split; [exact Hrun|]. split; [exact Hfile|].
  split; [exact Hlen|]. exact (Hentry 1%nat 1%nat ([3], 5) (le_n 2) eq_refl).
Defined.

(** *** A save that fails *)

(** X5. [save_to_file] opens the file for writing before it evaluates the
    cost: when the evaluation raises, the exception leaves the method, the
    file is left empty, whatever it held, and nothing else is changed. *)
Theorem failed_save_empties_the_file fuel w x :
  fst (evaluate_cost fuel w) = Raise x ->
  exists w',
    save_to_file fuel w = (Raise x, w')
    /\ files w' = <[result_path (problem (self w)) := None]> (files w)
    /\ self w' = self w /\ heap w' = heap w /\ log w' = log w.
Proof.
  intros Hx. unfold save_to_file.
  rewrite run_bind. unfold self_problem at 1, gets.
  rewrite run_bind. unfold modify at 1.
  rewrite run_bind. unfold self_routes at 1, gets.
  rewrite run_bind, run_bind.
  match goal with |- context [evaluate_cost fuel ?w1] =>
    destruct (evaluate_cost_shape fuel (problem (self w)) (engine (self w)))
      as [r Hr];
    rewrite (Hr w eq_refl eq_refl) in Hx;
    rewrite (Hr w1 eq_refl eq_refl)
  end.
  simpl in Hx. subst r. eexists. split; [reflexivity|]. done.
Qed.

Lemma failed_save_empties_the_file_witness :
  let pr := Scenario.two_customers [20] 60 100 in
  let earlier := {| result_routes := []; result_cost := 80 |} in
  let w := Solution_init pr stray_node ∅ []
             {[ result_path pr := Some earlier ]} in
  files w !! result_path pr = Some (Some earlier)
  /\ exists w',
       save_to_file 10 w = (Raise IndexError, w')
       /\ files w' !! result_path pr = Some None.
Proof.
  intros pr earlier w. split; [reflexivity|].
  destruct (failed_save_empties_the_file 10 w IndexError)
    as (w' & Hrun & Hfiles & _); [reflexivity|].
  exists w'. split; [exact Hrun|]. rewrite Hfiles. reflexivity.
Defined.

(** *** The first violation *)

Lemma info_only_app P d1 d2 :
  info_only P d1 -> info_only P d2 -> info_only P (d1 ++ d2).
Proof. unfold info_only. rewrite Forall_app. by split. Qed.

Lemma info_only_weaken (P Q : message -> Prop) d :
  (forall m, P m -> Q m) -> info_only P d -> info_only Q d.
Proof.
  intros HPQ H. eapply Forall_impl; [exact H|].
  intros rec [? ?]. split; [done|by apply HPQ].
Qed.

(** The capacity stage: its records are INFO records of that stage, up to
    the warning for the first overloaded route, which ends it. *)
Lemma capacity_fold_trace fuel e vs ps w :
  Forall2 (fun v r => walk fuel e (Start e v) = Some r) vs ps ->
  Forall (fun r => Forall (fun i => valid_node (problem (self w))
                                      (IndexToNode e i)) r.1) ps ->
  (vs <> [] -> vehicles (problem (self w)) <> []) ->
  exists d,
    for_each vs (capacity_check_body fuel e) w
    = (Ret (if capacity_ok (problem (self w)) e ps then None else Some false),
       set_log (fun l => l ++ d) w)
    /\ match list_find (fun r => overloaded (problem (self w)) e r = true) ps
       with
       | None => capacity_ok (problem (self w)) e ps = true
                 /\ info_only (fun m => ~ time_window_record m) d
       | Some (k, _) =>
           capacity_ok (problem (self w)) e ps = false
           /\ exists v d0,
                vs !! k = Some v
                /\ d = d0 ++ [(WARNING, CapacityNotOK v)]
                /\ info_only (fun m => ~ time_window_record m) d0
       end.
Proof.
  intros Hw. revert w.
  induction Hw as [|v r vs ps Hr Hw IH]; intros w Hv Hne.
  - exists []. simpl. rewrite set_log_nil. repeat split. constructor.
  - apply Forall_cons in Hv as [Hv1 Hv].
    destruct (vehicles (problem (self w))) as [|v0 vehs] eqn:Hvehs;
      [by destruct Hne|].
    assert (first_capacity (problem (self w)) = capacity v0) as Hfc
      by (unfold first_capacity; by rewrite Hvehs).
    simpl for_each. rewrite run_bind.
    unfold capacity_check_body at 1, logging_info.
    rewrite run_bind, logging_run, run_bind.
    rewrite (capacity_walk_run _ _ _ r) by done.
    simpl problem. rewrite run_bind. unfold self_problem at 1, gets, lift.
    rewrite run_bind. simpl problem. rewrite Hvehs, getitem_0, Z.add_0_l.
    assert (overloaded (problem (self w)) e r
            = negb (route_demand (problem (self w)) e r <=? capacity v0))
      as Hov by (unfold overloaded; by rewrite Hfc).
    simpl capacity_ok. simpl list_find. rewrite Hfc.
    destruct (decide (overloaded (problem (self w)) e r = true)) as [Ho|Ho];
      rewrite Hov in Ho;
      destruct (route_demand (problem (self w)) e r <=? capacity v0) eqn:Hle;
      simpl in Ho; try done; simpl; [|clear Ho].
    2:{ match goal with |- context [for_each vs _ ?w'] =>
        destruct (IH w') as (d & Hrun & Htrace);
          [done|intros _; simpl; by rewrite Hvehs|]
      end.
      simpl in Hrun, Htrace. rewrite Hrun, !set_log_set_log.
      eexists. split; [reflexivity|].
      destruct (list_find _ ps) as [[k r']|]; simpl.
      * destruct Htrace as (Hok & v' & d0 & Hk & -> & Hd0).
        split; [done|]. exists v', ([(INFO, CapacityCheckStart v)]
                                     ++ [(INFO, CapacityOK v)] ++ d0).
        split; [done|]. split; [by rewrite <- !app_assoc|].
        repeat apply info_only_app; try done;
          by repeat constructor; simpl; try tauto.
      * destruct Htrace as [Hok Hd]. split; [done|].
        repeat apply info_only_app; try done;
          by repeat constructor; simpl; try tauto. }
    rewrite run_ret, set_log_set_log. eexists. split; [reflexivity|].
    split; [done|]. exists v, [(INFO, CapacityCheckStart v)].
    split; [done|]. split; [done|]. by repeat constructor; simpl; try tauto.
Qed.

(** The inner loop of the time-window stage: INFO records up to the
    warning for the first index that fails the test; the warning names
    the node of the index before it. *)
Lemma time_window_walk_trace fuel e index r w :
  walk fuel e index = Some r ->
  Forall (fun i => valid_node (problem (self w)) (IndexToNode e i)) r.1 ->
  exists d,
    time_window_walk fuel e (depot (problem (self w))) index w
    = (Ret (if forallb (window_ok (problem (self w)) e) r.1
            then None else Some false),
       set_log (fun l => l ++ d) w)
    /\ match list_find (fun i => window_ok (problem (self w)) e i = false) r.1
       with
       | None => forallb (window_ok (problem (self w)) e) r.1 = true
                 /\ info_only (fun _ => True) d
       | Some (_, i) =>
           forallb (window_ok (problem (self w)) e) r.1 = false
           /\ exists d0,
                d = d0 ++ [(WARNING,
                            TimeWindowNotMet (IndexToNode e (i - 1)))]
                /\ info_only (fun _ => True) d0
       end.
Proof.
  revert index r w.
  induction fuel as [|fuel IH]; intros index r w H Hv; [done|].
  apply walk_step in H as [[Hend ->]|(Hend & l & z & H & ->)];
    simpl time_window_walk; rewrite Hend.
  - exists []. simpl. rewrite set_log_nil. repeat split. constructor.
  - simpl in Hv. apply Forall_cons in Hv as [Hi Hv].
    simpl forallb. simpl list_find.
    assert (window_ok (problem (self w)) e index
            = (IndexToNode e index =? depot (problem (self w)))
              || in_window (problem (self w)) e index) as Hwo by done.
    destruct (IndexToNode e index =? depot (problem (self w))) eqn:Hd.
    { simpl in Hwo. rewrite Hwo. simpl.
      destruct (decide (window_ok (problem (self w)) e index = false))
        as [Ho|_]; [congruence|].
      destruct (IH _ _ w H Hv) as (d & Hrun & Htrace). exists d.
      rewrite Hrun. split; [done|]. simpl in Htrace.
      by destruct (list_find _ l) as [[k i]|]. }
    simpl in Hwo.
    rewrite run_bind, (customer_at_run (problem (self w))) by done.
    destruct (getitem_valid _ _ Hi) as [c Hc]. rewrite Hc.
    assert (in_window (problem (self w)) e index
            = (ready_time c <=? CumulMin e index)
              && (CumulMin e index <=? due_date c)) as Hin
      by (unfold in_window; by rewrite Hc).
    rewrite Hin in Hwo. rewrite Hwo.
    destruct (decide (window_ok (problem (self w)) e index = false))
      as [Ho|Ho]; rewrite Hwo in Ho;
      destruct ((ready_time c <=? CumulMin e index)
                && (CumulMin e index <=? due_date c)); try done; simpl.
    + unfold logging_warning. rewrite run_bind, logging_run, run_ret.
      eexists. split; [reflexivity|]. split; [done|].
      exists []. split; [done|]. constructor.
    + unfold logging_info. rewrite run_bind, logging_run.
      destruct (IH _ _ (set_log (fun l => l ++
                  [(INFO, TimeWindowMet (IndexToNode e index))]) w) H Hv)
        as (d & Hrun & Htrace).
      simpl in Htrace.
      exists ((INFO, TimeWindowMet (IndexToNode e index)) :: d).
      split.
      * etrans; [exact Hrun|]. simpl. by rewrite set_log_set_log.
      * destruct (list_find _ l) as [[k i]|]; simpl.
        -- destruct Htrace as (Hf & d0 & -> & Hd0). split; [done|].
           exists ((INFO, TimeWindowMet (IndexToNode e index)) :: d0).
           split; [done|]. by constructor.
        -- destruct Htrace as [Hf Hd']. split; [done|]. by constructor.
Qed.

Lemma find_snd_app {A} (P : A -> Prop) `{!forall a, Decision (P a)}
    (l1 l2 : list A) :
  snd <$> list_find P (l1 ++ l2)
  = match snd <$> list_find P l1 with
    | Some a => Some a
    | None => snd <$> list_find P l2
    end.
Proof.
  induction l1 as [|a l1 IH]; [done|]. simpl.
  destruct (decide (P a)); [done|].
  destruct (list_find P (l1 ++ l2)) as [[k b]|],
    (list_find P l1) as [[k1 b1]|]; simpl in *; try done.
Qed.

Lemma time_window_fold_trace fuel e vs ps w :
  Forall2 (fun v r => walk fuel e (Start e v) = Some r) vs ps ->
  Forall (fun r => Forall (fun i => valid_node (problem (self w))
                                      (IndexToNode e i)) r.1) ps ->
  exists d,
    for_each vs (time_window_check_body fuel e (problem (self w))) w
    = (Ret (if windows_ok (problem (self w)) e ps then None else Some false),
       set_log (fun l => l ++ d) w)
    /\ match first_late (problem (self w)) e ps with
       | None => windows_ok (problem (self w)) e ps = true
                 /\ info_only (fun _ => True) d
       | Some i =>
           windows_ok (problem (self w)) e ps = false
           /\ exists d0,
                d = d0 ++ [(WARNING,
                            TimeWindowNotMet (IndexToNode e (i - 1)))]
                /\ info_only (fun _ => True) d0
       end.
Proof.
  intros Hw. revert w.
  induction Hw as [|v r vs ps Hr Hw IH]; intros w Hv.
  - exists []. simpl. rewrite set_log_nil. repeat split. constructor.
  - apply Forall_cons in Hv as [Hv1 Hv].
    simpl for_each. rewrite run_bind.
    unfold time_window_check_body at 1, logging_info.
    rewrite run_bind, logging_run, run_bind.
    match goal with |- context [time_window_walk _ _ _ _ ?w'] =>
      destruct (time_window_walk_trace fuel e (Start e v) r w' Hr Hv1)
        as (d1 & Hrun1 & Htrace1)
    end.
    simpl in Hrun1, Htrace1. rewrite Hrun1, set_log_set_log.
    unfold first_late. rewrite fmap_cons. simpl mjoin. rewrite find_snd_app.
    simpl windows_ok.
    destruct (list_find _ r.1) as [[k i]|]; simpl.
    + destruct Htrace1 as (Hf & d0 & -> & Hd0). rewrite Hf. simpl.
      rewrite run_ret. eexists. split; [reflexivity|]. split; [done|].
      exists ((INFO, TimeWindowCheckStart v) :: d0). split; [done|].
      by constructor.
    + destruct Htrace1 as [Hf Hd1]. rewrite Hf. simpl.
      rewrite set_log_set_log.
      match goal with |- context [for_each vs _ ?w'] =>
        destruct (IH w' Hv) as (d & Hrun & Htrace)
      end.
      simpl in Htrace. unfold first_late in Htrace.
      eexists. split.
      * etrans; [exact Hrun|]. simpl. by rewrite set_log_set_log.
      * destruct (snd <$> list_find _ (mjoin (fst <$> ps))) as [i|].
        -- destruct Htrace as (Hok & d0 & -> & Hd0). split; [done|].
           eexists. split; [exact (app_assoc _ _ _)|].
           apply info_only_app; [|done]. constructor; [done|].
           apply (info_only_app (fun _ => True)); [done|by repeat constructor].
        -- destruct Htrace as [Hok Hd]. split; [done|].
           apply info_only_app; [|done]. constructor; [done|].
           apply (info_only_app (fun _ => True)); [done|by repeat constructor].
Qed.

(** X6. Under the engine contract the log of a validation ends as follows:
    with the warning for the first vehicle, by number, whose route
    carries more than the capacity of vehicle 0, before any time-window
    record; else with the warning for the first index, in vehicle order
    and visit order, that fails the time-window test, naming the node of
    the index just before it; else with INFO records only. The verdict is
    False in the first two cases and True in the third. *)
Theorem first_violation_is_reported fuel w ps :
  engine_contract fuel (problem (self w)) (engine (self w)) ps ->
  let pr := problem (self w) in
  let e := engine (self w) in
  exists d,
    log (snd (feasible fuel w)) = log w ++ d
    /\ match first_overloaded pr e ps with
       | Some v =>
           fst (feasible fuel w) = Ret false
           /\ exists d0, d = d0 ++ [(WARNING, CapacityNotOK v)]
                         /\ info_only (fun m => ~ time_window_record m) d0
       | None =>
           match first_late pr e ps with
           | Some i =>
               fst (feasible fuel w) = Ret false
               /\ exists d0,
                    d = d0 ++ [(WARNING,
                                TimeWindowNotMet (IndexToNode e (i - 1)))]
                    /\ info_only (fun _ => True) d0
           | None =>
               fst (feasible fuel w) = Ret true
               /\ info_only (fun _ => True) d
           end
       end.
Proof.
  intros Hc pr e.
  destruct (contract_all_nodes _ _ _ _ Hc) as [Hps Hnodes].
  destruct Hc as [Hn Hps' _ _ _]. fold pr e in Hn, Hps, Hps', Hnodes.
  pose proof Hps' as Hf2. apply mapM_Some in Hf2.
  pose proof (Forall_nodes_inner _ _ _ Hnodes) as Hinner.
  destruct (feasible fuel w) as [verdict w'] eqn:Hrun.
  cbn [fst snd]. revert Hrun.
  unfold feasible, logging_info.
  rewrite run_bind. unfold self_problem at 1, gets.
  rewrite run_bind, logging_run, run_bind.
  unfold capacity_checks. rewrite run_bind. unfold self_engine at 1, gets.
  simpl engine. fold pr e.
  match goal with |- context [for_each _ _ ?w1] =>
    destruct (capacity_fold_trace fuel e _ ps w1 Hf2 Hinner)
      as (d1 & Hrun1 & Htrace1)
  end.
  { simpl. fold pr. rewrite Hn. by destruct (vehicles pr). }
  simpl in Hrun1, Htrace1. fold pr in Hrun1, Htrace1.
  rewrite Hrun1, set_log_set_log. unfold first_overloaded.
  destruct (list_find _ ps) as [[k r]|]; simpl.
  { destruct Htrace1 as (Hok & v & d0 & Hk & -> & Hd0). rewrite Hok. simpl.
    apply lookup_seq in Hk as [-> _]. simpl. intros [= <- <-].
    eexists. split; [reflexivity|]. split; [done|].
    exists ((INFO, InstanceHeader (problem_id pr)) :: d0).
    split; [done|]. constructor; [|done]. simpl. tauto. }
  destruct Htrace1 as [Hok Hd1]. rewrite Hok. simpl.
  rewrite run_bind. unfold time_window_checks.
  rewrite run_bind. unfold self_engine at 1, gets. simpl engine.
  rewrite run_bind. unfold self_problem at 1, gets. simpl problem.
  fold pr e. rewrite <- Hn.
  match goal with |- context [for_each _ _ ?w1] =>
    destruct (time_window_fold_trace fuel e _ ps w1 Hf2 Hinner)
      as (d2 & Hrun2 & Htrace2)
  end.
  simpl in Hrun2, Htrace2. fold pr in Hrun2, Htrace2.
  rewrite Hrun2, set_log_set_log.
  assert (info_only (fun _ => True)
            ([(INFO, InstanceHeader (problem_id pr))] ++ d1)) as Hhead.
  { apply info_only_app; [by repeat constructor|].
    by apply (info_only_weaken (fun m => ~ time_window_record m)). }
  destruct (first_late pr e ps) as [i|].
  { destruct Htrace2 as (Hw & d0 & -> & Hd0). rewrite Hw. simpl.
    intros [= <- <-].
    eexists. split; [reflexivity|]. split; [done|].
    exists (([(INFO, InstanceHeader (problem_id pr))] ++ d1) ++ d0).
    split; [simpl; by rewrite <- app_assoc|].
    by apply info_only_app. }
  destruct Htrace2 as [Hw Hd2]. rewrite Hw. simpl.
  rewrite run_bind.
  match goal with |- context [evaluate_cost fuel ?w1] =>
    rewrite (evaluate_cost_exact fuel w1 ps)
  end; [|simpl; fold pr e; by rewrite <- ?Hn..].
  rewrite run_bind, logging_run, run_bind, logging_run, run_ret.
  intros [= <- <-].
  eexists. split; [simpl; rewrite <- !app_assoc; reflexivity|].
  split; [done|].
  apply info_only_app; [|by repeat constructor].
  by apply (info_only_app _ ([_] ++ d1) d2).
Qed.

Lemma first_violation_is_reported_witness :
  let pr := Scenario.two_customers [20] 10 50 in
  let e := Scenario.one_route in
  let w := Scenario.fresh_world pr e in
  first_late pr e [([0; 1; 2], 3)] = Some 2
  /\ IndexToNode e 2 = 2
  /\ exists d d0,
       log (snd (feasible 10 w)) = log w ++ d
       /\ fst (feasible 10 w) = Ret false
       /\ d = d0 ++ [(WARNING, TimeWindowNotMet 1)].
Proof.
  intros pr e w. split; [reflexivity|]. split; [reflexivity|].
  destruct (first_violation_is_reported 10 w [([0; 1; 2], 3)])
    as (d & Hlog & Hcase).
  { constructor; try reflexivity; repeat constructor; vm_compute; congruence. }
  change (first_overloaded _ _ _) with (@None nat) in Hcase.
  change (first_late _ _ _) with (Some 2) in Hcase.
  destruct Hcase as (Hverdict & d0 & Hd & _).
  exists d, d0. split; [exact Hlog|]. split; [exact Hverdict|exact Hd].
Defined.

(** *** The capacity test on a fleet of equal vehicles *)

Lemma forallb_false {A} (f : A -> bool) (l : list A) :
  forallb f l = false -> exists a, a ∈ l /\ f a = false.
Proof.
  induction l as [|a l IH]; [done|]. simpl.
  destruct (f a) eqn:Hfa; simpl.
  - intros H. destruct (IH H) as (b & Hb & Hfb). exists b.
    split; [by apply list_elem_of_further|done].
  - intros _. exists a. split; [apply list_elem_of_here|done].
Qed.

Lemma capacity_checks_run fuel w ps :
  engine_contract fuel (problem (self w)) (engine (self w)) ps ->
  fst (capacity_checks fuel w)
  = Ret (if capacity_ok (problem (self w)) (engine (self w)) ps
         then None else Some false).
Proof.
  intros Hc. destruct (contract_all_nodes _ _ _ _ Hc) as [_ Hnodes].
  destruct Hc as [Hn Hps _ _ _]. apply mapM_Some in Hps.
  unfold capacity_checks. rewrite run_bind. unfold self_engine, gets.
  destruct (capacity_checks_fold_run fuel (engine (self w)) _ ps w Hps)
    as (d & Hrun & _).
  - by apply Forall_nodes_inner.
  - rewrite Hn. by destruct (vehicles (problem (self w))).
  - by rewrite Hrun.
Qed.

Lemma first_capacity_uniform (pr : Problem) c v veh :
  uniform_fleet pr c -> vehicles pr !! v = Some veh ->
  first_capacity pr = c /\ capacity veh = c.
Proof.
  unfold uniform_fleet, first_capacity. intros Hu Hv.
  rewrite Forall_forall in Hu. split.
  - destruct (vehicles pr) as [|v0 vehs]; [done|].
    apply Hu, list_elem_of_here.
  - by apply Hu, (list_elem_of_lookup_2 _ v).
Qed.

(** X7. When all vehicles have the same capacity, as in every data set that
    [solomon_to_json] converts, the capacity stage of the validator fails
    exactly when some route carries more than the capacity of its own
    vehicle, and passes exactly when none does. *)
Theorem capacity_check_on_equal_vehicles fuel w ps c :
  engine_contract fuel (problem (self w)) (engine (self w)) ps ->
  uniform_fleet (problem (self w)) c ->
  let pr := problem (self w) in
  let e := engine (self w) in
  (fst (capacity_checks fuel w) = Ret (Some false) <->
   exists v r veh, ps !! v = Some r /\ vehicles pr !! v = Some veh
                   /\ capacity veh < route_demand pr e r)
  /\ (fst (capacity_checks fuel w) = Ret None <->
      forall v r veh, ps !! v = Some r -> vehicles pr !! v = Some veh ->
                      route_demand pr e r <= capacity veh).
Proof.
  intros Hc Hu pr e. rewrite (capacity_checks_run fuel w ps Hc). fold pr e.
  assert (length ps = length (vehicles pr)) as Hlen.
  { destruct Hc as [Hn Hps _ _ _].
    by rewrite (routes_upto_length _ _ _ _ Hps). }
  assert (capacity_ok pr e ps = true <->
          forall v r veh, ps !! v = Some r -> vehicles pr !! v = Some veh ->
                          route_demand pr e r <= capacity veh) as Hok.
  { unfold capacity_ok. rewrite forallb_forall. split.
    - intros H v r veh Hr Hveh.
      destruct (first_capacity_uniform pr c v veh Hu Hveh) as [Hfc ->].
      rewrite <- Hfc. apply Z.leb_le, H, list_elem_of_In.
      by apply (list_elem_of_lookup_2 _ v).
    - intros H r Hr. apply list_elem_of_In, list_elem_of_lookup in Hr as [v Hr].
      destruct (lookup_lt_is_Some_2 (vehicles pr) v) as [veh Hveh].
      { rewrite <- Hlen. by apply lookup_lt_Some in Hr. }
      destruct (first_capacity_uniform pr c v veh Hu Hveh) as [-> Hcap].
      rewrite <- Hcap. apply Z.leb_le. by apply (H v r veh). }
  destruct (capacity_ok pr e ps) eqn:Hcap; split; split; try done.
  - intros (v & r & veh & Hr & Hveh & Hlt).
    pose proof (proj1 Hok eq_refl v r veh Hr Hveh). lia.
  - intros _. by apply Hok.
  - intros _. apply forallb_false in Hcap as (r & Hr & Hle).
    apply list_elem_of_lookup in Hr as [v Hr].
    destruct (lookup_lt_is_Some_2 (vehicles pr) v) as [veh Hveh].
    { rewrite <- Hlen. by apply lookup_lt_Some in Hr. }
    destruct (first_capacity_uniform pr c v veh Hu Hveh) as [Hfc Hveh'].
    exists v, r, veh. split; [done|]. split; [done|].
    apply Z.leb_gt in Hle. lia.
  - intros H. apply Hok in H. congruence.
Qed.

Lemma capacity_check_on_equal_vehicles_witness :
  let pr := Scenario.two_customers [15; 15] 60 100 in
  let e := Scenario.idle_second_vehicle in
  let w := Scenario.fresh_world pr e in
  fst (capacity_checks 10 w) = Ret (Some false).
Proof.
  intros pr e w.
  apply (capacity_check_on_equal_vehicles 10 w [([0; 1; 2], 4); ([3], 5)] 15).
  - constructor; try reflexivity; repeat constructor;
      try discriminate; vm_compute; congruence.
  - repeat constructor.
  - exists 0%nat, ([0; 1; 2], 4), {| vehicle_id := 0; capacity := 15 |}.
    repeat split; vm_compute; reflexivity.
Defined.




(** *** What a validation that does not accept leaves behind *)

Lemma logs_only_reads_only {A} (m : M World A) : reads_only m -> logs_only m.
Proof.
  intros Hm w. destruct (Hm (problem (self w)) (engine (self w))) as [r Hr].
  exists []. by rewrite (Hr w eq_refl eq_refl), set_log_nil.
Qed.

Lemma logs_only_bind {A B} (m : M World A) (k : A -> M World B) :
  logs_only m -> (forall a, logs_only (k a)) -> logs_only (m ≫= k).
Proof.
  intros Hm Hk w. destruct (Hm w) as [d1 H1]. rewrite run_bind.
  destruct (m w) as [[a|x|] w1]; simpl in H1; subst w1;
    [|by exists d1..].
  destruct (Hk a (set_log (fun l => l ++ d1) w)) as [d2 H2].
  exists (d1 ++ d2). by rewrite H2, set_log_set_log.
Qed.

Lemma logs_only_logging lv msg : logs_only (logging lv msg).
Proof. intros w. by exists [(lv, msg)]. Qed.

Lemma logs_only_for_each {A R} (l : list A) (body : A -> M World (option R)) :
  (forall a, logs_only (body a)) -> logs_only (for_each l body).
Proof.
  intros Hbody. induction l as [|a l IH]; simpl.
  - apply logs_only_reads_only, reads_only_ret.
  - apply logs_only_bind; [apply Hbody|].
    intros [v|]; [apply logs_only_reads_only, reads_only_ret|apply IH].
Qed.

#[local] Hint Resolve reads_only_ret reads_only_lift reads_only_out_of_fuel
  reads_only_self_problem reads_only_self_engine reads_only_customer_at
  capacity_walk_reads_only : effects.

Ltac logs_step :=
  first
    [ solve [apply logs_only_logging]
    | solve [apply logs_only_reads_only; eauto with effects]
    | apply logs_only_bind; [|intros ?]
    | apply logs_only_for_each; intros ?
    | match goal with |- context [match ?o with Some _ => _ | None => _ end] =>
        destruct o end
    | match goal with |- context [if ?b then _ else _] => destruct b end ].

Lemma time_window_walk_logs_only fuel e dp index :
  logs_only (time_window_walk fuel e dp index).
Proof.
  revert index. induction fuel as [|fuel IH]; intros index; simpl;
    unfold logging_info, logging_warning; repeat logs_step; try apply IH.
Qed.

Lemma capacity_checks_logs_only fuel : logs_only (capacity_checks fuel).
Proof.
  unfold capacity_checks, capacity_check_body, logging_info, logging_warning.
  repeat logs_step.
Qed.

Lemma time_window_checks_logs_only fuel :
  logs_only (time_window_checks fuel).
Proof.
  unfold time_window_checks, time_window_check_body, logging_info.
  repeat logs_step; apply time_window_walk_logs_only.
Qed.

(** X8. A validation that does not return True, because it rejects the
    solution or because it raises, leaves the Solution object, the routes
    and the files as they were: its only trace is in the log. *)
Theorem validation_without_acceptance_only_logs fuel w :
  fst (feasible fuel w) <> Ret true ->
  exists d, snd (feasible fuel w) = set_log (fun l => l ++ d) w.
Proof.
  destruct (feasible fuel w) as [verdict w'] eqn:Hrun. cbn [fst snd].
  revert Hrun. unfold feasible, logging_info.
  rewrite run_bind. unfold self_problem at 1, gets.
  rewrite run_bind, logging_run, run_bind.
  match goal with |- context [capacity_checks fuel ?w1] =>
    destruct (capacity_checks_logs_only fuel w1) as [d1 H1];
    destruct (capacity_checks fuel w1) as [[[b|]|x|] w2];
    simpl in H1; subst w2; rewrite ?set_log_set_log
  end; try (intros [= <- <-] _; eexists; reflexivity).
  rewrite run_bind.
  match goal with |- context [time_window_checks fuel ?w1] =>
    destruct (time_window_checks_logs_only fuel w1) as [d2 H2];
    destruct (time_window_checks fuel w1) as [[[b|]|x|] w2];
    simpl in H2; subst w2; rewrite ?set_log_set_log
  end; try (intros [= <- <-] _; eexists; reflexivity).
  rewrite run_bind.
  match goal with |- context [evaluate_cost fuel ?w1] =>
    destruct (evaluate_cost_shape fuel (problem (self w1)) (engine (self w1)))
      as [r Hr];
    rewrite (Hr w1 eq_refl eq_refl)
  end.
  destruct r as [c|x|]; try (intros [= <- <-] _; eexists; reflexivity).
  rewrite run_bind, logging_run, run_bind, logging_run, run_ret.
  by intros [= <- <-] [].
Qed.

Lemma validation_without_acceptance_only_logs_witness :
  let w := Scenario.fresh_world (Scenario.two_customers [20] 10 50)
             Scenario.one_route in
  exists d, snd (feasible 10 w) = set_log (fun l => l ++ d) w.
Proof.
  apply (validation_without_acceptance_only_logs 10
           (Scenario.fresh_world (Scenario.two_customers [20] 10 50)
              Scenario.one_route)).
  vm_compute. discriminate.
Defined.

(** *** Routes the validator was not written for *)

Lemma getitem_raises_IndexError {A} (l : list A) i :
  getitem l i <> OutOfFuel
  /\ forall x, getitem l i = Raise x -> x = IndexError.
Proof.
  unfold getitem. destruct ((_ <? 0) || (_ <=? _)).
  - split; [done|]. by intros x [= <-].
  - destruct (l !! _); split; try done; by intros x [= <-].
Qed.

Lemma capacity_walk_raises fuel e index r acc w :
  walk fuel e index = Some r ->
  Exists (fun i => getitem (customers (problem (self w))) (IndexToNode e i)
                   = Raise IndexError) r.1 ->
  capacity_walk fuel e index acc w = (Raise IndexError, w).
Proof.
  revert index r acc. induction fuel as [|fuel IH]; intros index r acc H Hx;
    [done|].
  apply walk_step in H as [[Hend ->]|(Hend & l & z & H & ->)]; simpl;
    rewrite Hend.
  - by apply Exists_nil in Hx.
  - simpl in Hx.
    rewrite run_bind, (customer_at_run (problem (self w))) by done.
    destruct (getitem_raises_IndexError (customers (problem (self w)))
                (IndexToNode e index)) as [H1 H2].
    destruct (getitem _ (IndexToNode e index)) as [c|x|] eqn:Hc; try done.
    + apply Exists_cons in Hx as [Hx|Hx]; [congruence|].
      by apply IH with (l, z).
    + by rewrite (H2 x eq_refl).
Qed.

(** X9. A route of vehicle 0 with an index whose node is not in the customer
    list is not reported as a violation: the validation raises
    [IndexError] while it adds up the demand of that route, having logged
    its header and the start of the check. *)
Theorem stray_node_raises_IndexError fuel w r :
  (0 < model_vehicles (engine (self w)))%nat ->
  walk fuel (engine (self w)) (Start (engine (self w)) 0) = Some r ->
  Exists (fun i => getitem (customers (problem (self w)))
                     (IndexToNode (engine (self w)) i) = Raise IndexError)
    r.1 ->
  feasible fuel w
  = (Raise IndexError,
     set_log (fun l => l ++ [(INFO, InstanceHeader
                                      (problem_id (problem (self w))));
                             (INFO, CapacityCheckStart 0)]) w).
Proof.
  intros Hn Hr Hx. unfold feasible, logging_info.
  rewrite run_bind. unfold self_problem at 1, gets.
  rewrite run_bind, logging_run, run_bind.
  unfold capacity_checks. rewrite run_bind. unfold self_engine at 1, gets.
  simpl engine.
  destruct (model_vehicles (engine (self w))) as [|n]; [lia|].
  simpl seq. simpl for_each. rewrite run_bind.
  unfold capacity_check_body at 1, logging_info.
  rewrite run_bind, logging_run, run_bind.
  rewrite (capacity_walk_raises _ _ _ r); [|done|done].
  by rewrite set_log_set_log.
Qed.

Lemma stray_node_raises_IndexError_witness :
  let w := Scenario.fresh_world (Scenario.two_customers [20] 60 100)
             stray_node in
  fst (feasible 10 w) = Raise IndexError.
Proof.
  intros w.
  rewrite (stray_node_raises_IndexError 10 w ([0; 1], 2)); [reflexivity|..].
  - vm_compute. lia.
  - reflexivity.
  - apply Exists_cons_tl, Exists_cons_hd. reflexivity.
Defined.

(** X10. The validator does not ask that customers are served: when every
    vehicle goes from its start straight to its end and the demand of the
    depot is within the capacity of vehicle 0, the solution is accepted,
    whatever customers the problem has. *)
Theorem idle_routes_are_accepted fuel w ps :
  engine_contract fuel (problem (self w)) (engine (self w)) ps ->
  Forall (fun r => length r.1 = 1%nat) ps ->
  demand_at (problem (self w)) (depot (problem (self w)))
  <= first_capacity (problem (self w)) ->
  fst (feasible fuel w) = Ret true.
Proof.
  intros Hc Hidle Hdemand.
  destruct (feasible_run fuel w ps Hc) as (d & w' & Hrun & _).
  rewrite Hrun. simpl. f_equal.
  destruct Hc as [_ _ _ _ Hdepot].
  apply andb_true_iff. split.
  - apply forallb_forall. intros r Hr. apply list_elem_of_In in Hr.
    rewrite Forall_forall in Hidle, Hdepot.
    specialize (Hidle r Hr). destruct (Hdepot r Hr) as [Hhead _].
    destruct r as [[|s [|? ?]] z]; try done.
    unfold route_nodes, indices in Hhead. simpl in Hhead.
    injection Hhead as Hs.
    unfold route_demand. simpl. rewrite Hs. apply Z.leb_le. lia.
  - apply windows_ok_true. intros r i Hr Hi.
    rewrite Forall_forall in Hidle, Hdepot.
    specialize (Hidle r Hr). destruct (Hdepot r Hr) as [Hhead _].
    destruct r as [[|s [|? ?]] z]; try done.
    unfold route_nodes, indices in Hhead. simpl in Hhead, Hi.
    injection Hhead as Hs. apply list_elem_of_singleton in Hi as ->.
    unfold window_ok. rewrite Hs, Z.eqb_refl. done.
Qed.

Lemma idle_routes_are_accepted_witness :
  let pr := Scenario.two_customers [20] 60 100 in
  let w := Scenario.fresh_world pr idle_fleet in
  length (customers pr) = 3%nat /\ fst (feasible 10 w) = Ret true.
Proof.
  intros pr w. split; [reflexivity|].
  apply (idle_routes_are_accepted 10 w [([0], 3)]).
  - constructor; try reflexivity; repeat constructor;
      try discriminate; vm_compute; congruence.
  - repeat constructor.
  - vm_compute. discriminate.
Defined.

End ReportProps.

(* ===================================================================== *)
(** ** Properties of the data set conversion                               *)
(* ===================================================================== *)

Module DatasetProps.
Import OrtoolsSolver SolverRun RunSpec PyProps.

(** *** Lists of fallible steps *)

Lemma mapM_Ret {A B} (f : A -> res B) (l : list A) (k : list B) :
  mapM f l = Ret k <-> Forall2 (fun a b => f a = Ret b) l k.
Proof.
  revert k. induction l as [|a l IH]; intros k; simpl.
  - split; [by intros [= <-]; constructor|by inversion 1].
  - split.
    + intros H. apply bind_Ret in H as (b & Hb & H).
      apply bind_Ret in H as (k' & Hk' & [= <-]).
      constructor; [done|by apply IH].
    + inversion 1 as [|? b ? k' Hb Hk']; subst.
      apply IH in Hk'. by rewrite Hb, Hk'.
Qed.

Lemma mapM_app_Raise {A B} (f : A -> res B) (l1 l2 : list A) k1 a x :
  mapM f l1 = Ret k1 -> f a = Raise x ->
  mapM f (l1 ++ a :: l2) = Raise x.
Proof.
  revert k1. induction l1 as [|a1 l1 IH]; intros k1; simpl.
  - intros _ Ha. by rewrite Ha.
  - intros H Ha. apply bind_Ret in H as (b & Hb & H).
    apply bind_Ret in H as (k' & Hk' & _).
    by rewrite Hb, (IH k' Hk' Ha).
Qed.

Lemma getitem_Ret_nat {A} (l : list A) (k : nat) a :
  getitem l (Z.of_nat k) = Ret a <-> l !! k = Some a.
Proof.
  unfold getitem.
  destruct (Z.ltb_spec (Z.of_nat k) 0); [lia|].
  destruct (Z.ltb_spec (Z.of_nat k) 0); [lia|]. simpl.
  rewrite Nat2Z.id.
  destruct (Z.leb_spec (Z.of_nat (length l)) (Z.of_nat k)).
  - split; [done|]. intros Hk. apply lookup_lt_Some in Hk. lia.
  - destruct (l !! k) as [b|]; [|done]. split; by intros [= ->].
Qed.

Lemma int_Ret t z : VrpProblem.int t = Ret z <-> t = VrpProblem.Int z.
Proof. destruct t; simpl; split; by intros [= ->]. Qed.

Lemma int_part_Ret parts (k : nat) z :
  int_part parts (Z.of_nat k) = Ret z <-> parts !! k = Some (VrpProblem.Int z).
Proof.
  unfold int_part. split.
  - intros H. apply bind_Ret in H as (t & Ht & Hz).
    apply getitem_Ret_nat in Ht. apply int_Ret in Hz. by subst.
  - intros H. apply getitem_Ret_nat in H. by rewrite H.
Qed.

(** *** One line *)

Lemma customer_of_parts_Ret parts c :
  customer_of_parts parts = Ret c <-> take 7 parts = row_of c.
Proof.
  unfold customer_of_parts, row_of, ProblemSpec.row. split.
  - intros H.
    apply bind_Ret in H as (a0 & H0 & H). apply (int_part_Ret _ 0) in H0.
    apply bind_Ret in H as (a1 & H1 & H). apply (int_part_Ret _ 1) in H1.
    apply bind_Ret in H as (a2 & H2 & H). apply (int_part_Ret _ 2) in H2.
    apply bind_Ret in H as (a3 & H3 & H). apply (int_part_Ret _ 3) in H3.
    apply bind_Ret in H as (a4 & H4 & H). apply (int_part_Ret _ 4) in H4.
    apply bind_Ret in H as (a5 & H5 & H). apply (int_part_Ret _ 5) in H5.
    apply bind_Ret in H as (a6 & H6 & H). apply (int_part_Ret _ 6) in H6.
    injection H as <-.
    destruct parts as [|p0 [|p1 [|p2 [|p3 [|p4 [|p5 [|p6 rest]]]]]]];
      by simplify_eq/=.
  - intros H.
    destruct parts as [|p0 [|p1 [|p2 [|p3 [|p4 [|p5 [|p6 rest]]]]]]];
      simplify_eq/=.
    try (erewrite (proj2 (int_part_Ret _ 0 _)) by reflexivity; simpl).
    try (erewrite (proj2 (int_part_Ret _ 1 _)) by reflexivity; simpl).
    try (erewrite (proj2 (int_part_Ret _ 2 _)) by reflexivity; simpl).
    try (erewrite (proj2 (int_part_Ret _ 3 _)) by reflexivity; simpl).
    try (erewrite (proj2 (int_part_Ret _ 4 _)) by reflexivity; simpl).
    try (erewrite (proj2 (int_part_Ret _ 5 _)) by reflexivity; simpl).
    try (erewrite (proj2 (int_part_Ret _ 6 _)) by reflexivity; simpl).
    by destruct c.
Qed.

Lemma split_fleet_Ret fields a b :
  split_fleet fields = Ret (a, b) <-> fields = [a; b].
Proof.
  destruct fields as [|f0 [|f1 [|f2 rest]]]; simpl; split; try done;
    by intros [= -> ->].
Qed.

Lemma vehicle_of_Ret cap i v :
  vehicle_of cap i = Ret v
  <-> vehicle_id v = Z.of_nat i /\ cap = VrpProblem.Int (capacity v).
Proof.
  unfold vehicle_of. split.
  - intros H. apply bind_Ret in H as (c & Hc & [= <-]).
    apply int_Ret in Hc. by subst.
  - intros [Hi ->]. simpl. destruct v; simpl in *. by subst.
Qed.

(** *** The conversion *)

Lemma solomon_to_json_inv lines d :
  solomon_to_json lines = Ret d ->
  exists n cap,
    lines !! 4%nat = Some [VrpProblem.Int n; cap]
    /\ mapM customer_of_parts (drop 9 lines) = Ret (data_customers d)
    /\ mapM (vehicle_of cap) (seq 0 (Z.to_nat n)) = Ret (data_vehicles d).
Proof.
  unfold solomon_to_json. intros H.
  apply bind_Ret in H as (fleet & Hfleet & H).
  apply (getitem_Ret_nat _ 4) in Hfleet.
  apply bind_Ret in H as ([count cap] & Hsplit & H).
  apply split_fleet_Ret in Hsplit as ->.
  apply bind_Ret in H as (cs & Hcs & H).
  apply bind_Ret in H as (n & Hn & H).
  apply bind_Ret in H as (vs & Hvs & [= <-]).
  apply int_Ret in Hn as ->.
  by exists n, cap.
Qed.

(** X11. [solomon_to_json] succeeds exactly on the files whose line 4 has
    two fields, the first an integer [n], and whose lines from line 9 on
    all start with seven integer fields; the customers are then these
    lines in order, fields beyond the seventh being ignored, and the
    vehicles are numbered [0 .. n-1], each with the capacity that the
    second field of line 4 denotes, which must be an integer unless
    [n <= 0]. Lines 0 to 3 and 5 to 8 are never looked at. *)
Theorem solomon_to_json_spec lines d :
  solomon_to_json lines = Ret d
  <-> exists n cap,
        lines !! 4%nat = Some [VrpProblem.Int n; cap]
        /\ Forall2 (fun parts c => take 7 parts = row_of c)
             (drop 9 lines) (data_customers d)
        /\ Forall2 (fun i v => vehicle_id v = Z.of_nat i
                               /\ cap = VrpProblem.Int (capacity v))
             (seq 0 (Z.to_nat n)) (data_vehicles d).
Proof.
  split.
  - intros H. apply solomon_to_json_inv in H as (n & cap & Hfleet & Hcs & Hvs).
    exists n, cap. split; [done|]. split.
    + apply mapM_Ret in Hcs. eapply Forall2_impl; [exact Hcs|].
      intros parts c. apply customer_of_parts_Ret.
    + apply mapM_Ret in Hvs. eapply Forall2_impl; [exact Hvs|].
      intros i v. apply vehicle_of_Ret.
  - intros (n & cap & Hfleet & Hcs & Hvs). unfold solomon_to_json.
    apply (getitem_Ret_nat _ 4) in Hfleet.
    change (Z.of_nat 4) with 4 in Hfleet. rewrite Hfleet. simpl.
    assert (mapM customer_of_parts (drop 9 lines) = Ret (data_customers d))
      as ->.
    { apply mapM_Ret. eapply Forall2_impl; [exact Hcs|].
      intros parts c. apply customer_of_parts_Ret. }
    simpl.
    assert (mapM (vehicle_of cap) (seq 0 (Z.to_nat n))
            = Ret (data_vehicles d)) as ->.
    { apply mapM_Ret. eapply Forall2_impl; [exact Hvs|].
      intros i v. apply vehicle_of_Ret. }
    simpl. by destruct d.
Qed.

Lemma solomon_to_json_spec_witness :
  solomon_to_json ProblemSpec.small_instance
  = Ret {| data_vehicles :=
             (fun i => {| vehicle_id := Z.of_nat i; capacity := 200 |})
             <$> seq 0 25;
           data_customers :=
             [ {| id := 0; x := 40; y := 50; demand := 0; ready_time := 0;
                  due_date := 1236; service_time := 0 |};
               {| id := 1; x := 43; y := 54; demand := 10; ready_time := 10;
                  due_date := 50; service_time := 5 |};
               {| id := 2; x := 40; y := 62; demand := 10; ready_time := 60;
                  due_date := 100; service_time := 5 |} ] |}.
Proof.
  apply solomon_to_json_spec. exists 25, (VrpProblem.Int 200).
  split; [reflexivity|]. split.
  - simpl. repeat (constructor; [reflexivity|]). constructor.
  - simpl. repeat (constructor; [by split|]). constructor.
Defined.

(** X12. The problem that [scenario2] hands to the solver has a fleet of
    equal capacities, which is therefore the capacity the validator
    compares every route with; the vehicles are numbered by position, the
    depot is node 0 and there is one customer per line from line 9 on. *)
Theorem converted_problem_has_equal_vehicles lines name pr :
  dataset_problem lines name = Ret pr ->
  uniform_fleet pr (SolutionSpec.first_capacity pr)
  /\ (forall i v, vehicles pr !! i = Some v -> vehicle_id v = Z.of_nat i)
  /\ length (customers pr) = (length lines - 9)%nat
  /\ depot pr = 0
  /\ problem_id pr = name.
Proof.
  unfold dataset_problem. intros H.
  apply bind_Ret in H as (d & Hd & H).
  apply solomon_to_json_inv in Hd as (n & cap & _ & Hcs & Hvs).
  injection H as <-. simpl.
  apply mapM_Ret in Hcs. apply mapM_Ret in Hvs.
  split; [|split; [|split; [|done]]].
  - unfold uniform_fleet, SolutionSpec.first_capacity. simpl.
    destruct (data_vehicles d) as [|v0 vs] eqn:Hvs0; [by constructor|].
    assert (cap = VrpProblem.Int (capacity v0)) as ->.
    { inversion Hvs as [|? ? ? ? H0 _]; subst.
      by apply vehicle_of_Ret in H0 as [_ ?]. }
    apply Forall_forall. intros v Hv.
    apply list_elem_of_lookup in Hv as [i Hi].
    destruct (Forall2_lookup_r _ _ _ _ _ Hvs Hi) as (k & _ & Hk).
    apply vehicle_of_Ret in Hk as [_ Hk]. by injection Hk as ->.
  - intros i v Hi.
    destruct (Forall2_lookup_r _ _ _ _ _ Hvs Hi) as (k & Hk & Hv).
    apply vehicle_of_Ret in Hv as [Hv _].
    apply lookup_seq in Hk as [-> _]. by rewrite Hv.
  - apply Forall2_length in Hcs. by rewrite <- Hcs, length_drop.
Qed.

Lemma converted_problem_has_equal_vehicles_witness :
  exists pr,
    dataset_problem ProblemSpec.small_instance "C101.txt" = Ret pr
    /\ uniform_fleet pr 200
    /\ length (vehicles pr) = 25%nat
    /\ length (customers pr) = 3%nat.
Proof.
  eexists. split; [reflexivity|].
  destruct (converted_problem_has_equal_vehicles ProblemSpec.small_instance
              "C101.txt" _ eq_refl) as (Hu & _ & Hn & _).
  split; [exact Hu|]. split; [reflexivity|exact Hn].
Defined.

(** *** The two loaders on the same file *)

Lemma read_rows_app skiprows n l1 l2 st :
  VrpProblem.read_rows skiprows n (l1 ++ l2) st
  = VrpProblem.read_rows skiprows n l1 st
    ≫= VrpProblem.read_rows skiprows (n + length l1) l2.
Proof.
  revert n st. induction l1 as [|d l1 IH]; intros n st; simpl.
  - by rewrite Nat.add_0_r.
  - destruct (VrpProblem.read_row skiprows n d st) as [st'| |]; simpl;
      [|done..].
    by rewrite IH, Nat.add_succ_r.
Qed.

Lemma read_customer_skip data :
  length data <> 7%nat -> VrpProblem.read_customer data = Ret None.
Proof.
  destruct data as [|? [|? [|? [|? [|? [|? [|? [|? ?]]]]]]]]; simpl; done.
Qed.

Lemma read_row_skip skiprows n data st :
  n <> 4%nat -> length data <> 7%nat ->
  VrpProblem.read_row skiprows n data st = Ret st.
Proof.
  intros Hn Hd. unfold VrpProblem.read_row.
  destruct (Nat.eqb_spec n 4); [done|]. simpl.
  destruct (Z.of_nat n <=? skiprows); [done|].
  by rewrite read_customer_skip.
Qed.

(** X13. A blank line at the end of a file that [solomon_to_json]
    converts makes the conversion fail with an [IndexError], while
    [Problem.__init__] of the other solver loads the file as before. *)
Theorem trailing_blank_line lines d skiprows :
  solomon_to_json lines = Ret d ->
  (9 <= length lines)%nat ->
  solomon_to_json (lines ++ [[]]) = Raise IndexError
  /\ VrpProblem.Problem_init (lines ++ [[]]) skiprows
     = VrpProblem.Problem_init lines skiprows.
Proof.
  intros H Hlen. split.
  - apply solomon_to_json_inv in H as (n & cap & Hfleet & Hcs & _).
    unfold solomon_to_json.
    assert (getitem (lines ++ [[]]) 4 = Ret [VrpProblem.Int n; cap]) as ->.
    { apply (getitem_Ret_nat _ 4).
      rewrite lookup_app_l; [done|lia]. }
    simpl. rewrite drop_app_le by done.
    by rewrite (mapM_app_Raise _ _ [] _ [] IndexError Hcs eq_refl).
  - unfold VrpProblem.Problem_init. rewrite read_rows_app.
    destruct (VrpProblem.read_rows skiprows 0 lines _) as [st| |]; simpl;
      [|done..].
    rewrite read_row_skip; [done|lia|done].
Qed.

Lemma trailing_blank_line_witness :
  solomon_to_json (ProblemSpec.small_instance ++ [[]]) = Raise IndexError
  /\ VrpProblem.Problem_init (ProblemSpec.small_instance ++ [[]]) 0
     = VrpProblem.Problem_init ProblemSpec.small_instance 0.
Proof.
  eapply trailing_blank_line; [reflexivity|simpl; lia].
Defined.

Lemma read_row_fleet skiprows n c st :
  VrpProblem.read_row skiprows 4 [VrpProblem.Int n; VrpProblem.Int c] st
  = Ret {| VrpProblem.loaded_customers := VrpProblem.loaded_customers st;
           VrpProblem.loaded_vehicles := Some n;
           VrpProblem.loaded_capacity := Some c |}.
Proof. unfold VrpProblem.read_row. simpl. by destruct (_ <=? skiprows). Qed.

Lemma read_rows_header skiprows header n c st :
  length header = 9%nat ->
  header !! 4%nat = Some [VrpProblem.Int n; VrpProblem.Int c] ->
  Forall (fun line => length line <> 7%nat) header ->
  VrpProblem.read_rows skiprows 0 header st
  = Ret {| VrpProblem.loaded_customers := VrpProblem.loaded_customers st;
           VrpProblem.loaded_vehicles := Some n;
           VrpProblem.loaded_capacity := Some c |}.
Proof.
  intros Hlen H4 Hall.
  destruct header as [|l0 [|l1 [|l2 [|l3 [|l4 [|l5 [|l6 [|l7 [|l8 [|]]]]]]]]]];
    try done.
  injection H4 as ->.
  repeat (apply Forall_cons in Hall as [? Hall]).
  cbn [VrpProblem.read_rows].
  do 4 (rewrite read_row_skip by done; cbn [mbind res_bind]).
  rewrite read_row_fleet. cbn [mbind res_bind].
  by do 4 (rewrite read_row_skip by done; cbn [mbind res_bind]).
Qed.

Lemma read_rows_customers skiprows k (cs : list VrpProblem.Customer) st :
  (4 < k)%nat -> skiprows < Z.of_nat k ->
  VrpProblem.read_rows skiprows k (loaded_row <$> cs) st
  = Ret {| VrpProblem.loaded_customers := VrpProblem.loaded_customers st ++ cs;
           VrpProblem.loaded_vehicles := VrpProblem.loaded_vehicles st;
           VrpProblem.loaded_capacity := VrpProblem.loaded_capacity st |}.
Proof.
  revert k st. induction cs as [|c cs IH]; intros k st Hk Hskip; simpl.
  - rewrite app_nil_r. by destruct st.
  - unfold VrpProblem.read_row.
    destruct (Nat.eqb_spec k 4); [lia|]. simpl.
    destruct (Z.leb_spec (Z.of_nat k) skiprows); [lia|]. simpl.
    rewrite IH by lia. simpl. rewrite <- app_assoc. by destruct c.
Qed.

Lemma coordinates_fit : coordinate_bound + coordinate_bound <= VrpProblem.pow_limit.
Proof. by vm_compute. Qed.

(** No entry of the travel-time comprehension raises on customers that
    fit the floats. *)
Lemma travel_time_fits (cs : list VrpProblem.Customer) :
  Forall fits_float cs -> VrpProblem.travel_time_overflows cs = false.
Proof.
  intros Hfit. unfold VrpProblem.travel_time_overflows.
  destruct (existsb _ _) eqn:Hex; [|done]. exfalso.
  apply existsb_exists in Hex as (b & Hb & ->).
  apply list_elem_of_In, list_elem_of_join in Hb as (row & Hb & Hrow).
  apply elem_of_lookup_imap in Hrow as (i & ci & -> & Hi).
  apply elem_of_lookup_imap in Hb as (j & cj & Hb & Hj).
  rewrite Forall_forall in Hfit.
  destruct (Hfit ci (list_elem_of_lookup_2 _ _ _ Hi)) as (Hxi & Hyi & Hsi).
  destruct (Hfit cj (list_elem_of_lookup_2 _ _ _ Hj)) as (Hxj & Hyj & _).
  pose proof coordinates_fit as Hlim.
  destruct (i =? j)%nat; [done|].
  unfold VrpProblem.distance_overflows, VrpProblem.pow_overflows,
    VrpProblem.float_overflows in Hb.
  symmetry in Hb. apply orb_true_iff in Hb as [Hb|Hb];
    [apply orb_true_iff in Hb as [Hb|Hb]|]; apply Z.leb_le in Hb; lia.
Qed.

(** A file in the layout of the benchmark instances loads, whatever its
    integers are, as long as coordinates and service times fit the
    floats. *)
Lemma benchmark_file_loads header n c c0 cs skiprows :
  length header = 9%nat ->
  header !! 4%nat = Some [VrpProblem.Int n; VrpProblem.Int c] ->
  Forall (fun line => length line <> 7%nat) header ->
  skiprows < 9 ->
  Forall fits_float (c0 :: cs) ->
  VrpProblem.Problem_init (header ++ (loaded_row <$> c0 :: cs)) skiprows
  = Ret {| VrpProblem.customers := (c0 :: cs) ++ [c0];
           VrpProblem.vehicles := Some n;
           VrpProblem.capacity := Some c;
           VrpProblem.depot := c0;
           VrpProblem.travel_time :=
             VrpProblem.travel_time_table ((c0 :: cs) ++ [c0]) |}.
Proof.
  intros Hlen H4 Hall Hskip Hfit. unfold VrpProblem.Problem_init.
  rewrite read_rows_app, (read_rows_header _ _ n c) by done.
  cbn [mbind res_bind]. rewrite Hlen. change (0 + 9)%nat with 9%nat.
  rewrite (read_rows_customers skiprows 9 (c0 :: cs)) by lia.
  cbn [mbind res_bind VrpProblem.loaded_customers VrpProblem.loaded_vehicles
       VrpProblem.loaded_capacity app].
  rewrite getitem_0. cbn [mbind res_bind].
  rewrite travel_time_fits; [done|].
  change (Forall fits_float ((c0 :: cs) ++ [c0])).
  apply Forall_app. split; [done|].
  apply Forall_cons in Hfit as [H0 _]. by constructor.
Qed.

(** X14. On a file in the layout of the benchmark instances, a header of
    nine lines with the fleet on line 4 and then one line of seven
    integers per customer, whose coordinates and service times fit the
    floats, both loaders read the same customers in the same order, the
    same number of vehicles and the same capacity. The loader of the other
    solver adds a copy of the first customer at the end; the converted
    problem has one vehicle record per vehicle. *)
Theorem loaders_agree_on_data_sets header n c c0 cs skiprows name :
  length header = 9%nat ->
  header !! 4%nat = Some [VrpProblem.Int n; VrpProblem.Int c] ->
  Forall (fun line => length line <> 7%nat) header ->
  skiprows < 9 ->
  Forall fits_float (as_loaded <$> c0 :: cs) ->
  let lines := header ++ (row_of <$> c0 :: cs) in
  dataset_problem lines name
  = Ret {| vehicles :=
             (fun i => {| vehicle_id := Z.of_nat i; capacity := c |})
             <$> seq 0 (Z.to_nat n);
           customers := c0 :: cs;
           problem_id := name;
           depot := 0 |}
  /\ exists p,
       VrpProblem.Problem_init lines skiprows = Ret p
       /\ VrpProblem.customers p = (as_loaded <$> c0 :: cs) ++ [as_loaded c0]
       /\ VrpProblem.depot p = as_loaded c0
       /\ VrpProblem.vehicles p = Some n
       /\ VrpProblem.capacity p = Some c.
Proof.
  intros Hlen H4 Hall Hskip Hfit lines. split.
  - unfold dataset_problem, solomon_to_json.
    assert (getitem lines 4 = Ret [VrpProblem.Int n; VrpProblem.Int c]) as ->.
    { apply (getitem_Ret_nat _ 4). unfold lines.
      rewrite lookup_app_l; [done|lia]. }
    simpl. unfold lines. rewrite drop_app_length' by done.
    assert (mapM customer_of_parts (row_of <$> c0 :: cs) = Ret (c0 :: cs))
      as ->.
    { apply mapM_Ret, Forall2_fmap_l, Forall_Forall2_diag, Forall_forall.
      intros c1 _. by apply customer_of_parts_Ret. }
    simpl.
    assert (mapM (vehicle_of (VrpProblem.Int c)) (seq 0 (Z.to_nat n))
            = Ret ((fun i => {| vehicle_id := Z.of_nat i; capacity := c |})
                   <$> seq 0 (Z.to_nat n))) as ->.
    { apply mapM_Ret, Forall2_fmap_r, Forall_Forall2_diag, Forall_forall.
      by intros i _. }
    reflexivity.
  - assert (lines = header ++ (loaded_row <$> (as_loaded <$> c0 :: cs)))
      as ->.
    { unfold lines. f_equal. rewrite <- list_fmap_compose.
      by apply list_fmap_ext. }
    rewrite fmap_cons in Hfit |- *.
    rewrite (benchmark_file_loads header n c) by done.
    eexists. split; [reflexivity|]. by simpl.
Qed.

Lemma loaders_agree_on_data_sets_witness :
  (exists pr,
     dataset_problem ProblemSpec.small_instance "C101.txt" = Ret pr
     /\ length (customers pr) = 3%nat)
  /\ exists p,
       VrpProblem.Problem_init ProblemSpec.small_instance 0 = Ret p
       /\ length (VrpProblem.customers p) = 4%nat
       /\ VrpProblem.vehicles p = Some 25.
Proof.
  destruct (loaders_agree_on_data_sets
              (take 9 ProblemSpec.small_instance) 25 200
              {| id := 0; x := 40; y := 50; demand := 0; ready_time := 0;
                 due_date := 1236; service_time := 0 |}
              [ {| id := 1; x := 43; y := 54; demand := 10; ready_time := 10;
                   due_date := 50; service_time := 5 |};
                {| id := 2; x := 40; y := 62; demand := 10; ready_time := 60;
                   due_date := 100; service_time := 5 |} ]
              0 "C101.txt")
    as [Hpr (p & Hp & Hcs & _ & Hv & _)].
  - reflexivity.
  - reflexivity.
  - simpl. repeat (constructor; [simpl; lia|]). constructor.
  - lia.
  - repeat (constructor; [by vm_compute|]). constructor.
  - split.
    + eexists. split; [exact Hpr|reflexivity].
    + exists p. split; [exact Hp|]. split; [by rewrite Hcs|exact Hv].
Defined.

End DatasetProps.

(* ===================================================================== *)
(** ** Properties of the file loader of the other solver                   *)
(* ===================================================================== *)

Module LoaderProps.
Import VrpProblem ProblemSpec RunSpec PyProps ProblemProps DatasetProps.

(** *** One line *)

Lemma read_customer_Ret data oc :
  read_customer data = Ret oc ->
  match oc with
  | Some c => data = loaded_row c
  | None => length data <> 7%nat
  end.
Proof.
  destruct data as [|d0 [|d1 [|d2 [|d3 [|d4 [|d5 [|d6 [|d7 rest]]]]]]]];
    simpl; try by intros [= <-].
  intros H.
  apply bind_Ret in H as (a0 & H0 & H). apply int_Ret in H0 as ->.
  apply bind_Ret in H as (a1 & H1 & H). apply int_Ret in H1 as ->.
  apply bind_Ret in H as (a2 & H2 & H). apply int_Ret in H2 as ->.
  apply bind_Ret in H as (a3 & H3 & H). apply int_Ret in H3 as ->.
  apply bind_Ret in H as (a4 & H4 & H). apply int_Ret in H4 as ->.
  apply bind_Ret in H as (a5 & H5 & H). apply int_Ret in H5 as ->.
  apply bind_Ret in H as (a6 & H6 & H). apply int_Ret in H6 as ->.
  by injection H as <-.
Qed.

Lemma read_fleet_Ret data v c :
  read_fleet data = Ret (v, c) -> data = [Int v; Int c].
Proof.
  unfold read_fleet. intros H. apply bind_Ret in H as (values & Hv & H).
  destruct values as [|v0 [|c0 [|? ?]]]; try done. injection H as -> ->.
  apply mapM_Ret in Hv.
  inversion Hv as [|t0 ? data0 ? Ht0 Hv0]; subst.
  inversion Hv0 as [|t1 ? data1 ? Ht1 Hv1]; subst.
  inversion Hv1; subst.
  apply int_Ret in Ht0 as ->. by apply int_Ret in Ht1 as ->.
Qed.

Lemma read_row_customers skiprows k data st st' :
  read_row skiprows k data st = Ret st' ->
  loaded_row <$> loaded_customers st'
  = (loaded_row <$> loaded_customers st)
    ++ (if decide (skiprows < Z.of_nat k /\ length data = 7%nat)
        then [data] else []).
Proof.
  unfold read_row. intros H. apply bind_Ret in H as (st1 & H1 & H).
  assert (loaded_customers st1 = loaded_customers st) as <-.
  { destruct (k =? 4)%nat; [|by injection H1 as <-].
    apply bind_Ret in H1 as ([v c] & _ & [= <-]). done. }
  destruct (Z.leb_spec (Z.of_nat k) skiprows).
  - injection H as <-. rewrite decide_False by lia. by rewrite app_nil_r.
  - apply bind_Ret in H as (oc & Hoc & H). apply read_customer_Ret in Hoc.
    destruct oc as [c|]; injection H as <-; simpl.
    + subst data. rewrite decide_True by done. by rewrite fmap_app.
    + rewrite decide_False by tauto. by rewrite app_nil_r.
Qed.

Lemma read_row_fleet_inv skiprows k data st st' :
  read_row skiprows k data st = Ret st' ->
  if decide (k = 4%nat)
  then exists v c, data = [Int v; Int c]
                   /\ loaded_vehicles st' = Some v
                   /\ loaded_capacity st' = Some c
  else loaded_vehicles st' = loaded_vehicles st
       /\ loaded_capacity st' = loaded_capacity st.
Proof.
  unfold read_row. intros H. apply bind_Ret in H as (st1 & H1 & H).
  assert (loaded_vehicles st' = loaded_vehicles st1
          /\ loaded_capacity st' = loaded_capacity st1) as [-> ->].
  { destruct (Z.of_nat k <=? skiprows); [by injection H as <-|].
    apply bind_Ret in H as (oc & _ & H).
    by destruct oc; injection H as <-. }
  destruct (decide (k = 4%nat)) as [->|Hk].
  - simpl in H1. apply bind_Ret in H1 as ([v c] & Hf & [= <-]).
    apply read_fleet_Ret in Hf. by exists v, c.
  - apply Nat.eqb_neq in Hk. rewrite Hk in H1. by injection H1 as <-.
Qed.

(** *** The reading loop *)

Lemma read_rows_customers_inv skiprows k lines st st' :
  read_rows skiprows k lines st = Ret st' ->
  loaded_row <$> loaded_customers st'
  = (loaded_row <$> loaded_customers st)
    ++ filter (fun line => length line = 7%nat)
         (drop (Z.to_nat (skiprows + 1) - k) lines).
Proof.
  revert k st. induction lines as [|data lines IH]; intros k st; simpl.
  - intros [= <-]. by rewrite drop_nil, app_nil_r.
  - intros H. apply bind_Ret in H as (st1 & H1 & H).
    apply read_row_customers in H1. apply IH in H. rewrite H, H1.
    rewrite <- app_assoc. f_equal.
    destruct (decide (skiprows < Z.of_nat k)) as [Hk|Hk].
    + replace (Z.to_nat (skiprows + 1) - k)%nat with 0%nat by lia.
      replace (Z.to_nat (skiprows + 1) - S k)%nat with 0%nat by lia.
      simpl. rewrite filter_cons.
      destruct (decide (length data = 7%nat)).
      * by rewrite decide_True by done.
      * by rewrite decide_False by tauto.
    + rewrite decide_False by tauto.
      replace (Z.to_nat (skiprows + 1) - k)%nat
        with (S (Z.to_nat (skiprows + 1) - S k)) by lia.
      done.
Qed.

Lemma read_rows_fleet_inv skiprows k lines st st' :
  read_rows skiprows k lines st = Ret st' ->
  match (if decide (k <= 4)%nat then lines !! (4 - k)%nat else None) with
  | Some fleet => exists v c, fleet = [Int v; Int c]
                              /\ loaded_vehicles st' = Some v
                              /\ loaded_capacity st' = Some c
  | None => loaded_vehicles st' = loaded_vehicles st
            /\ loaded_capacity st' = loaded_capacity st
  end.
Proof.
  revert k st. induction lines as [|data lines IH]; intros k st; simpl.
  - intros [= <-]. by destruct (decide (k <= 4)%nat).
  - intros H. apply bind_Ret in H as (st1 & H1 & H).
    apply read_row_fleet_inv in H1. apply IH in H.
    destruct (decide (k = 4%nat)) as [->|Hk].
    + simpl. destruct H1 as (v & c & -> & Hv & Hc).
      rewrite decide_False in H by lia. destruct H as [-> ->].
      by exists v, c.
    + destruct H1 as [<- <-].
      destruct (decide (k <= 4)%nat) as [Hle|Hgt].
      * rewrite decide_True in H by lia.
        replace (4 - k)%nat with (S (4 - S k)) by lia. done.
      * by rewrite decide_False in H by lia.
Qed.

(** X15. The customers of a loaded Problem, the appended depot apart, are
    exactly the lines of seven fields after line [skiprows], in the order
    of the file: each is a line of seven integers and is stored field by
    field. Lines with another number of fields are skipped wherever they
    stand. *)
Theorem loaded_customers_are_the_seven_field_lines lines skiprows p :
  Problem_init lines skiprows = Ret p ->
  exists cs,
    customers p = cs ++ [depot p]
    /\ loaded_row <$> cs
       = filter (fun line => length line = 7%nat)
           (drop (Z.to_nat (skiprows + 1)) lines).
Proof.
  intros H. apply Problem_init_Ret in H as (st & d & Hst & _ & ->).
  exists (loaded_customers st). split; [done|].
  apply read_rows_customers_inv in Hst. simpl in Hst.
  by rewrite Nat.sub_0_r in Hst.
Qed.

Lemma loaded_customers_are_the_seven_field_lines_witness :
  exists p cs,
    Problem_init small_instance 0 = Ret p
    /\ customers p = cs ++ [depot p]
    /\ loaded_row <$> cs = drop 9 small_instance.
Proof.
  eexists.
  destruct (loaded_customers_are_the_seven_field_lines small_instance 0 _
              eq_refl) as (cs & Hcs & Hrows).
  exists cs. split; [reflexivity|]. split; [exact Hcs|exact Hrows].
Defined.

(** X16. The number of vehicles and the capacity of a loaded Problem are
    the two integers of line 4, whatever [skiprows] is; a file of fewer
    than five lines loads with both left at [None]. *)
Theorem loaded_fleet_is_line_4 lines skiprows p :
  Problem_init lines skiprows = Ret p ->
  match lines !! 4%nat with
  | Some fleet => exists v c, fleet = [Int v; Int c]
                              /\ vehicles p = Some v /\ capacity p = Some c
  | None => vehicles p = None /\ capacity p = None
  end.
Proof.
  intros H. apply Problem_init_Ret in H as (st & d & Hst & _ & ->).
  apply read_rows_fleet_inv in Hst. by simpl in *.
Qed.

Lemma loaded_fleet_is_line_4_witness :
  (exists p, Problem_init headless_file 0 = Ret p
             /\ vehicles p = None /\ capacity p = None)
  /\ (exists p, Problem_init small_instance 0 = Ret p
                /\ vehicles p = Some 25 /\ capacity p = Some 200).
Proof.
  split; eexists; (split; [reflexivity|]).
  - exact (loaded_fleet_is_line_4 headless_file 0 _ eq_refl).
  - by destruct (loaded_fleet_is_line_4 small_instance 0 _ eq_refl)
      as (v & c & [= <- <-] & Hv & Hc).
Defined.

(** *** The travel-time table *)

Lemma distance_sym c1 c2 : distance c1 c2 = distance c2 c1.
Proof. unfold distance. f_equal. rewrite !minus_IZR. ring. Qed.

(** X17. The travel-time table is symmetric between customers of equal
    service time: the distance is the same in both directions, and the
    two entries add the same service time to it. *)
Theorem travel_time_symmetric_for_equal_service lines skiprows p i j ci cj :
  Problem_init lines skiprows = Ret p ->
  customers p !! i = Some ci ->
  customers p !! j = Some cj ->
  service_time ci = service_time cj ->
  travelTime p i j = travelTime p j i.
Proof.
  intros H Hi Hj Hs. apply Problem_init_Ret in H as (st & d & _ & _ & ->).
  unfold travelTime. simpl in *.
  rewrite (travel_time_table_lookup _ i j ci cj Hi Hj).
  rewrite (travel_time_table_lookup _ j i cj ci Hj Hi).
  rewrite (Nat.eqb_sym j i), (distance_sym cj ci), Hs. done.
Qed.

Lemma travel_time_symmetric_for_equal_service_witness :
  exists p,
    Problem_init small_instance 0 = Ret p
    /\ travelTime p 1 2 = travelTime p 2 1.
Proof.
  eexists. split; [reflexivity|].
  exact (travel_time_symmetric_for_equal_service small_instance 0 _ 1 2 _ _
           eq_refl eq_refl eq_refl eq_refl).
Defined.

(** X18. A loaded Problem has at least two nodes, and the travel-time
    entries between the depot and its copy at the end of the customer
    list are the service time of the depot, in both directions: the two
    are the same place, and the table still adds the service time. The
    service time is one a float holds exactly. *)
Theorem depot_to_end_copy lines skiprows p :
  Problem_init lines skiprows = Ret p ->
  Z.abs (service_time (depot p)) <= 2 ^ 53 ->
  (2 <= no_customers p)%nat
  /\ travelTime p 0 (no_customers p - 1)
     = Some (IZR (service_time (depot p)))
  /\ travelTime p (no_customers p - 1) 0
     = Some (IZR (service_time (depot p))).
Proof.
  intros H _. apply Problem_init_Ret in H as (st & d & _ & Hd & ->).
  unfold travelTime, no_customers. simpl.
  destruct (loaded_customers st) as [|c cs] eqn:Hcs; [done|].
  injection Hd as ->.
  assert (((d :: cs) ++ [d]) !! 0%nat = Some d) as H0 by done.
  assert (((d :: cs) ++ [d]) !! (length ((d :: cs) ++ [d]) - 1)%nat = Some d)
    as Hn.
  { apply list_lookup_middle. rewrite length_app. simpl. lia. }
  split; [rewrite length_app; simpl; lia|].
  rewrite (travel_time_table_lookup _ _ _ d d H0 Hn).
  rewrite (travel_time_table_lookup _ _ _ d d Hn H0).
  destruct (Nat.eqb_spec 0 (length ((d :: cs) ++ [d]) - 1)) as [He|_];
    [rewrite length_app in He; simpl in He; lia|].
  destruct (Nat.eqb_spec (length ((d :: cs) ++ [d]) - 1) 0) as [He|_];
    [rewrite length_app in He; simpl in He; lia|].
  rewrite distance_self. split; f_equal; lra.
Qed.

Lemma depot_to_end_copy_witness :
  exists p,
    Problem_init malformed_instance 0 = Ret p
    /\ no_customers p = 2%nat
    /\ travelTime p 0 1 = Some (IZR (-5)).
Proof.
  eexists. split; [reflexivity|]. split; [reflexivity|].
  refine (proj1 (proj2 (depot_to_end_copy malformed_instance 0 _ eq_refl _))).
  by vm_compute.
Defined.

(** *** Construction without validation *)



End LoaderProps.

(* ===================================================================== *)
(** ** Properties of the model and of the returned dictionary              *)
(* ===================================================================== *)

Module CplexProps.
Import SolutionSpec CplexModel PyProps.

(** *** The dictionary *)

Lemma foldl_bind {A B D} (f : A -> D -> A) (g : B -> list D) a l :
  foldl f a (l ≫= g) = foldl (fun a x => foldl f a (g x)) a l.
Proof.
  revert a. induction l as [|x l IH]; intros a; [done|].
  simpl. by rewrite foldl_app, IH.
Qed.

Lemma foldl_pointwise {A B} (f g : A -> B -> A) a l :
  (forall a x, f a x = g a x) -> foldl f a l = foldl g a l.
Proof.
  intros H. revert a. induction l as [|x l IH]; intros a; [done|].
  simpl. by rewrite H, IH.
Qed.

Lemma last_vehicle_Some f vehicles v :
  last_vehicle f vehicles = Some v
  <-> (v < vehicles)%nat /\ f v = true
      /\ forall v', (v < v' < vehicles)%nat -> f v' = false.
Proof.
  induction vehicles as [|k IH]; simpl.
  - split; [done|]. intros [? _]. lia.
  - destruct (f k) eqn:Hk.
    + split.
      * intros [= <-]. split; [lia|]. split; [done|]. intros v' ?. lia.
      * intros (Hv & Hf & Hlast). f_equal.
        destruct (decide (v = k)) as [->|Hne]; [done|].
        rewrite (Hlast k) in Hk; [done|lia].
    + rewrite IH. split.
      * intros (Hv & Hf & Hlast). split; [lia|]. split; [done|].
        intros v' Hv'. destruct (decide (v' = k)) as [->|]; [done|].
        apply Hlast. lia.
      * intros (Hv & Hf & Hlast).
        assert (v <> k) by (intros ->; congruence).
        split; [lia|]. split; [done|]. intros v' Hv'. apply Hlast. lia.
Qed.

Section Extraction.
Variable is_one : nat -> nat -> nat -> bool.

Lemma fold_vehicles i j vehicles m k :
  foldl (record_arc is_one) m (seq 0 vehicles ≫= fun v => [(i, j, v)]) !! k
  = if decide (k = (i, j))
    then overwritten (last_vehicle (is_one i j) vehicles) (m !! k)
    else m !! k.
Proof.
  induction vehicles as [|V IH].
  - simpl. by destruct (decide (k = (i, j))).
  - rewrite seq_S, bind_app, foldl_app. simpl.
    destruct (is_one i j V) eqn:HV.
    + destruct (decide (k = (i, j))) as [->|Hk].
      * by rewrite lookup_insert_eq.
      * rewrite lookup_insert_ne by done. by rewrite IH.
    + exact IH.
Qed.

Lemma fold_targets i n vehicles m i' j' :
  foldl (fun m j => foldl (record_arc is_one) m (seq 0 vehicles ≫= fun v => [(i, j, v)]))
    m (seq 0 n) !! (i', j')
  = if decide (i' = i /\ (j' < n)%nat)
    then overwritten (last_vehicle (is_one i j') vehicles) (m !! (i', j'))
    else m !! (i', j').
Proof.
  induction n as [|n IH].
  - simpl. rewrite decide_False; [done|lia].
  - rewrite seq_S, foldl_app. simpl. rewrite fold_vehicles, IH.
    destruct (decide ((i', j') = (i, n))) as [[= -> ->]|Hne].
    + rewrite decide_False by lia. rewrite decide_True; [done|lia].
    + destruct (decide (i' = i /\ (j' < n)%nat)) as [[-> Hj]|Hn].
      * rewrite decide_True; [done|lia].
      * rewrite decide_False; [done|].
        intros [-> Hj]. destruct (decide (j' = n)) as [->|]; [done|].
        apply Hn. split; [done|lia].
Qed.

Lemma fold_sources n' n vehicles m i' j' :
  foldl (fun m i =>
           foldl (fun m j =>
                    foldl (record_arc is_one) m (seq 0 vehicles ≫= fun v => [(i, j, v)]))
             m (seq 0 n))
    m (seq 0 n') !! (i', j')
  = if decide ((i' < n')%nat /\ (j' < n)%nat)
    then overwritten (last_vehicle (is_one i' j') vehicles) (m !! (i', j'))
    else m !! (i', j').
Proof.
  induction n' as [|n' IH].
  - destruct (decide _) as [[? ?]|]; [lia|done].
  - rewrite seq_S, foldl_app. simpl. rewrite fold_targets, IH.
    destruct (decide (i' = n' /\ (j' < n)%nat)) as [[-> Hj]|Hne].
    + rewrite decide_False by lia. rewrite decide_True; [done|lia].
    + destruct (decide ((i' < n')%nat /\ (j' < n)%nat)) as [[Hi Hj]|Hn].
      * rewrite decide_True; [done|lia].
      * rewrite decide_False; [done|]. intros [Hi Hj].
        destruct (decide (i' = n')) as [->|]; [tauto|].
        apply Hn. split; [lia|done].
Qed.

Lemma extract_solution_lookup solved n vehicles i j :
  extract_solution solved n vehicles is_one !! (i, j)
  = if solved && bool_decide ((i < n)%nat /\ (j < n)%nat)
    then last_vehicle (is_one i j) vehicles
    else None.
Proof.
  unfold extract_solution, product. destruct solved; [|done].
  rewrite foldl_bind.
  erewrite foldl_pointwise.
  2:{ intros m i0. rewrite foldl_bind. reflexivity. }
  pose proof (fold_sources n n vehicles ∅ i j) as H. 
  rewrite lookup_empty in H. simpl.
  destruct (decide ((i < n)%nat /\ (j < n)%nat)) as [Hd|Hd].
  - rewrite bool_decide_true by done.
    by destruct (last_vehicle (is_one i j) vehicles).
  - by rewrite bool_decide_false by done.
Qed.

End Extraction.

(** X19. What [solve_vrptw_cplex] returns: without a solution it raises
    the exception of the modelling library when it reads the objective
    value, and no dictionary is returned; with a solution it returns the
    objective value and a dictionary that keeps one vehicle per arc, the
    entry of [(i, j)] being the highest-numbered vehicle whose variable of
    that arc has the value 1, every lower vehicle on the same arc being
    overwritten. *)
Theorem solution_keeps_the_last_vehicle {Obj : Type} solved n vehicles
    is_one (objective_value : Obj) :
  (solved = false ->
   solve_vrptw_cplex_return solved n vehicles is_one objective_value
   = Raise DOcplexException)
  /\ (solved = true ->
      exists solution,
        solve_vrptw_cplex_return solved n vehicles is_one objective_value
        = Ret (solution, objective_value)
        /\ forall i j v,
             solution !! (i, j) = Some v
             <-> (i < n)%nat /\ (j < n)%nat /\ (v < vehicles)%nat
                 /\ is_one i j v = true
                 /\ forall v', (v < v' < vehicles)%nat ->
                               is_one i j v' = false).
Proof.
  unfold solve_vrptw_cplex_return. split; intros ->; [done|].
  eexists. split; [done|]. intros i j v.
  rewrite extract_solution_lookup. simpl.
  destruct (decide ((i < n)%nat /\ (j < n)%nat)) as [[Hi Hj]|Hd].
  - rewrite bool_decide_true by done. rewrite last_vehicle_Some.
    split; [intros (? & ? & ?)|intros (_ & _ & ? & ? & ?)]; done.
  - rewrite bool_decide_false by done.
    split; [done|]. intros (? & ? & _). tauto.
Qed.

Lemma solution_keeps_the_last_vehicle_witness :
  solve_vrptw_cplex_return false 3 2
    (fun i j v => bool_decide (i = 0%nat /\ j = 2%nat)) 0
  = Raise DOcplexException
  /\ exists solution,
       solve_vrptw_cplex_return true 3 2
         (fun i j v => bool_decide (i = 0%nat /\ j = 2%nat)) 0
       = Ret (solution, 0)
       /\ solution !! (0%nat, 2%nat) = Some 1%nat.
Proof.
  split.
  - by apply (solution_keeps_the_last_vehicle false 3 2 _ 0).
  - destruct (proj2 (solution_keeps_the_last_vehicle true 3 2
                       (fun i j v => bool_decide (i = 0%nat /\ j = 2%nat)) 0)
                eq_refl) as (solution & Hret & Hdict).
    exists solution. split; [exact Hret|]. apply Hdict.
    split; [lia|]. split; [lia|]. split; [lia|]. split; [done|].
    intros v' Hv'. lia.
Defined.

(** *** Sums of values that are 0 or 1 *)

Lemma bind_singleton {A B} (f : A -> B) (l : list A) :
  (l ≫= fun x => [f x]) = f <$> l.
Proof. induction l as [|x l IH]; [done|]. by rewrite bind_cons, IH. Qed.

Lemma Zsum_bind {A} (g : A -> list Z) (l : list A) :
  Zsum (l ≫= g) = Zsum ((fun x => Zsum (g x)) <$> l).
Proof.
  induction l as [|x l IH]; [done|].
  by rewrite bind_cons, SolutionProps.Zsum_app, IH.
Qed.

Lemma Zsum_cons z l : Zsum (z :: l) = z + Zsum l.
Proof. reflexivity. Qed.

Lemma Zsum_fmap_nonneg {A} (g : A -> Z) (l : list A) :
  (forall x, x ∈ l -> 0 <= g x) -> 0 <= Zsum (g <$> l).
Proof.
  induction l as [|x l IH]; intros H; [done|]. rewrite fmap_cons, Zsum_cons.
  pose proof (H x (list_elem_of_here _ _)).
  assert (0 <= Zsum (g <$> l)); [|lia].
  apply IH. intros y Hy. apply H. by apply list_elem_of_further.
Qed.

Lemma Zsum_zero {A} (g : A -> Z) (l : list A) :
  (forall x, x ∈ l -> 0 <= g x) -> Zsum (g <$> l) = 0 ->
  forall x, x ∈ l -> g x = 0.
Proof.
  induction l as [|a l IH]; intros Hpos Hsum x Hx.
  - by apply elem_of_nil in Hx.
  - rewrite fmap_cons, Zsum_cons in Hsum.
    pose proof (Hpos a (list_elem_of_here _ _)).
    assert (0 <= Zsum (g <$> l)).
    { apply Zsum_fmap_nonneg. intros y Hy. apply Hpos.
      by apply list_elem_of_further. }
    apply elem_of_cons in Hx as [->|Hx]; [lia|].
    apply IH; [|lia|done]. intros y Hy. apply Hpos.
    by apply list_elem_of_further.
Qed.

Lemma Zsum_one {A} `{EqDecision A} (g : A -> Z) (l : list A) :
  (forall x, x ∈ l -> 0 <= g x) -> Zsum (g <$> l) = 1 ->
  exists x, x ∈ l /\ g x = 1 /\ forall x', x' ∈ l -> x' <> x -> g x' = 0.
Proof.
  induction l as [|a l IH]; intros Hpos Hsum; [done|].
  rewrite fmap_cons, Zsum_cons in Hsum.
  pose proof (Hpos a (list_elem_of_here _ _)).
  assert (forall y, y ∈ l -> 0 <= g y) as Hpos'.
  { intros y Hy. apply Hpos. by apply list_elem_of_further. }
  pose proof (Zsum_fmap_nonneg g l Hpos').
  destruct (decide (g a = 0)) as [Ha|Ha].
  - destruct (IH Hpos') as (x & Hx & Hgx & Hothers); [lia|].
    exists x. split; [by apply list_elem_of_further|]. split; [done|].
    intros x' Hx' Hne. apply elem_of_cons in Hx' as [->|Hx']; [done|].
    by apply Hothers.
  - exists a. split; [apply list_elem_of_here|]. split; [lia|].
    intros x' Hx' Hne. apply elem_of_cons in Hx' as [->|Hx']; [done|].
    apply (Zsum_zero g l Hpos'); [lia|done].
Qed.

Lemma Zsum_bind2 {A B} (f : A -> B -> Z) (l1 : list A) (l2 : list B) :
  Zsum (x ← l1; y ← l2; [f x y])
  = Zsum ((fun x => Zsum (f x <$> l2)) <$> l1).
Proof.
  induction l1 as [|x l1 IH]; [done|].
  by rewrite bind_cons, SolutionProps.Zsum_app, IH, bind_singleton.
Qed.

Lemma Zsum_ext {A} (f g : A -> Z) (l : list A) :
  (forall x, x ∈ l -> f x = g x) -> Zsum (f <$> l) = Zsum (g <$> l).
Proof.
  induction l as [|x l IH]; intros H; [done|].
  rewrite !fmap_cons, !Zsum_cons, (H x (list_elem_of_here _ _)), IH; [done|].
  intros y Hy. apply H. by apply list_elem_of_further.
Qed.

Lemma Zsum_scale {A} (f : A -> Z) (c : Z) (l : list A) :
  Zsum ((fun x => f x * c) <$> l) = c * Zsum (f <$> l).
Proof.
  induction l as [|x l IH]; [simpl; unfold Zsum; simpl; lia|].
  rewrite !fmap_cons, !Zsum_cons, IH. lia.
Qed.

Lemma Zsum_add {A} (f g : A -> Z) (l : list A) :
  Zsum ((fun x => f x + g x) <$> l) = Zsum (f <$> l) + Zsum (g <$> l).
Proof.
  induction l as [|x l IH]; [done|].
  rewrite !fmap_cons, !Zsum_cons, IH. lia.
Qed.

Lemma Zsum_swap {A B} (f : A -> B -> Z) (l1 : list A) (l2 : list B) :
  Zsum ((fun x => Zsum (f x <$> l2)) <$> l1)
  = Zsum ((fun y => Zsum ((fun x => f x y) <$> l1)) <$> l2).
Proof.
  induction l1 as [|x l1 IH].
  - simpl. induction l2 as [|y l2 IH2]; [done|].
    by rewrite fmap_cons, Zsum_cons, <- IH2.
  - rewrite fmap_cons, Zsum_cons, IH, <- Zsum_add.
    apply Zsum_ext. intros y _. by rewrite fmap_cons, Zsum_cons.
Qed.

Lemma Zsum_const {A} (g : A -> Z) (c : Z) (l : list A) :
  (forall x, x ∈ l -> g x = c) ->
  Zsum (g <$> l) = Z.of_nat (length l) * c.
Proof.
  induction l as [|x l IH]; intros H; [done|].
  rewrite fmap_cons, Zsum_cons, (H x (list_elem_of_here _ _)), IH.
  - simpl length. lia.
  - intros y Hy. apply H. by apply list_elem_of_further.
Qed.

Lemma Zsum_le_const {A} (g : A -> Z) (c : Z) (l : list A) :
  (forall x, x ∈ l -> g x <= c) ->
  Zsum (g <$> l) <= Z.of_nat (length l) * c.
Proof.
  induction l as [|x l IH]; intros H; [done|].
  rewrite fmap_cons, Zsum_cons.
  pose proof (H x (list_elem_of_here _ _)).
  assert (Zsum (g <$> l) <= Z.of_nat (length l) * c).
  { apply IH. intros y Hy. apply H. by apply list_elem_of_further. }
  simpl length. lia.
Qed.

(** *** The constraints *)

Lemma C_nodes problem i :
  i ∈ C problem ->
  i ∈ nodes problem /\ (1 <= i < VrpProblem.no_customers problem - 1)%nat.
Proof. unfold C, nodes. rewrite !elem_of_seq. lia. Qed.

Lemma binary_nonneg problem vehicles a i j v :
  binary problem vehicles a ->
  i ∈ nodes problem -> j ∈ nodes problem -> v ∈ fleet vehicles ->
  0 <= xvars a i j v.
Proof. intros Hb Hi Hj Hv. destruct (Hb i j v Hi Hj Hv); lia. Qed.

(** X20. In every assignment that satisfies the constraints of the
    model, a customer has exactly one outgoing arc over all vehicles, it
    leads neither to the customer itself nor to the depot at index 0, and
    the returned dictionary has exactly one key that starts at the
    customer, with the vehicle of that arc. *)
Theorem each_customer_has_one_successor problem vehicles capacity a i :
  constraints problem vehicles capacity a ->
  i ∈ C problem ->
  exists j v,
    j ∈ nodes problem /\ v ∈ fleet vehicles
    /\ j <> i /\ j <> 0%nat
    /\ xvars a i j v = 1
    /\ (forall j' v', j' ∈ nodes problem -> v' ∈ fleet vehicles ->
          xvars a i j' v' = 1 -> j' = j /\ v' = v)
    /\ forall j',
         solution_of (VrpProblem.no_customers problem) (Z.to_nat vehicles) a
           !! (i, j')
         = if decide (j' = j) then Some v else None.
Proof.
  intros [Hbin _ Hout Hloop Hdepot _ _ _ _ _ _] Hi.
  destruct (C_nodes _ _ Hi) as [Hin Hrange].
  pose proof (Hout i Hi) as Hsum. rewrite Zsum_bind in Hsum.
  apply Zsum_one in Hsum as (j & Hj & Hsumj & Hothers).
  2:{ intros j Hj. rewrite bind_singleton. apply Zsum_fmap_nonneg.
      intros v Hv. by apply (binary_nonneg problem vehicles). }
  rewrite bind_singleton in Hsumj.
  apply Zsum_one in Hsumj as (v & Hv & Hx & Hothers_v).
  2:{ intros v Hv. by apply (binary_nonneg problem vehicles). }
  assert (forall j' v', j' ∈ nodes problem -> v' ∈ fleet vehicles ->
            xvars a i j' v' = 1 -> j' = j /\ v' = v) as Huniq.
  { intros j' v' Hj' Hv' Hx'.
    destruct (decide (j' = j)) as [->|Hne].
    - split; [done|]. destruct (decide (v' = v)) as [->|Hnv]; [done|].
      rewrite (Hothers_v v' Hv' Hnv) in Hx'. done.
    - pose proof (Hothers j' Hj' Hne) as Hz. rewrite bind_singleton in Hz.
      rewrite (Zsum_zero _ _ (fun v0 Hv0 =>
                 binary_nonneg problem vehicles a i j' v0 Hbin Hin Hj' Hv0)
                 Hz v' Hv') in Hx'.
      done. }
  exists j, v. split; [done|]. split; [done|].
  split; [|split; [|split; [done|split; [exact Huniq|]]]].
  - intros ->. pose proof (Hloop i Hi) as Hz. rewrite bind_singleton in Hz.
    rewrite (Zsum_zero _ _ (fun v0 Hv0 =>
               binary_nonneg problem vehicles a i i v0 Hbin Hin Hin Hv0)
               Hz v Hv) in Hx.
    done.
  - intros ->. red in Hdepot. rewrite Zsum_bind in Hdepot.
    assert (0%nat ∈ nodes problem) as H0.
    { unfold nodes. apply elem_of_seq. lia. }
    pose proof (Zsum_zero _ _
                  (fun i0 Hi0 =>
                     eq_ind_r (fun l => 0 <= Zsum l)
                       (Zsum_fmap_nonneg _ _ (fun v0 Hv0 =>
                          binary_nonneg problem vehicles a i0 0%nat v0
                            Hbin Hi0 H0 Hv0))
                       (bind_singleton _ _))
                  Hdepot i Hin) as Hz.
    simpl in Hz. rewrite bind_singleton in Hz.
    rewrite (Zsum_zero _ _ (fun v0 Hv0 =>
               binary_nonneg problem vehicles a i 0%nat v0 Hbin Hin H0 Hv0)
               Hz v Hv) in Hx.
    done.
  - intros j'. unfold solution_of. rewrite extract_solution_lookup. simpl.
    assert (forall v', v' ∈ fleet vehicles <-> (v' < Z.to_nat vehicles)%nat)
      as Hfleet.
    { intros v'. unfold fleet. rewrite elem_of_seq. lia. }
    assert (forall j0, j0 ∈ nodes problem
                       <-> (j0 < VrpProblem.no_customers problem)%nat)
      as Hnodes.
    { intros j0. unfold nodes. rewrite elem_of_seq. lia. }
    destruct (decide (j' = j)) as [->|Hne].
    + rewrite bool_decide_true by (split; [lia|by apply Hnodes]).
      apply last_vehicle_Some. split; [by apply Hfleet|].
      split; [by apply bool_decide_eq_true|].
      intros v' Hv'. apply bool_decide_eq_false. intros Hx'.
      destruct (Huniq j v' Hj) as [_ ->]; [apply Hfleet; lia|done|lia].
    + destruct (bool_decide _) eqn:Hd; [|done].
      apply bool_decide_eq_true in Hd as [_ Hj'].
      destruct (last_vehicle _ _) as [v'|] eqn:Hlast; [|done].
      apply last_vehicle_Some in Hlast as (Hv' & Hx' & _).
      apply bool_decide_eq_true in Hx'.
      destruct (Huniq j' v') as [-> _];
        [by apply Hnodes|by apply Hfleet|done|done].
Qed.

(** The route of one vehicle to the only customer and on to the end
    copy of the depot satisfies the constraints. *)
Lemma one_customer_loads :
  VrpProblem.Problem_init one_customer 0 = Ret one_customer_problem.
Proof. reflexivity. Qed.

Lemma distance_3_4 c1 c2 :
  VrpProblem.coordinates_x c2 - VrpProblem.coordinates_x c1 = 3 ->
  VrpProblem.coordinates_y c2 - VrpProblem.coordinates_y c1 = 4 ->
  VrpProblem.distance c1 c2 = 5%R /\ VrpProblem.distance c2 c1 = 5%R.
Proof.
  intros Hx Hy.
  assert (VrpProblem.distance c1 c2 = 5%R) as H.
  { unfold VrpProblem.distance. rewrite Hx, Hy.
    replace (IZR 3 ^ 2 + IZR 4 ^ 2)%R with (5 * 5)%R by lra.
    apply sqrt_square. lra. }
  split; [done|]. by rewrite LoaderProps.distance_sym.
Qed.

Lemma there_and_back_feasible :
  constraints one_customer_problem 1 200 there_and_back.
Proof.
  assert (forall v, v ∈ fleet 1 -> v = 0%nat) as Hfleet.
  { intros v Hv. apply elem_of_seq in Hv. simpl in Hv. lia. }
  assert (forall i, i ∈ C one_customer_problem -> i = 1%nat) as HC.
  { intros i Hi. apply elem_of_seq in Hi. simpl in Hi. lia. }
  constructor.
  - intros i j v _ _ _.
    destruct i as [|[|?]], j as [|[|[|?]]], v as [|?]; simpl; auto.
  - intros i v c Hc _.
    destruct i as [|[|[|?]]]; simpl in Hc; try done;
      injection Hc as <-; simpl; lia.
  - intros i Hi. by rewrite (HC i Hi).
  - intros i Hi. by rewrite (HC i Hi).
  - reflexivity.
  - reflexivity.
  - intros v Hv. rewrite (Hfleet v Hv). by vm_compute.
  - intros v Hv. by rewrite (Hfleet v Hv).
  - intros v cid Hv Hcid. by rewrite (Hfleet v Hv), (HC cid Hcid).
  - intros v Hv. by rewrite (Hfleet v Hv).
  - intros i j v Hi Hj Hv. rewrite (Hfleet v Hv).
    apply elem_of_seq in Hi, Hj.
    change (VrpProblem.no_customers one_customer_problem) with 3%nat
      in Hi, Hj.
    pose proof (distance_3_4
                  (VrpProblem.depot one_customer_problem)
                  {| VrpProblem.id := 1; VrpProblem.coordinates_x := 43;
                     VrpProblem.coordinates_y := 54; VrpProblem.demand := 10;
                     VrpProblem.ready_time := 10; VrpProblem.due_date := 50;
                     VrpProblem.service_time := 5 |} eq_refl eq_refl)
      as [H01 H10].
    simpl in H01, H10.
    unfold VrpProblem.travelTime, one_customer_problem.
    cbn [VrpProblem.travel_time].
    destruct i as [|[|[|?]]], j as [|[|[|?]]]; try lia;
      (erewrite ProblemProps.travel_time_table_lookup by reflexivity);
      simpl; rewrite ?H01, ?H10; lra.
Qed.

Lemma each_customer_has_one_successor_witness :
  exists j v,
    xvars there_and_back 1 j v = 1
    /\ solution_of 3 1 there_and_back !! (1%nat, j) = Some v.
Proof.
  destruct (each_customer_has_one_successor one_customer_problem 1 200
              there_and_back 1 there_and_back_feasible)
    as (j & v & _ & _ & _ & _ & Hx & _ & Hdict).
  - apply elem_of_seq. simpl. lia.
  - exists j, v. split; [exact Hx|].
    specialize (Hdict j). by rewrite decide_True in Hdict by done.
Defined.

(** X21. In every assignment that satisfies the constraints of the model
    of a loaded Problem, a vehicle uses an arc between two different nodes
    only if the service at its head starts no earlier than the service at
    its tail plus the service time of the tail, so only if the tail's
    ready time plus its service time is at most the head's due date; and
    the same vehicle uses the arc in both directions only if the two
    service times add up to at most 0. The service times are ones a float
    holds exactly, so that the travel time is at least the service
    time. *)
Theorem used_arcs_keep_time lines skiprows problem vehicles capacity a
    i j v ci cj :
  VrpProblem.Problem_init lines skiprows = Ret problem ->
  constraints problem vehicles capacity a ->
  VrpProblem.customers problem !! i = Some ci ->
  VrpProblem.customers problem !! j = Some cj ->
  v ∈ fleet vehicles ->
  i <> j ->
  Z.abs (VrpProblem.service_time ci) <= 2 ^ 53 ->
  xvars a i j v = 1 ->
  service_time a i v + VrpProblem.service_time ci <= service_time a j v
  /\ VrpProblem.ready_time ci + VrpProblem.service_time ci
     <= VrpProblem.due_date cj
  /\ (Z.abs (VrpProblem.service_time cj) <= 2 ^ 53 ->
      xvars a j i v = 1 ->
      VrpProblem.service_time ci + VrpProblem.service_time cj <= 0).
Proof.
  intros Hp [_ Hwin _ _ _ _ _ _ _ _ Htime] Hi Hj Hv Hij _ Hx.
  assert (i ∈ nodes problem /\ j ∈ nodes problem) as [Hin Hjn].
  { unfold nodes, VrpProblem.no_customers. rewrite !elem_of_seq.
    apply lookup_lt_Some in Hi, Hj. lia. }
  pose proof (Htime i j v Hin Hjn Hv) as Hij_time.
  pose proof (Htime j i v Hjn Hin Hv) as Hji_time.
  apply ProblemProps.Problem_init_Ret in Hp as (st & d & _ & _ & ->).
  unfold VrpProblem.travelTime in *. simpl in *.
  rewrite (ProblemProps.travel_time_table_lookup _ i j ci cj Hi Hj)
    in Hij_time.
  rewrite (ProblemProps.travel_time_table_lookup _ j i cj ci Hj Hi)
    in Hji_time.
  destruct (Nat.eqb_spec i j); [done|]. destruct (Nat.eqb_spec j i); [done|].
  rewrite Hx in Hij_time.
  pose proof (Hwin i v ci Hi Hv) as [Hri _].
  pose proof (Hwin j v cj Hj Hv) as [_ Hdj].
  pose proof (ProblemProps.distance_nonneg ci cj) as Hd.
  pose proof (ProblemProps.distance_nonneg cj ci) as Hd'.
  assert (service_time a i v + VrpProblem.service_time ci
          <= service_time a j v) as Hstart.
  { apply le_IZR. rewrite plus_IZR. lra. }
  split; [done|]. split; [lia|].
  intros _ Hx'. rewrite Hx' in Hji_time.
  assert (service_time a j v + VrpProblem.service_time cj
          <= service_time a i v); [|lia].
  apply le_IZR. rewrite plus_IZR. lra.
Qed.

Lemma used_arcs_keep_time_witness :
  service_time there_and_back 0 0 + 0 <= service_time there_and_back 1 0.
Proof.
  destruct (used_arcs_keep_time one_customer 0 one_customer_problem 1 200
              there_and_back 0 1 0 _ _ one_customer_loads
              there_and_back_feasible eq_refl eq_refl) as (H & _ & _).
  - apply elem_of_seq. simpl. lia.
  - lia.
  - by vm_compute.
  - reflexivity.
  - exact H.
Defined.

(** X22. In every assignment that satisfies the constraints of the
    model, a customer also has exactly one incoming arc over all vehicles,
    and the vehicle that enters is one that leaves: the constraint on the
    arcs out of a customer and the flow constraint together make every
    customer visited exactly once. *)
Theorem each_customer_has_one_predecessor problem vehicles capacity a cid :
  constraints problem vehicles capacity a ->
  cid ∈ C problem ->
  exists i v,
    i ∈ nodes problem /\ v ∈ fleet vehicles
    /\ xvars a i cid v = 1
    /\ (forall i' v', i' ∈ nodes problem -> v' ∈ fleet vehicles ->
          xvars a i' cid v' = 1 -> i' = i /\ v' = v)
    /\ exists j, j ∈ nodes problem /\ xvars a cid j v = 1.
Proof.
  intros [Hbin _ Hout _ _ _ _ _ Hflow _ _] Hcid.
  destruct (C_nodes _ _ Hcid) as [Hin _].
  pose proof (Hout cid Hcid) as Hsum.
  rewrite Zsum_bind2, Zsum_swap in Hsum.
  assert (forall v, v ∈ fleet vehicles ->
            0 <= Zsum ((fun j => xvars a cid j v) <$> nodes problem))
    as Hout_pos.
  { intros v Hv. apply Zsum_fmap_nonneg. intros j Hj.
    by apply (binary_nonneg problem vehicles). }
  assert (forall v, v ∈ fleet vehicles ->
            Zsum ((fun i => xvars a i cid v) <$> nodes problem)
            = Zsum ((fun j => xvars a cid j v) <$> nodes problem))
    as Hkept.
  { intros v Hv. pose proof (Hflow v cid Hv Hcid) as H.
    rewrite !bind_singleton in H. lia. }
  apply Zsum_one in Hsum as (v & Hv & Hout_v & Hothers); [|done].
  pose proof Hout_v as Hin_v. rewrite <- (Hkept v Hv) in Hin_v.
  apply Zsum_one in Hin_v as (i & Hi & Hx & Hothers_i).
  2:{ intros i Hi. by apply (binary_nonneg problem vehicles). }
  apply Zsum_one in Hout_v as (j & Hj & Hxj & _).
  2:{ intros j Hj. by apply (binary_nonneg problem vehicles). }
  exists i, v. split; [done|]. split; [done|]. split; [done|].
  split; [|by exists j].
  intros i' v' Hi' Hv' Hx'.
  destruct (decide (v' = v)) as [->|Hne].
  - split; [|done]. destruct (decide (i' = i)) as [->|Hni]; [done|].
    rewrite (Hothers_i i' Hi' Hni) in Hx'. done.
  - pose proof (Hothers v' Hv' Hne) as Hz. simpl in Hz.
    rewrite <- (Hkept v' Hv') in Hz.
    rewrite (Zsum_zero _ _ (fun i0 Hi0 =>
               binary_nonneg problem vehicles a i0 cid v' Hbin Hi0 Hin Hv')
               Hz i' Hi') in Hx'.
    done.
Qed.

Lemma each_customer_has_one_predecessor_witness :
  exists i v, xvars there_and_back i 1 v = 1
              /\ exists j, xvars there_and_back 1 j v = 1.
Proof.
  destruct (each_customer_has_one_predecessor one_customer_problem 1 200
              there_and_back 1 there_and_back_feasible)
    as (i & v & _ & _ & Hx & _ & j & _ & Hj).
  - apply elem_of_seq. simpl. lia.
  - exists i, v. split; [exact Hx|]. exists j. exact Hj.
Defined.

Lemma nodes_split problem :
  (2 <= VrpProblem.no_customers problem)%nat ->
  nodes problem
  = 0%nat :: C problem ++ [(VrpProblem.no_customers problem - 1)%nat].
Proof.
  intros Hn. unfold nodes, C.
  replace (VrpProblem.no_customers problem)
    with (S ((VrpProblem.no_customers problem - 2) + 1)) at 1 by lia.
  rewrite <- cons_seq, seq_app. simpl. do 3 f_equal. lia.
Qed.

Lemma sum_of_weighted_arcs {A B} (f : B -> A -> Z) (d : Z)
    (l1 : list A) (l2 : list B) :
  Zsum ((fun v => Zsum ((fun j => f j v * d) <$> l2)) <$> l1)
  = d * Zsum ((fun j => Zsum (f j <$> l1)) <$> l2).
Proof.
  rewrite (Zsum_swap (fun v j => f j v * d) l1 l2).
  rewrite <- (Zsum_scale (fun j => Zsum (f j <$> l1)) d l2).
  apply Zsum_ext. intros j _. rewrite Zsum_scale. lia.
Qed.

(** X23. The constraints can be satisfied only if the fleet as a whole
    can carry the demand: the capacity constraint charges every vehicle
    with the demand of the tail of each arc it uses, so the demands of all
    customers, and the demand of the depot once per vehicle, are at most
    the capacity times the number of vehicles. *)
Theorem fleet_must_carry_all_demand problem vehicles capacity a :
  constraints problem vehicles capacity a ->
  (2 <= VrpProblem.no_customers problem)%nat ->
  Zsum (demand_of problem <$> C problem)
  + Z.max 0 vehicles * demand_of problem 0
  <= Z.max 0 vehicles * capacity.
Proof.
  intros [Hbin _ Hout _ _ Hend Hcap Hstart _ _ _] Hn.
  assert (Z.max 0 vehicles = Z.of_nat (length (fleet vehicles))) as ->.
  { unfold fleet. rewrite length_seq. lia. }
  pose proof (Zsum_le_const _ capacity (fleet vehicles) Hcap) as Hall.
  erewrite Zsum_ext in Hall.
  2:{ intros v _. rewrite Zsum_bind2. reflexivity. }
  rewrite (Zsum_swap _ (fleet vehicles) (nodes problem)) in Hall.
  erewrite Zsum_ext in Hall.
  2:{ intros i _.
      apply (sum_of_weighted_arcs (fun j v => xvars a i j v)
               (demand_of problem i)). }
  rewrite (nodes_split problem Hn) in Hall at 1.
  rewrite fmap_cons, Zsum_cons, fmap_app, SolutionProps.Zsum_app in Hall.
  rewrite list_fmap_singleton, Zsum_cons in Hall.
  change (Zsum []) with 0 in Hall.
  (* the depot: one arc per vehicle *)
  assert (Zsum ((fun j => Zsum ((fun v => xvars a 0%nat j v) <$> fleet vehicles))
                <$> nodes problem)
          = Z.of_nat (length (fleet vehicles))) as H0.
  { rewrite <- (Zsum_swap (fun v j => xvars a 0%nat j v)).
    rewrite (Zsum_const _ 1); [lia|].
    intros v Hv. pose proof (Hstart v Hv) as H.
    by rewrite bind_singleton in H. }
  (* the end node: no arc *)
  assert (Zsum ((fun j => Zsum ((fun v =>
                              xvars a (VrpProblem.no_customers problem - 1)
                                j v) <$> fleet vehicles))
                <$> nodes problem) = 0) as Hlast.
  { red in Hend. by rewrite Zsum_bind2 in Hend. }
  (* the customers: one arc each *)
  assert (Zsum ((fun i => demand_of problem i
                          * Zsum ((fun j => Zsum ((fun v => xvars a i j v)
                                                  <$> fleet vehicles))
                                  <$> nodes problem))
                <$> C problem)
          = Zsum (demand_of problem <$> C problem)) as HC.
  { apply Zsum_ext. intros i Hi. pose proof (Hout i Hi) as H.
    rewrite Zsum_bind2 in H.
    change (Zsum ((fun j => Zsum ((fun v => xvars a i j v)
                                  <$> fleet vehicles))
                  <$> nodes problem) = 1) in H.
    rewrite H. lia. }
  rewrite H0, Hlast, HC in Hall. lia.
Qed.

Lemma fleet_must_carry_all_demand_witness :
  Zsum (demand_of one_customer_problem <$> C one_customer_problem)
  + Z.max 0 1 * demand_of one_customer_problem 0
  <= Z.max 0 1 * 200.
Proof.
  apply (fleet_must_carry_all_demand one_customer_problem 1 200
           there_and_back there_and_back_feasible).
  unfold VrpProblem.no_customers. simpl. lia.
Defined.

End CplexProps.
